(** * Spaced-repetition core of the study/chat application

    A shallow embedding of the Leitner/SM-2 code of the application
    (class [CacheDB] and the Leitner methods of class [AIChatApp]) together
    with the properties of its scheduler, due-state classifier, review
    queue, card creation and legacy migration.

    Conventions of the embedding:
    - a JavaScript number is an IEEE-754 binary64 value, represented by
      [spec_float] with precision 53 and maximal exponent 1024; arithmetic
      is the correctly rounded arithmetic of [SpecFloat];
    - the numeric card fields hold a number, [null] or [undefined] (a missing
      property), the values that the application and its legacy records give
      them;
    - a string is the UTF-8 encoding of the JavaScript string, as a string
      literal of this file is; [trim] is [String.prototype.trim] on these,
      and [toLowerCase] is [String.prototype.toLowerCase] on the strings
      whose upper-case letters are among A to Z and U+00C0 to U+00DE:
      upper-case letters from U+0100 on are outside the model;
    - the [dueDate] property holds a string or is absent, as every writer of
      the stores leaves it; [null] and numbers are outside the model;
    - an ISO-8601 time stamp string is represented by the time value
      (milliseconds since the epoch) that [new Date(s)] reads from it;
    - local time is UTC shifted by a fixed offset [tz] (milliseconds);
    - the IndexedDB object store [leitner_cards_v2] is a finite map from the
      key path [id] to the stored record; storage requests succeed;
    - what the speech playback reads of the browser and of the settings is
      an explicit argument [Speech] of the code that starts it. *)

From Stdlib Require Import ZArith Lia Bool List String Ascii.
From Stdlib Require Import Floats.SpecFloat.
From stdpp Require Import base option list gmap strings.

Local Open Scope Z_scope.

(** ** JavaScript numbers *)

Module Num.

Definition prec : Z := 53.
Definition emax : Z := 1024.

Definition number := spec_float.

Definition NaN : number := S754_nan.

(** An integer literal. *)
Definition ofZ (z : Z) : number := binary_normalize prec emax z 0 false.

Definition add : number -> number -> number := SFadd prec emax.
Definition sub : number -> number -> number := SFsub prec emax.
Definition mul : number -> number -> number := SFmul prec emax.
Definition div : number -> number -> number := SFdiv prec emax.

(** A decimal literal [n/d] ([1.3] is [dec 13 10]): the binary64 value
    nearest to the quotient, which the correctly rounded division of the
    two exactly representable integers yields. *)
Definition dec (n d : Z) : number := div (ofZ n) (ofZ d).

Definition ltb : number -> number -> bool := SFltb.
Definition leb : number -> number -> bool := SFleb.
Definition eqb : number -> number -> bool := SFeqb.

Definition is_nan (x : number) : bool :=
  match x with S754_nan => true | _ => false end.

(** [Math.max] of two numbers: NaN if either is NaN, and [+0] above [-0]. *)
Definition max (x y : number) : number :=
  match SFcompare x y with
  | None => NaN
  | Some Lt => y
  | Some Gt => x
  | Some Eq =>
      match x with
      | S754_zero true => y
      | _ => x
      end
  end.

(** [Math.round]: the nearest integer, ties towards +infinity; zeros,
    infinities, NaN and integral values are returned unchanged, and a
    result of zero keeps the sign of the argument. *)
Definition round (x : number) : number :=
  match x with
  | S754_finite s m e =>
      if 0 <=? e then x
      else
        let n := (2 * cond_Zopp s (Zpos m) + 2 ^ (- e)) / 2 ^ (- e + 1) in
        match n with
        | Z0 => S754_zero s
        | _ => binary_normalize prec emax n 0 false
        end
  | _ => x
  end.

(** [ToIntegerOrInfinity] restricted to finite values: truncation towards
    zero; [None] for NaN and the infinities. *)
Definition truncate (x : number) : option Z :=
  match x with
  | S754_zero _ => Some 0
  | S754_finite s m e =>
      Some (cond_Zopp s (if 0 <=? e then Zpos m * 2 ^ e
                         else Zpos m / 2 ^ (- e)))
  | _ => None
  end.

End Num.

Abbreviation number := Num.number.

(** ** JavaScript values held by the numeric card fields *)

Inductive jsval :=
| JUndefined
| JNull
| JNum (x : number).

Definition num (z : Z) : jsval := JNum (Num.ofZ z).

Definition ToBoolean (v : jsval) : bool :=
  match v with
  | JUndefined | JNull => false
  | JNum (S754_zero _) | JNum S754_nan => false
  | JNum _ => true
  end.

Definition ToNumber (v : jsval) : number :=
  match v with
  | JUndefined => Num.NaN
  | JNull => S754_zero false
  | JNum x => x
  end.

(** [a || b] *)
Definition js_or (a b : jsval) : jsval := if ToBoolean a then a else b.

(** [a < b] and [a > b] on non-string primitives. *)
Definition js_lt (a b : jsval) : bool := Num.ltb (ToNumber a) (ToNumber b).
Definition js_gt (a b : jsval) : bool := Num.ltb (ToNumber b) (ToNumber a).

(** [a === b] *)
Definition js_seq (a b : jsval) : bool :=
  match a, b with
  | JUndefined, JUndefined => true
  | JNull, JNull => true
  | JNum x, JNum y => Num.eqb x y
  | _, _ => false
  end.

Definition js_add (a b : jsval) : jsval := JNum (Num.add (ToNumber a) (ToNumber b)).
Definition js_sub (a b : jsval) : jsval := JNum (Num.sub (ToNumber a) (ToNumber b)).
Definition js_mul (a b : jsval) : jsval := JNum (Num.mul (ToNumber a) (ToNumber b)).
Definition Math_max (a b : jsval) : jsval := JNum (Num.max (ToNumber a) (ToNumber b)).
Definition Math_round (a : jsval) : jsval := JNum (Num.round (ToNumber a)).

(** The decimal literals of the scheduler. *)
Definition lit_1_3 : jsval := JNum (Num.dec 13 10).
Definition lit_0_2 : jsval := JNum (Num.dec 2 10).
Definition lit_0_1 : jsval := JNum (Num.dec 1 10).
Definition lit_0_08 : jsval := JNum (Num.dec 8 100).
Definition lit_0_02 : jsval := JNum (Num.dec 2 100).
Definition lit_1_2 : jsval := JNum (Num.dec 12 10).
Definition lit_2_5 : jsval := JNum (Num.dec 25 10).

(** ** Cards and scopes *)

(** The [dueDate] property as [new Date(card.dueDate)] reads it: [NoDate]
    is the absent property (or the empty string), which is falsy and reads
    as an invalid date; [BadDate] is a non-empty string that is not a date;
    [IsoDate t] is a time stamp. *)
Inductive DateField :=
| NoDate
| BadDate
| IsoDate (t : Z).

(** A record of the object stores [leitner_cards] (legacy) and
    [leitner_cards_v2]. String properties are [None] when absent. *)
Record Card := mkCard {
  id : option string;
  word : option string;
  chatId : option string;
  scopeType : option string;
  scopeId : option string;
  scopeKey : option string;
  createdAt : option Z;
  dueDate : DateField;
  repetitions : jsval;
  interval : jsval;
  easeFactor : jsval;
  lastReviewed : option Z;
  status : option string;
  migratedFromLegacy : bool
}.

(** A scope object [{ type, id }]. *)
Record Scope := mkScope {
  type : option string;
  sid : option string
}.

(** Truthiness of a string property: present and not empty. *)
Definition truthy (o : option string) : bool :=
  match o with
  | Some s => negb (String.eqb s "")
  | None => false
  end.

(** [o || d] for a string property. *)
Definition str_or (o : option string) (d : string) : string :=
  match o with
  | Some s => if String.eqb s "" then d else s
  | None => d
  end.

(** ** The SM-2 scheduler *)

Record SM2Result := mkSM2 {
  newRepetitions : jsval;
  newInterval : jsval;
  newEaseFactor : jsval
}.

Definition calculateSM2 (card : Card) (quality : jsval) : SM2Result :=
  let repetitions := js_or (repetitions card) (num 0) in
  let interval := js_or (interval card) (num 0) in
  let easeFactor := js_or (easeFactor card) lit_2_5 in
  if js_lt quality (num 3) then
    {| newRepetitions := num 0;
       newInterval := if js_seq repetitions (num 0) then num 0 else num 1;
       newEaseFactor := Math_max lit_1_3 (js_sub easeFactor lit_0_2) |}
  else
    let newEaseFactor :=
      Math_max lit_1_3
        (js_add easeFactor
           (js_sub lit_0_1
              (js_mul (js_sub (num 5) quality)
                 (js_add lit_0_08 (js_mul (js_sub (num 5) quality) lit_0_02))))) in
    if js_seq repetitions (num 0) then
      if js_seq quality (num 5) then
        {| newRepetitions := num 2; newInterval := num 4;
           newEaseFactor := newEaseFactor |}
      else if js_seq quality (num 2) then
        {| newRepetitions := num 0; newInterval := num 0;
           newEaseFactor := newEaseFactor |}
      else
        {| newRepetitions := num 1; newInterval := num 1;
           newEaseFactor := newEaseFactor |}
    else if js_seq repetitions (num 1) then
      {| newRepetitions := num 2;
         newInterval :=
           if js_seq quality (num 5) then
             Math_round (js_mul (js_mul interval newEaseFactor) lit_1_3)
           else if js_seq quality (num 2) then
             Math_max (num 2) (Math_round (js_mul interval lit_1_2))
           else num 6;
         newEaseFactor := newEaseFactor |}
    else
      {| newRepetitions := js_add repetitions (num 1);
         newInterval :=
           if js_seq quality (num 5) then
             Math_round (js_mul (js_mul interval newEaseFactor) lit_1_3)
           else if js_seq quality (num 2) then
             Math_max (Math_round (js_mul interval lit_1_2))
                      (js_add interval (num 1))
           else Math_round (js_mul interval newEaseFactor);
         newEaseFactor := newEaseFactor |}.

(** ** Scope keys and card identity *)

Definition getScopeKey (scope : option Scope) : string :=
  match scope with
  | None => "global:all"
  | Some sc =>
      if negb (truthy (type sc)) then "global:all"
      else
        let ty := str_or (type sc) "" in
        if String.eqb ty "global" then "global:all"
        else ty +:+ ":" +:+ str_or (sid sc) "all"
  end.

(** [byteIs n a]: the byte [a] is [n]. *)
Definition byteIs (n : nat) (a : ascii) : bool := Nat.eqb (nat_of_ascii a) n.

(** The white space and line terminators that [String.prototype.trim]
    strips, by the length of their UTF-8 encoding. One byte: U+0009 to
    U+000D and the space U+0020. *)
Definition is_space (a : ascii) : bool :=
  let n := nat_of_ascii a in
  (Nat.eqb n 32 || (Nat.leb 9 n && Nat.leb n 13))%bool.

(** Two bytes: the no-break space U+00A0, encoded C2 A0. *)
Definition is_space2 (a b : ascii) : bool := (byteIs 194 a && byteIs 160 b)%bool.

(** Three bytes: U+1680 (E1 9A 80); U+2000 to U+200A, the line and
    paragraph separators U+2028 and U+2029, and U+202F (E2 80 80 to 8A, A8,
    A9, AF); U+205F (E2 81 9F); U+3000 (E3 80 80); and U+FEFF (EF BB BF). *)
Definition is_space3 (a b c : ascii) : bool :=
  ((byteIs 225 a && byteIs 154 b && byteIs 128 c)
   || (byteIs 226 a && byteIs 128 b
       && ((Nat.leb 128 (nat_of_ascii c) && Nat.leb (nat_of_ascii c) 138)
           || byteIs 168 c || byteIs 169 c || byteIs 175 c))
   || (byteIs 226 a && byteIs 129 b && byteIs 159 c)
   || (byteIs 227 a && byteIs 128 b && byteIs 128 c)
   || (byteIs 239 a && byteIs 187 b && byteIs 191 c))%bool.

Fixpoint trimStart (s : string) : string :=
  match s with
  | EmptyString => EmptyString
  | String a s1 =>
      if is_space a then trimStart s1
      else
        match s1 with
        | EmptyString => s
        | String b s2 =>
            if is_space2 a b then trimStart s2
            else
              match s2 with
              | EmptyString => s
              | String c s3 => if is_space3 a b c then trimStart s3 else s
              end
        end
  end.

(** The string consists of white space. *)
Fixpoint allSpace (s : string) : bool :=
  match s with
  | EmptyString => true
  | String a s1 =>
      if is_space a then allSpace s1
      else
        match s1 with
        | EmptyString => false
        | String b s2 =>
            if is_space2 a b then allSpace s2
            else
              match s2 with
              | EmptyString => false
              | String c s3 => if is_space3 a b c then allSpace s3 else false
              end
        end
  end.

(** The string without the white space it ends with: it is cut where only
    white space follows. *)
Fixpoint trimEnd (s : string) : string :=
  match s with
  | EmptyString => EmptyString
  | String a s' => if allSpace s then EmptyString else String a (trimEnd s')
  end.

Definition trim (s : string) : string := trimEnd (trimStart s).

(** The byte is the encoding of A to Z, or, after the byte C3, the second
    byte of one of U+00C0 to U+00DE (C3 80 to C3 9E) without the
    multiplication sign U+00D7 (C3 97). *)
Definition is_upper (afterC3 : bool) (a : ascii) : bool :=
  let n := nat_of_ascii a in
  ((Nat.leb 65 n && Nat.leb n 90)
   || (afterC3 && Nat.leb 128 n && Nat.leb n 158 && negb (Nat.eqb n 151)))%bool.

(** [String.prototype.toLowerCase] on one byte: the lower-case letter of
    each of these upper-case letters is encoded 32 places further on;
    [afterC3] tells whether the byte before was C3. *)
Definition lower (afterC3 : bool) (a : ascii) : ascii :=
  if is_upper afterC3 a then ascii_of_nat (nat_of_ascii a + 32) else a.

Fixpoint lowerFrom (afterC3 : bool) (s : string) : string :=
  match s with
  | EmptyString => EmptyString
  | String a s' => String (lower afterC3 a) (lowerFrom (byteIs 195 a) s')
  end.

Definition toLowerCase (s : string) : string := lowerFrom false s.

Definition normalizeWord (word : option string) : string :=
  toLowerCase (trim (str_or word "")).

Definition getLeitnerCardId (word : option string) (scope : option Scope) : string :=
  let cleanWord := normalizeWord word in
  getScopeKey scope +:+ ":" +:+ cleanWord.

(** ** Time *)

Definition msPerDay : Z := 24 * 60 * 60 * 1000.

(** [d.setHours(0, 0, 0, 0)] on a valid date: the instant of the local
    midnight that precedes [t]. *)
Definition setHours0 (tz t : Z) : Z := t - (t + tz) mod msPerDay.

(** [new Date(card.dueDate)]: [None] is an invalid date, which an absent
    [dueDate] gives as well as a string that is not a date. *)
Definition newDate (d : DateField) : option Z :=
  match d with
  | IsoDate t => Some t
  | NoDate | BadDate => None
  end.

(** The largest time value of a valid date. *)
Definition maxTime : Z := 8640000000000000.

(** [d.setDate(d.getDate() + n)] on a date at time [t]: the date moves by the
    integral part of [n] days; it becomes invalid when [n] is not finite or
    the result leaves the range of time values. (The sum [getDate() + n] is
    exact for the integral intervals the scheduler produces.) *)
Definition setDatePlus (t : Z) (n : jsval) : option Z :=
  match Num.truncate (ToNumber n) with
  | Some k =>
      let t' := t + k * msPerDay in
      if (Z.abs t' <=? maxTime) then Some t' else None
  | None => None
  end.

(** ** The due-state classifier *)

Inductive DueState := StNone | StNew | StScheduled | StDue | StOverdue.

Record DueInfo := mkDueInfo {
  state : DueState;
  infoDueDate : DateField;
  infoCard : option Card
}.

Definition evaluateCardDueState (card : option Card) (now : Z) : DueInfo :=
  match card with
  | None => {| state := StNone; infoDueDate := NoDate; infoCard := None |}
  | Some c =>
      let due :=
        match dueDate c with
        | NoDate => Some now
        | d => newDate d
        end in
      let isDue := match due with Some d => d <=? now | None => false end in
      let overdue :=
        (isDue && match due with Some d => now - d >? msPerDay | None => false end)%bool in
      {| state :=
           if isDue then (if overdue then StOverdue else StDue)
           else if js_seq (repetitions c) (num 0) then StNew else StScheduled;
         infoDueDate := dueDate c;
         infoCard := Some c |}
  end.

(** ** Application state *)

Inductive Toast :=
| ToastEmptyWord
| ToastSelectScope
| ToastAlreadyInDeck (w : string)
| ToastAdded (w : string)
| ToastFailed
| ToastTtsUnsupported.

Record App := mkApp {
  db : gmap string Card;
  currentChatId : option string;
  currentDocumentId : option string;
  activeSidebarSection : string;
  currentLeitnerScope : option Scope;
  leitnerQueue : list Card;
  currentCard : option Card;
  leitnerStatsNew : nat;
  leitnerStatsDue : nat;
  leitnerFinishedScreen : bool;
  toasts : list Toast
}.

(** [db.getAll(LEITNER_STORE)]: the stored records. *)
Definition getAll (store : gmap string Card) : list Card := (map_to_list store).*2.

(** [db.set(LEITNER_STORE, card)]: a [put] under the key path [id]; a record
    without a key is refused. *)
Definition dbSet (store : gmap string Card) (card : Card) : option (gmap string Card) :=
  match id card with
  | Some k => Some (<[k := card]> store)
  | None => None
  end.

Definition getChatScope (app : App) (chatId : option string) : Scope :=
  let i := if truthy chatId then chatId else currentChatId app in
  if truthy i then {| type := Some "chat"; sid := i |}
  else {| type := Some "global"; sid := None |}.

Definition getDocumentScope (app : App) (documentId : option string) : Scope :=
  let i := if truthy documentId then documentId else currentDocumentId app in
  if truthy i then {| type := Some "document"; sid := i |}
  else {| type := Some "global"; sid := None |}.

Definition getGlobalScope : Scope := {| type := Some "global"; sid := Some "all" |}.

Definition getActiveScope (app : App) (includeGlobalFallback : bool) : option Scope :=
  if (String.eqb (activeSidebarSection app) "documents" && truthy (currentDocumentId app))%bool
  then Some (getDocumentScope app None)
  else if truthy (currentChatId app) then Some (getChatScope app None)
  else if includeGlobalFallback then Some getGlobalScope else None.

(** ** The review session *)

Definition showFinishedScreen (app : App) : App :=
  {| db := db app;
     currentChatId := currentChatId app;
     currentDocumentId := currentDocumentId app;
     activeSidebarSection := activeSidebarSection app;
     currentLeitnerScope := currentLeitnerScope app;
     leitnerQueue := leitnerQueue app;
     currentCard := currentCard app;
     leitnerStatsNew := leitnerStatsNew app;
     leitnerStatsDue := leitnerStatsDue app;
     leitnerFinishedScreen := true;
     toasts := toasts app |}.

Definition showNextCard (app : App) : App :=
  match leitnerQueue app with
  | [] => showFinishedScreen app
  | c :: rest =>
      {| db := db app;
         currentChatId := currentChatId app;
         currentDocumentId := currentDocumentId app;
         activeSidebarSection := activeSidebarSection app;
         currentLeitnerScope := currentLeitnerScope app;
         leitnerQueue := rest;
         currentCard := Some c;
         leitnerStatsNew := leitnerStatsNew app;
         leitnerStatsDue := leitnerStatsDue app;
         leitnerFinishedScreen := leitnerFinishedScreen app;
         toasts := toasts app |}
  end.

(** The predicate of the [filter] call in [openLeitnerModal]; [today] is the
    local midnight of the current day. *)
Definition reviewFilter (tz today : Z) (scopeKey0 : string) (includeGlobal : bool)
    (card : Card) : bool :=
  if negb (truthy (scopeKey card)) then false
  else if (negb (String.eqb (str_or (scopeKey card) "") scopeKey0)
           && (negb includeGlobal
               || negb (String.eqb (str_or (scopeKey card) "") "global:all")))%bool
  then false
  else
    match newDate (dueDate card) with
    | Some d => setHours0 tz d <=? today
    | None => false
    end.

(** The scope a review is opened for. *)
Definition reviewScope (app : App) (chatId : option string)
    (scopeOverride : option Scope) : option Scope :=
  match scopeOverride with
  | Some sc => Some sc
  | None =>
      if truthy chatId then Some (getChatScope app chatId)
      else getActiveScope app true
  end.

(** The queue that [openLeitnerModal] builds: the stored cards that pass the
    filter, in the order the random sort leaves them in. *)
Definition reviewQueue (shuffle : list Card -> list Card) (tz now : Z)
    (store : gmap string Card) (scope : option Scope) : list Card :=
  let scopeKey0 := getScopeKey scope in
  let includeGlobal := negb (String.eqb scopeKey0 "global:all") in
  let allCards := getAll store in
  let today := setHours0 tz now in
  let cardsToReview :=
    filter (fun c => reviewFilter tz today scopeKey0 includeGlobal c = true) allCards in
  shuffle cardsToReview.

Definition openLeitnerModal (shuffle : list Card -> list Card) (tz now : Z)
    (app : App) (chatId : option string) (scopeOverride : option Scope) : App :=
  let scope := reviewScope app chatId scopeOverride in
  let queue := reviewQueue shuffle tz now (db app) scope in
  let newCount := length (filter (fun c => js_seq (repetitions c) (num 0) = true) queue) in
  let reviewCount := length (filter (fun c => js_gt (repetitions c) (num 0) = true) queue) in
  let app' :=
    {| db := db app;
       currentChatId := currentChatId app;
       currentDocumentId := currentDocumentId app;
       activeSidebarSection := activeSidebarSection app;
       currentLeitnerScope := scope;
       leitnerQueue := queue;
       currentCard := currentCard app;
       leitnerStatsNew := newCount;
       leitnerStatsDue := reviewCount;
       leitnerFinishedScreen := false;
       toasts := toasts app |} in
  if (0 <? Z.of_nat (length queue)) then showNextCard app' else showFinishedScreen app'.

(** The rating buttons Again, Hard, Good and Easy call [rateCard] with 1, 2,
    3 and 4; [qualityMap] has no other key. *)
Definition qualityMap (rating : Z) : jsval :=
  match rating with
  | 1 => num 0
  | 2 => num 2
  | 3 => num 3
  | 4 => num 5
  | _ => JUndefined
  end.

(** The status that [rateCard] derives from the new repetition count. *)
Definition ratedStatus (reps : jsval) : string :=
  if js_seq reps (num 0) then "learning"
  else if js_lt reps (num 2) then "learning"
  else "review".

(** The record [updatedCard] of [rateCard]. *)
Definition updatedCard (card : Card) (sm2Result : SM2Result)
    (nextDueDate now : Z) : Card :=
  {| id := id card;
     word := word card;
     chatId := chatId card;
     scopeType := scopeType card;
     scopeId := scopeId card;
     scopeKey := scopeKey card;
     createdAt := createdAt card;
     dueDate := IsoDate nextDueDate;
     repetitions := newRepetitions sm2Result;
     interval := newInterval sm2Result;
     easeFactor := newEaseFactor sm2Result;
     lastReviewed := Some now;
     status := Some (ratedStatus (newRepetitions sm2Result));
     migratedFromLegacy := migratedFromLegacy card |}.

(** [rateCard]; [None] stands for a rejected call: [toISOString] throws on
    an invalid due date and the store refuses a record without key; nothing
    has been written by then. *)
Definition rateCard (tz now : Z) (app : App) (rating : Z) : option App :=
  match currentCard app with
  | None => Some app
  | Some card =>
      let quality := qualityMap rating in
      let sm2Result := calculateSM2 card quality in
      match setDatePlus (setHours0 tz now) (newInterval sm2Result) with
      | None => None
      | Some nextDueDate =>
          match dbSet (db app) (updatedCard card sm2Result nextDueDate now) with
          | None => None
          | Some store' =>
              Some (showNextCard
                {| db := store';
                   currentChatId := currentChatId app;
                   currentDocumentId := currentDocumentId app;
                   activeSidebarSection := activeSidebarSection app;
                   currentLeitnerScope := currentLeitnerScope app;
                   leitnerQueue := leitnerQueue app;
                   currentCard := currentCard app;
                   leitnerStatsNew := leitnerStatsNew app;
                   leitnerStatsDue := leitnerStatsDue app;
                   leitnerFinishedScreen := leitnerFinishedScreen app;
                   toasts := toasts app |})
          end
      end
  end.

(** ** Adding a word *)

Definition showToast (app : App) (t : Toast) : App :=
  {| db := db app;
     currentChatId := currentChatId app;
     currentDocumentId := currentDocumentId app;
     activeSidebarSection := activeSidebarSection app;
     currentLeitnerScope := currentLeitnerScope app;
     leitnerQueue := leitnerQueue app;
     currentCard := currentCard app;
     leitnerStatsNew := leitnerStatsNew app;
     leitnerStatsDue := leitnerStatsDue app;
     leitnerFinishedScreen := leitnerFinishedScreen app;
     toasts := t :: toasts app |}.

Definition withDb (app : App) (store : gmap string Card) : App :=
  {| db := store;
     currentChatId := currentChatId app;
     currentDocumentId := currentDocumentId app;
     activeSidebarSection := activeSidebarSection app;
     currentLeitnerScope := currentLeitnerScope app;
     leitnerQueue := leitnerQueue app;
     currentCard := currentCard app;
     leitnerStatsNew := leitnerStatsNew app;
     leitnerStatsDue := leitnerStatsDue app;
     leitnerFinishedScreen := leitnerFinishedScreen app;
     toasts := toasts app |}.

(** [scope || this.getActiveScope()] *)
Definition targetScopeFor (app : App) (scope : option Scope) : option Scope :=
  match scope with
  | Some sc => Some sc
  | None => getActiveScope app true
  end.

(** ** Speech playback without a button *)

(** What [playTextToSpeech] reads of the browser and of the settings of the
    application: whether the global [speechSynthesis] is defined; the value
    of [speechSynthesis.speaking] when [playTextToSpeech] is entered and
    when [playWithBrowserTTS] reads it again, after the audio cache was
    awaited; whether the audio cache holds an audio for the text; and the
    fields [ttsProvider], [AVALAI_API_KEY] and [API_KEY] of the
    application. *)
Record Speech := mkSpeech {
  speechSynthesis : bool;
  speaking : bool;
  speakingLater : bool;
  audioCached : bool;
  ttsProvider : string;
  AVALAI_API_KEY : option string;
  API_KEY : option string
}.

(** [playAudio(audioBlob, null, progressBar)]: the promise is rejected
    ([None]), as the assignment [button.disabled = true] throws on the null
    button before the audio is played. *)
Definition playAudio (app : App) : option App := None.

(** [playWithAvalaiTTS(text, null, progressBar)] and
    [playWithGeminiTTS(text, null, progressBar)]: the assignment
    [button.disabled = true], which stands before the [try] block, throws on
    the null button; the promise is rejected, and [playTextToSpeech], which
    does not await it, goes on. Nothing is requested and no toast is
    raised. *)
Definition playWithAvalaiTTS (app : App) : App := app.
Definition playWithGeminiTTS (app : App) : App := app.

(** [playWithBrowserTTS(text, null, progressBar, messageId)]: unless speech
    is running, which is cancelled, the assignment [button.disabled = true]
    throws on the null button inside the [try] block, before
    [speechSynthesis.speak] is reached, and the handler raises its toast. *)
Definition playWithBrowserTTS (tts : Speech) (app : App) : App :=
  if speakingLater tts then app
  else showToast app ToastTtsUnsupported.

(** [playTextToSpeech(text, null, null, null)], the call that
    [addCurrentWordToLeitner] awaits; [None] is a rejected promise: the
    first line throws a ReferenceError when [speechSynthesis] is not
    defined. An error of the [try] block around the audio cache is caught
    and logged, so that a cached audio, which [playAudio] fails to play, is
    followed by the choice of the provider as a missing one is. *)
Definition playTextToSpeech (tts : Speech) (app : App) : option App :=
  if negb (speechSynthesis tts) then None
  else if speaking tts then Some app
  else
    let played := if audioCached tts then playAudio app else None in
    match played with
    | Some app' => Some app'
    | None =>
        if (String.eqb (ttsProvider tts) "avalai" && truthy (AVALAI_API_KEY tts))%bool
        then Some (playWithAvalaiTTS app)
        else if (String.eqb (ttsProvider tts) "gemini" && truthy (API_KEY tts))%bool
        then Some (playWithGeminiTTS app)
        else Some (playWithBrowserTTS tts app)
    end.

(** [addCurrentWordToLeitner]; a rejected playback is caught by the handler
    of the [try] block, which raises the failure toast. The refresh of the
    highlight cache, which does not touch the store, is left out. *)
Definition addCurrentWordToLeitner (tts : Speech) (now : Z) (app : App)
    (word0 : option string) (scope : option Scope) : App :=
  let normalizedWord := normalizeWord word0 in
  if String.eqb normalizedWord "" then showToast app ToastEmptyWord
  else
    match targetScopeFor app scope with
    | None => showToast app ToastSelectScope
    | Some targetScope =>
        let scopeKey0 := getScopeKey (Some targetScope) in
        let cardId := getLeitnerCardId (Some normalizedWord) (Some targetScope) in
        match db app !! cardId with
        | Some existingCard =>
            let reported := showToast app (ToastAlreadyInDeck normalizedWord) in
            match playTextToSpeech tts reported with
            | Some played => played
            | None => showToast reported ToastFailed
            end
        | None =>
            let newCard :=
              {| id := Some cardId;
                 word := Some normalizedWord;
                 chatId := None;
                 scopeType := type targetScope;
                 scopeId := Some (str_or (sid targetScope) "all");
                 scopeKey := Some scopeKey0;
                 createdAt := Some now;
                 dueDate := IsoDate now;
                 repetitions := num 0;
                 interval := num 0;
                 easeFactor := lit_2_5;
                 lastReviewed := None;
                 status := Some "new";
                 migratedFromLegacy := false |} in
            match dbSet (db app) newCard with
            | Some store' =>
                match playTextToSpeech tts (withDb app store') with
                | Some played => showToast played (ToastAdded normalizedWord)
                | None => showToast (withDb app store') ToastFailed
                end
            | None => showToast app ToastFailed
            end
        end
    end.

(** ** Migration of the legacy store *)

(** The key [id] that the upgrade handler of [CacheDB.init] computes for the
    legacy record [value]. *)
Definition migratedKey (value : Card) : string :=
  let scopeType0 := if truthy (chatId value) then "chat" else "global" in
  let scopeId0 := str_or (chatId value) "all" in
  let scopeKey0 := scopeType0 +:+ ":" +:+ scopeId0 in
  scopeKey0 +:+ ":" +:+ str_or (word value) "".

(** The record [migrated] that the upgrade handler of [CacheDB.init] builds
    from the legacy record [value]; [now] is the clock reading it falls back
    to for [createdAt]. *)
Definition migrated (now : Z) (value : Card) : Card :=
  let scopeType0 := if truthy (chatId value) then "chat" else "global" in
  let scopeId0 := str_or (chatId value) "all" in
  let scopeKey0 := scopeType0 +:+ ":" +:+ scopeId0 in
  let id0 := migratedKey value in
  {| id := Some id0;
     word := word value;
     chatId := chatId value;
     scopeType := Some scopeType0;
     scopeId := Some scopeId0;
     scopeKey := Some scopeKey0;
     createdAt := match createdAt value with Some t => Some t | None => Some now end;
     dueDate := dueDate value;
     repetitions := repetitions value;
     interval := interval value;
     easeFactor := easeFactor value;
     lastReviewed := lastReviewed value;
     status := status value;
     migratedFromLegacy := true |}.

(** One step of the cursor over the legacy store. *)
Definition migrateCard (now : Z) (value : Card) (newStore : gmap string Card) :
    gmap string Card :=
  if truthy (word value) then
    match dbSet newStore (migrated now value) with
    | Some store' => store'
    | None => newStore
    end
  else newStore.

(** The migration loop of the upgrade handler: the cursor visits the legacy
    records in key order; [clock i] is the time at which record [i] is
    visited. *)
Fixpoint migrateLegacy (clock : nat -> Z) (oldStore : list Card)
    (newStore : gmap string Card) : gmap string Card :=
  match oldStore with
  | [] => newStore
  | value :: rest =>
      migrateLegacy (fun i => clock (S i)) rest (migrateCard (clock 0%nat) value newStore)
  end.

(** ** Auxiliary definitions for the statements *)

(** A card with the given scheduling fields and no other property. *)
Definition sm2Card (reps ivl ease : jsval) : Card :=
  {| id := None; word := None; chatId := None; scopeType := None;
     scopeId := None; scopeKey := None; createdAt := None; dueDate := NoDate;
     repetitions := reps; interval := ivl; easeFactor := ease;
     lastReviewed := None; status := None; migratedFromLegacy := false |}.

(** [card] with its three scheduling fields replaced. *)
Definition withFields (card : Card) (reps ivl ease : jsval) : Card :=
  {| id := id card; word := word card; chatId := chatId card;
     scopeType := scopeType card; scopeId := scopeId card;
     scopeKey := scopeKey card; createdAt := createdAt card;
     dueDate := dueDate card;
     repetitions := reps; interval := ivl; easeFactor := ease;
     lastReviewed := lastReviewed card; status := status card;
     migratedFromLegacy := migratedFromLegacy card |}.

(** The values that [calculateSM2] works with once its defaults are in
    place. *)
Definition priorRepetitions (card : Card) : jsval := js_or (repetitions card) (num 0).
Definition priorInterval (card : Card) : jsval := js_or (interval card) (num 0).
Definition priorEaseFactor (card : Card) : jsval := js_or (easeFactor card) lit_2_5.

(** The four qualities that the rating buttons produce. *)
Definition isQuality (q : jsval) : Prop :=
  q = num 0 \/ q = num 2 \/ q = num 3 \/ q = num 5.

(** The ease factor is a number not below 1.3. *)
Definition aboveFloor (v : jsval) : bool :=
  match v with
  | JNum e => Num.leb (ToNumber lit_1_3) e
  | _ => false
  end.

(** A card after a sequence of ratings, each given by its quality, the due
    date it leads to and the time of the rating; every step rewrites the card
    the way [rateCard] does. *)
Fixpoint rateSequence (card : Card) (ratings : list (jsval * Z * Z)) : Card :=
  match ratings with
  | [] => card
  | (q, due, now) :: rest =>
      rateSequence (updatedCard card (calculateSM2 card q) due now) rest
  end.

(** The classifier in the words of the specification: the test whether a
    card is due compares the due date and the current time after both are
    cut down to the local day; a due card is overdue when more than 24 hours
    have passed since its due date. Cards without a readable due date are
    classified as the code does. *)
Definition classifyByDay (tz : Z) (card : Card) (now : Z) : DueState :=
  match dueDate card with
  | IsoDate d =>
      if setHours0 tz d <=? setHours0 tz now then
        (if now - d >? msPerDay then StOverdue else StDue)
      else if js_seq (repetitions card) (num 0) then StNew else StScheduled
  | NoDate => StDue
  | BadDate => if js_seq (repetitions card) (num 0) then StNew else StScheduled
  end.

(** A card that is due later on the current day. *)
Definition dueLaterToday : Card :=
  {| id := Some "global:all:run"; word := Some "run"; chatId := None;
     scopeType := Some "global"; scopeId := Some "all";
     scopeKey := Some "global:all"; createdAt := Some 1727950000000;
     dueDate := IsoDate 1728043200000;
     repetitions := num 1; interval := num 1; easeFactor := lit_2_5;
     lastReviewed := Some 1727950000000; status := Some "learning";
     migratedFromLegacy := false |}.

(** An application that holds no card and has no chat or document open. *)
Definition emptyApp : App :=
  {| db := ∅; currentChatId := None; currentDocumentId := None;
     activeSidebarSection := "chat"; currentLeitnerScope := None;
     leitnerQueue := []; currentCard := None;
     leitnerStatsNew := 0; leitnerStatsDue := 0;
     leitnerFinishedScreen := false; toasts := [] |}.

(** A browser that has the speech synthesis, where nothing is being spoken
    and no audio is cached, with the settings of a first start: the provider
    "gemini" and no key. *)
Definition firstStart : Speech :=
  {| speechSynthesis := true; speaking := false; speakingLater := false;
     audioCached := false; ttsProvider := "gemini";
     AVALAI_API_KEY := None; API_KEY := None |}.

(** A browser without speech synthesis. *)
Definition noSynthesis : Speech :=
  {| speechSynthesis := false; speaking := false; speakingLater := false;
     audioCached := false; ttsProvider := "gemini";
     AVALAI_API_KEY := None; API_KEY := None |}.

(** The toasts that the playback without button raises, the latest first;
    [None] when its promise is rejected. *)
Definition spoken (tts : Speech) : option (list Toast) :=
  toasts <$> playTextToSpeech tts emptyApp.

(** The record that [addCurrentWordToLeitner] builds at time [now] for the
    word [word0] and the scope [targetScope]. *)
Definition addedCard (now : Z) (word0 : option string) (targetScope : Scope) : Card :=
  {| id := Some (getLeitnerCardId word0 (Some targetScope));
     word := Some (normalizeWord word0);
     chatId := None;
     scopeType := type targetScope;
     scopeId := Some (str_or (sid targetScope) "all");
     scopeKey := Some (getScopeKey (Some targetScope));
     createdAt := Some now;
     dueDate := IsoDate now;
     repetitions := num 0;
     interval := num 0;
     easeFactor := lit_2_5;
     lastReviewed := None;
     status := Some "new";
     migratedFromLegacy := false |}.

Definition chatA : Scope := {| type := Some "chat"; sid := Some "A" |}.
Definition chatB : Scope := {| type := Some "chat"; sid := Some "B" |}.
Definition documentDoc1 : Scope := {| type := Some "document"; sid := Some "doc1" |}.

(** The store after "apple" was added for chat A and "run" for the global
    scope, both at time 1727950000000. *)
Definition appleAndRun : App :=
  addCurrentWordToLeitner firstStart 1727950000000
    (addCurrentWordToLeitner firstStart 1727950000000 emptyApp (Some "apple") (Some chatA))
    (Some "run") (Some getGlobalScope).

(** The keys that a migration run writes: those of the legacy records that
    have a word. *)
Definition migratedKeys (oldStore : list Card) : list string :=
  migratedKey <$> filter (fun v => truthy (word v) = true) oldStore.

(** The store after "apple" was added for chat A. *)
Definition appleAdded : App :=
  addCurrentWordToLeitner firstStart 1727950000000 emptyApp (Some "apple") (Some chatA).

(** A legacy record for "run" as the first version of the application
    wrote it, without [repetitions], and a legacy record without word. *)
Definition legacyRun : Card :=
  {| id := None; word := Some "run"; chatId := Some "A"; scopeType := None;
     scopeId := None; scopeKey := None; createdAt := Some 1727950000000;
     dueDate := IsoDate 1727950000000;
     repetitions := JUndefined; interval := num 0; easeFactor := lit_2_5;
     lastReviewed := None; status := Some "new"; migratedFromLegacy := false |}.

Definition legacyNoWord : Card :=
  {| id := None; word := None; chatId := Some "A"; scopeType := None;
     scopeId := None; scopeKey := None; createdAt := Some 1727950000000;
     dueDate := IsoDate 1727950000000;
     repetitions := JUndefined; interval := num 0; easeFactor := lit_2_5;
     lastReviewed := None; status := Some "new"; migratedFromLegacy := false |}.

(** A legacy record as the legacy application wrote it. *)
Definition legacyApple : Card :=
  {| id := None; word := Some "apple"; chatId := Some "A"; scopeType := None;
     scopeId := None; scopeKey := None; createdAt := Some 1727950000000;
     dueDate := IsoDate 1727950000000;
     repetitions := num 0; interval := num 0; easeFactor := lit_2_5;
     lastReviewed := None; status := Some "new"; migratedFromLegacy := false |}.

(** The card that adding "run" for the document doc1 at time [t] stores. *)
Definition runCard (t : Z) : Card :=
  {| id := Some "document:doc1:run"; word := Some "run"; chatId := None;
     scopeType := Some "document"; scopeId := Some "doc1";
     scopeKey := Some "document:doc1"; createdAt := Some t;
     dueDate := IsoDate t; repetitions := num 0; interval := num 0;
     easeFactor := lit_2_5; lastReviewed := None; status := Some "new";
     migratedFromLegacy := false |}.

(** The end-to-end scenario at fixed times, in UTC, with a shuffle that
    reverses the queue: "run" is added for the document doc1, a review is
    opened for doc1, and the card is rated Good. *)
Definition runAdded : App :=
  addCurrentWordToLeitner firstStart 1727950000000 emptyApp (Some "run") (Some documentDoc1).

Definition runOpened : App :=
  openLeitnerModal reverse 0 1728036000000 runAdded None (Some documentDoc1).

Definition runRated : option App := rateCard 0 1728036000000 runOpened 3.

(** ** Further functions of the application *)

(** A string property inside a template literal: a missing property prints
    as "undefined". *)
Definition tmpl (o : option string) : string :=
  match o with
  | Some s => s
  | None => "undefined"
  end.

(** [getLeitnerCardsByScope]: the stored cards of the scope, followed by the
    global cards when these are asked for and the scope is not the global
    one. *)
Definition getLeitnerCardsByScope (store : gmap string Card) (scope : option Scope)
    (includeGlobal : bool) : list Card :=
  let scopeKey0 := getScopeKey scope in
  let allCards := getAll store in
  let filtered := filter (fun card => scopeKey card = Some scopeKey0) allCards in
  if (includeGlobal && negb (String.eqb scopeKey0 "global:all"))%bool then
    let globalCards := filter (fun card => scopeKey card = Some "global:all") allCards in
    filtered ++ globalCards
  else filtered.

(** The key under which [preloadLeitnerForScope] caches the state of a
    card. *)
Definition wordKey (card : Card) : string :=
  tmpl (scopeKey card) +:+ ":" +:+ tmpl (word card).

(** The first loop of [preloadLeitnerForScope] over the cards of the scope,
    starting from the cleared cache. *)
Definition preloadScopeCards (now : Z) (cards : list Card) : gmap string DueInfo :=
  foldl (fun cache card => <[wordKey card := evaluateCardDueState (Some card) now]> cache)
        ∅ cards.

(** The second loop of [preloadLeitnerForScope], over the global cards. *)
Definition preloadGlobalCards (now : Z) (globalCards : list Card)
    (cache : gmap string DueInfo) : gmap string DueInfo :=
  foldl (fun cache card =>
           let wordKey0 := "global:all:" +:+ tmpl (word card) in
           match cache !! wordKey0 with
           | Some _ => cache
           | None => <[wordKey0 := evaluateCardDueState (Some card) now]> cache
           end)
        cache globalCards.

(** [preloadLeitnerForScope]: the due-state cache [leitnerDueCache] that it
    leaves; the clock is read once. *)
Definition preloadLeitnerForScope (now : Z) (store : gmap string Card) (scope : Scope) :
    gmap string DueInfo :=
  let cards := getLeitnerCardsByScope store (Some scope) true in
  let cache := preloadScopeCards now cards in
  if negb (bool_decide (type scope = Some "global")) then
    let globalCards := filter (fun card => scopeKey card = Some "global:all") cards in
    preloadGlobalCards now globalCards cache
  else cache.

(** The answer of the classifier and of the cache for no card. *)
Definition noDueInfo : DueInfo :=
  {| state := StNone; infoDueDate := NoDate; infoCard := None |}.

(** [getWordLeitnerState], reading the cache [cache]. *)
Definition getWordLeitnerState (cache : gmap string DueInfo) (app : App)
    (word0 : option string) (scope : option Scope) : DueInfo :=
  let normalizedWord := normalizeWord word0 in
  if String.eqb normalizedWord "" then noDueInfo
  else
    let scopeToUse := targetScopeFor app scope in
    let primaryKey := getScopeKey scopeToUse +:+ ":" +:+ normalizedWord in
    let globalKey := "global:all:" +:+ normalizedWord in
    match cache !! primaryKey with
    | Some info => info
    | None =>
        match cache !! globalKey with
        | Some info => info
        | None => noDueInfo
        end
    end.

(** [closeLeitnerModal] *)
Definition closeLeitnerModal (app : App) : App :=
  {| db := db app;
     currentChatId := currentChatId app;
     currentDocumentId := currentDocumentId app;
     activeSidebarSection := activeSidebarSection app;
     currentLeitnerScope := currentLeitnerScope app;
     leitnerQueue := [];
     currentCard := None;
     leitnerStatsNew := leitnerStatsNew app;
     leitnerStatsDue := leitnerStatsDue app;
     leitnerFinishedScreen := leitnerFinishedScreen app;
     toasts := toasts app |}.

(** [startQuickReview]: a session of the single card [card]. *)
Definition startQuickReview (app : App) (card : Card) : App :=
  showNextCard
    {| db := db app;
       currentChatId := currentChatId app;
       currentDocumentId := currentDocumentId app;
       activeSidebarSection := activeSidebarSection app;
       currentLeitnerScope := Some {| type := scopeType card; sid := scopeId card |};
       leitnerQueue := [card];
       currentCard := currentCard app;
       leitnerStatsNew := 0;
       leitnerStatsDue := 1;
       leitnerFinishedScreen := false;
       toasts := toasts app |}.

(** [a / b] on numeric card fields. *)
Definition js_div (a b : jsval) : jsval := JNum (Num.div (ToNumber a) (ToNumber b)).

(** The texts of [formatInterval]; a text that prints a number carries the
    number. *)
Inductive IntervalText :=
| TxtUnderOneDay
| TxtOneDay
| TxtDays (days : jsval)
| TxtOneMonth
| TxtMonths (months : jsval)
| TxtOneYear
| TxtYears (years : jsval).

Definition formatInterval (days : jsval) : IntervalText :=
  if (negb (ToBoolean days) || js_lt days (num 1))%bool then TxtUnderOneDay
  else if js_seq days (num 1) then TxtOneDay
  else if js_lt days (num 30) then TxtDays days
  else
    let months := Math_round (js_div days (num 30)) in
    if js_seq months (num 1) then TxtOneMonth
    else if js_lt months (num 12) then TxtMonths months
    else
      let years := Math_round (js_div months (num 12)) in
      if js_seq years (num 1) then TxtOneYear else TxtYears years.

(** The four interval texts that [updateRatingButtons] writes on the buttons
    Again, Hard, Good and Easy; [None] when there is no current card. *)
Definition updateRatingButtons (app : App) :
    option (IntervalText * IntervalText * IntervalText * IntervalText) :=
  match currentCard app with
  | None => None
  | Some card =>
      let againResult := calculateSM2 card (num 0) in
      let hardResult := calculateSM2 card (num 2) in
      let goodResult := calculateSM2 card (num 3) in
      let easyResult := calculateSM2 card (num 5) in
      Some (formatInterval (newInterval againResult),
            formatInterval (newInterval hardResult),
            formatInterval (newInterval goodResult),
            formatInterval (newInterval easyResult))
  end.

(** ** Import of a backup *)

(** The record [migratedCard] that [importAppData] builds from a card of the
    backup that has no scope key. *)
Definition migratedCard (now : Z) (card : Card) : Card :=
  let scopeType0 := if truthy (chatId card) then "chat" else "global" in
  let scopeId0 := str_or (chatId card) "all" in
  let scopeKey0 := scopeType0 +:+ ":" +:+ scopeId0 in
  let id0 := scopeKey0 +:+ ":" +:+ str_or (word card) "" in
  {| id := Some id0;
     word := word card;
     chatId := chatId card;
     scopeType := Some scopeType0;
     scopeId := Some scopeId0;
     scopeKey := Some scopeKey0;
     createdAt := match createdAt card with Some t => Some t | None => Some now end;
     dueDate := dueDate card;
     repetitions := repetitions card;
     interval := interval card;
     easeFactor := easeFactor card;
     lastReviewed := lastReviewed card;
     status := status card;
     migratedFromLegacy := migratedFromLegacy card |}.

(** One turn of the loop of [importAppData] over the cards of the backup: a
    card without word is passed over, and so is one that the store
    refuses. *)
Definition importCard (now : Z) (card : Card) (store : gmap string Card) :
    gmap string Card :=
  if negb (truthy (word card)) then store
  else
    match dbSet store (if negb (truthy (scopeKey card)) then migratedCard now card else card) with
    | Some store' => store'
    | None => store
    end.

Fixpoint importCards (clock : nat -> Z) (leitnerData : list Card)
    (store : gmap string Card) : gmap string Card :=
  match leitnerData with
  | [] => store
  | card :: rest =>
      importCards (fun i => clock (S i)) rest (importCard (clock 0%nat) card store)
  end.

(** The card part of [importAppData]: the store is cleared and filled from
    [leitner_cards_v2] of the backup or, when that is absent, from
    [leitner_cards]. *)
Definition importLeitnerCards (clock : nat -> Z)
    (leitner_cards_v2 leitner_cards : option (list Card))
    (store : gmap string Card) : gmap string Card :=
  let cleared : gmap string Card := ∅ in
  let leitnerData :=
    match leitner_cards_v2 with
    | Some l => l
    | None => match leitner_cards with Some l => l | None => [] end
    end in
  importCards clock leitnerData cleared.

(** A numeric field after [JSON.stringify] and [JSON.parse]: NaN and the
    infinities are written as [null], and the negative zero as 0. *)
Definition jsonValue (v : jsval) : jsval :=
  match v with
  | JNum S754_nan | JNum (S754_infinity _) => JNull
  | JNum (S754_zero _) => JNum (S754_zero false)
  | v => v
  end.

(** A card after [JSON.stringify] and [JSON.parse]. *)
Definition jsonCard (card : Card) : Card :=
  withFields card (jsonValue (repetitions card)) (jsonValue (interval card))
    (jsonValue (easeFactor card)).

(** The cards that [exportAppData] writes into the backup, as
    [importAppData] reads them back. *)
Definition exportedCards (store : gmap string Card) : list Card :=
  jsonCard <$> getAll store.

(** ** Auxiliary definitions for the further statements *)

(** The [id] of the card is made of its scope key and its word, neither of
    them empty. *)
Definition cardKeyed (c : Card) : Prop :=
  exists sk w, scopeKey c = Some sk /\ word c = Some w /\
               sk <> "" /\ w <> "" /\ id c = Some (sk +:+ ":" +:+ w).

(** Every record of the store is kept under its own [id], made of its scope
    key and its word. *)
Definition wellKeyed (store : gmap string Card) : Prop :=
  forall k c, store !! k = Some c -> id c = Some k /\ cardKeyed c.

(** The cards that a session holds, its current card and its queue, have
    ids made of their scope key and word, and so has every stored card. *)
Definition sessionKeyed (app : App) : Prop :=
  wellKeyed (db app) /\
  (forall c, currentCard app = Some c -> cardKeyed c) /\
  Forall cardKeyed (leitnerQueue app).

(** The date test of the review queue: the due date, cut down to its local
    day, is not after the day of [now]. *)
Definition dueByDay (tz now : Z) (card : Card) : bool :=
  match newDate (dueDate card) with
  | Some d => setHours0 tz d <=? setHours0 tz now
  | None => false
  end.

(** The number +0. *)
Definition plusZero : number := S754_zero false.

(** [card] without the mark [migratedFromLegacy]. *)
Definition unmarked (card : Card) : Card :=
  {| id := id card; word := word card; chatId := chatId card;
     scopeType := scopeType card; scopeId := scopeId card;
     scopeKey := scopeKey card; createdAt := createdAt card;
     dueDate := dueDate card;
     repetitions := repetitions card; interval := interval card;
     easeFactor := easeFactor card;
     lastReviewed := lastReviewed card; status := status card;
     migratedFromLegacy := false |}.

(** A session of two cards: the review opened for chat A over the store that
    holds "apple" for chat A and "run" for the global scope. *)
Definition twoCardSession : App :=
  openLeitnerModal reverse 0 1728036000000 appleAndRun (Some "A") None.

(** The number of bytes of the white-space character that [s] starts with;
    0 when [s] does not start with white space. *)
Definition spaceLen (s : string) : nat :=
  match s with
  | EmptyString => 0
  | String a s1 =>
      if is_space a then 1
      else
        match s1 with
        | EmptyString => 0
        | String b s2 =>
            if is_space2 a b then 2
            else
              match s2 with
              | EmptyString => 0
              | String c s3 => if is_space3 a b c then 3 else 0
              end
        end
  end.

(** [s] without its first [n] bytes. *)
Fixpoint skip (n : nat) (s : string) : string :=
  match n, s with
  | S n', String _ s' => skip n' s'
  | _, _ => s
  end.

(** The string holds an upper-case letter, one of A to Z or of U+00C0 to
    U+00DE. *)
Fixpoint upperFrom (afterC3 : bool) (s : string) : bool :=
  match s with
  | EmptyString => false
  | String a s' => (is_upper afterC3 a || upperFrom (byteIs 195 a) s')%bool
  end.

Definition hasUpper (s : string) : bool := upperFrom false s.

(** The text "ÉCOLE" between a no-break space and a space. *)
Definition paddedECOLE : string :=
  String (ascii_of_nat 194) (String (ascii_of_nat 160) "ÉCOLE ").

(** The string holds no colon. *)
Fixpoint colonFree (s : string) : bool :=
  match s with
  | EmptyString => true
  | String a s' => (negb (Ascii.eqb a ":"%char) && colonFree s')%bool
  end.

(** A number that is not below zero (and not NaN). *)
Definition nonNegative (v : jsval) : bool :=
  match v with
  | JNum x => Num.leb (Num.ofZ 0) x
  | _ => false
  end.

(** The ratings of a session, one after the other, each at its own time;
    [None] as soon as one of them is rejected. *)
Fixpoint rateAll (tz : Z) (app : App) (ratings : list (Z * Z)) : option App :=
  match ratings with
  | [] => Some app
  | (now, rating) :: rest =>
      match rateCard tz now app rating with
      | Some app' => rateAll tz app' rest
      | None => None
      end
  end.

(** The text of [formatInterval] for a whole number of days, in integer
    arithmetic. *)
Definition intervalTextZ (d : Z) : IntervalText :=
  if d <? 1 then TxtUnderOneDay
  else if d =? 1 then TxtOneDay
  else if d <? 30 then TxtDays (num d)
  else
    let months := (2 * d + 30) / 60 in
    if months =? 1 then TxtOneMonth
    else if months <? 12 then TxtMonths (num months)
    else
      let years := (2 * months + 12) / 24 in
      if years =? 1 then TxtOneYear else TxtYears (num years).

(** The stored cards that an import keeps as they are: they have a word, a
    scope key and an id. *)
Definition kept (l : list Card) : Prop :=
  forall c, c ∈ l ->
    truthy (word c) = true /\ truthy (scopeKey c) = true /\ is_Some (id c).

(** The document session after its card was rated Good, reopened two days
    later, and the card it then shows. *)
Definition runRatedApp : App := default emptyApp runRated.

Definition runReopened : App :=
  openLeitnerModal reverse 0 1728300000000 runRatedApp None (Some documentDoc1).

Definition runReviewed : Card := default (runCard 0) (currentCard runReopened).

(** ** The scheduler: table, failure rule, defaults *)

(** C1. The table tests of the scheduler: a new card rated Easy (quality 5)
    gets repetitions 2 and interval 4, and the record that the rating stores
    has status "review"; a new card rated Good (quality 3) gets repetitions 1
    and interval 1; the card (2, 6, 2.5) rated Again (quality 0) gets
    repetitions 0, interval 1 and ease factor 2.3. *)
Theorem C1_sm2_table :
  let fresh := sm2Card (num 0) (num 0) lit_2_5 in
  let easy := calculateSM2 fresh (num 5) in
  let good := calculateSM2 fresh (num 3) in
  let again := calculateSM2 (sm2Card (num 2) (num 6) lit_2_5) (num 0) in
  (newRepetitions easy = num 2 /\ newInterval easy = num 4 /\
   qualityMap 4 = num 5 /\
   forall due now, status (updatedCard fresh easy due now) = Some "review") /\
  (newRepetitions good = num 1 /\ newInterval good = num 1) /\
  again = {| newRepetitions := num 0; newInterval := num 1;
             newEaseFactor := JNum (Num.dec 23 10) |}.
Proof.
  cbv zeta. repeat split; try (vm_compute; reflexivity).
Qed.

(** C2. Rating Hard (quality 2) is never a success: the test [quality < 3]
    sends it to the failure rule, so the card with repetitions 1 and interval
    1 gets repetitions 0 and interval 1, where the rule for Hard on a
    graduated card gives repetitions 2 and interval max(2, round(1 * 1.2)) = 2;
    the mature card (3, 10, 2.5) gets repetitions 0 and interval 1 where that
    rule gives repetitions 4 and interval max(round(12), 11) = 12. *)
Theorem C2_hard_is_a_lapse :
  (forall card, newRepetitions (calculateSM2 card (num 2)) = num 0) /\
  calculateSM2 (sm2Card (num 1) (num 1) lit_2_5) (num 2) =
    {| newRepetitions := num 0; newInterval := num 1;
       newEaseFactor := JNum (Num.dec 23 10) |} /\
  Math_max (num 2) (Math_round (js_mul (num 1) lit_1_2)) = num 2 /\
  calculateSM2 (sm2Card (num 3) (num 10) lit_2_5) (num 2) =
    {| newRepetitions := num 0; newInterval := num 1;
       newEaseFactor := JNum (Num.dec 23 10) |} /\
  Math_max (Math_round (js_mul (num 10) lit_1_2)) (js_add (num 10) (num 1)) = num 12 /\
  js_add (num 3) (num 1) = num 4 /\
  num 0 <> num 2 /\ num 1 <> num 2 /\ num 0 <> num 4 /\ num 1 <> num 12.
Proof.
  split; [ intros card; reflexivity | ].
  repeat split; try (vm_compute; reflexivity); vm_compute; discriminate.
Qed.

(** C3. The failure rule: for every card and every quality below 3 the
    scheduler returns repetitions 0, interval 0 when the prior repetitions
    are 0 and interval 1 otherwise, and ease factor
    max(1.3, easeFactor - 0.2). The prior values are the card's own whenever
    these are truthy, and a falsy repetition count is read as 0. *)
Theorem C3_failure_rule (card : Card) (quality : jsval) :
  js_lt quality (num 3) = true ->
  calculateSM2 card quality =
    {| newRepetitions := num 0;
       newInterval := if js_seq (priorRepetitions card) (num 0) then num 0 else num 1;
       newEaseFactor := Math_max lit_1_3 (js_sub (priorEaseFactor card) lit_0_2) |}
  /\ (ToBoolean (repetitions card) = true -> priorRepetitions card = repetitions card)
  /\ (ToBoolean (repetitions card) = false -> priorRepetitions card = num 0)
  /\ (ToBoolean (easeFactor card) = true -> priorEaseFactor card = easeFactor card).
Proof.
  intros Hq. split; [ unfold calculateSM2; rewrite Hq; reflexivity | ].
  unfold priorRepetitions, priorEaseFactor, js_or.
  repeat split; intros H; rewrite H; reflexivity.
Qed.

Lemma C3_failure_rule_witness :
  js_lt (num 0) (num 3) = true /\
  calculateSM2 (sm2Card (num 2) (num 6) lit_2_5) (num 0) =
    {| newRepetitions := num 0; newInterval := num 1;
       newEaseFactor := Math_max lit_1_3 (js_sub lit_2_5 lit_0_2) |}.
Proof.
  split; [ reflexivity | ].
  destruct (C3_failure_rule (sm2Card (num 2) (num 6) lit_2_5) (num 0)) as [H _];
    [ reflexivity | exact H ].
Defined.

Lemma js_or_falsy v d : ToBoolean v = false -> js_or v d = d.
Proof. unfold js_or. intros ->. reflexivity. Qed.

Lemma js_or_truthy v d : ToBoolean v = true -> js_or v d = v.
Proof. unfold js_or. intros ->. reflexivity. Qed.

Lemma truthy_not_zero v : ToBoolean v = true -> js_seq v (num 0) = false.
Proof.
  destruct v as [| |x]; [ discriminate | discriminate | ].
  destruct x as [s|s| |s m e]; try discriminate; intros _; destruct s; reflexivity.
Qed.

(** C10. The defaults of the scheduler. A missing or falsy ease factor is
    read as 2.5: a record whose ease factor is 0, null or undefined is
    scheduled as the same record with ease factor 2.5, and Again lowers it
    from 2.5. A missing or falsy repetition count is read as 0: the record
    is scheduled as a new card, to repetitions 0 and interval 0 by Again, 1
    and 1 by Good, 2 and 4 by Easy. A missing or falsy interval is read as
    0: for a card with repetitions, Easy multiplies 0 by the new ease factor
    and 1.3. For every record and every quality the scheduler returns a
    result, whose three fields are numbers. *)
Theorem C10_defaults_total (card : Card) (quality : jsval) :
  (ToBoolean (easeFactor card) = false ->
   calculateSM2 card quality =
     calculateSM2 (withFields card (repetitions card) (interval card) lit_2_5) quality /\
   newEaseFactor (calculateSM2 card (num 0)) = Math_max lit_1_3 (js_sub lit_2_5 lit_0_2))
  /\ (In (easeFactor card) [num 0; JNull; JUndefined] ->
      calculateSM2 card quality =
        calculateSM2 (withFields card (repetitions card) (interval card) lit_2_5) quality)
  /\ (ToBoolean (repetitions card) = false ->
      calculateSM2 card quality =
        calculateSM2 (withFields card (num 0) (interval card) (easeFactor card)) quality /\
      newRepetitions (calculateSM2 card (num 0)) = num 0 /\
      newInterval (calculateSM2 card (num 0)) = num 0 /\
      newRepetitions (calculateSM2 card (num 3)) = num 1 /\
      newInterval (calculateSM2 card (num 3)) = num 1 /\
      newRepetitions (calculateSM2 card (num 5)) = num 2 /\
      newInterval (calculateSM2 card (num 5)) = num 4)
  /\ (ToBoolean (interval card) = false ->
      calculateSM2 card quality =
        calculateSM2 (withFields card (repetitions card) (num 0) (easeFactor card)) quality /\
      (ToBoolean (repetitions card) = true ->
       newInterval (calculateSM2 card (num 5)) =
         Math_round
           (js_mul (js_mul (num 0) (newEaseFactor (calculateSM2 card (num 5)))) lit_1_3)))
  /\ (exists r i e,
        calculateSM2 card quality =
          {| newRepetitions := JNum r; newInterval := JNum i; newEaseFactor := JNum e |}).
Proof.
  assert (Hease : ToBoolean (easeFactor card) = false ->
                  calculateSM2 card quality =
                    calculateSM2 (withFields card (repetitions card) (interval card) lit_2_5)
                      quality).
  { intros He. unfold calculateSM2, withFields. cbn [repetitions interval easeFactor].
    rewrite (js_or_falsy _ _ He). reflexivity. }
  split; [ | split; [ | split; [ | split ] ] ].
  - intros He. split; [ apply Hease, He | ].
    unfold calculateSM2. rewrite (js_or_falsy _ _ He). reflexivity.
  - intros Hin. apply Hease. destruct Hin as [<- | [<- | [<- | []]]]; reflexivity.
  - intros Hr. split.
    + unfold calculateSM2, withFields. cbn [repetitions interval easeFactor].
      rewrite (js_or_falsy _ _ Hr). reflexivity.
    + unfold calculateSM2. rewrite (js_or_falsy _ _ Hr). repeat split.
  - intros Hi. split.
    + unfold calculateSM2, withFields. cbn [repetitions interval easeFactor].
      rewrite (js_or_falsy _ _ Hi). reflexivity.
    + intros Hr. unfold calculateSM2.
      rewrite (js_or_falsy _ _ Hi), (js_or_truthy _ _ Hr), (truthy_not_zero _ Hr).
      change (js_lt (num 5) (num 3)) with false.
      change (js_seq (num 5) (num 5)) with true. cbv beta iota.
      destruct (js_seq (repetitions card) (num 1)); reflexivity.
  - unfold calculateSM2.
    assert (Hn : exists r, js_or (repetitions card) (num 0) = JNum r).
    { unfold js_or. destruct (repetitions card); simpl; eauto. destruct x; simpl; eauto. }
    destruct Hn as [r0 ->].
    destruct (js_lt quality (num 3)).
    + destruct (js_seq (JNum r0) (num 0)); unfold num, Math_max; eauto.
    + unfold num, Math_max, Math_round, js_add.
      repeat match goal with
             | |- context [if ?b then _ else _] => destruct b
             end; eauto.
Qed.

Lemma C10_defaults_total_witness :
  ToBoolean (easeFactor (sm2Card (num 3) JUndefined JNull)) = false /\
  ToBoolean (interval (sm2Card (num 3) JUndefined JNull)) = false /\
  ToBoolean (repetitions (sm2Card (num 3) JUndefined JNull)) = true /\
  ToBoolean (repetitions (sm2Card JNull (num 7) lit_2_5)) = false /\
  calculateSM2 (sm2Card (num 3) JUndefined JNull) (num 5) =
    calculateSM2 (sm2Card (num 3) JUndefined lit_2_5) (num 5) /\
  newInterval (calculateSM2 (sm2Card (num 3) JUndefined JNull) (num 5)) = num 0 /\
  newRepetitions (calculateSM2 (sm2Card JNull (num 7) lit_2_5) (num 3)) = num 1 /\
  newInterval (calculateSM2 (sm2Card JNull (num 7) lit_2_5) (num 3)) = num 1.
Proof.
  destruct (C10_defaults_total (sm2Card (num 3) JUndefined JNull) (num 5))
    as (Hease & _ & _ & Hivl & _).
  destruct (C10_defaults_total (sm2Card JNull (num 7) lit_2_5) (num 3))
    as (_ & _ & Hreps & _).
  destruct (Hease eq_refl) as [Heq _].
  destruct (Hivl eq_refl) as [_ Hzero].
  destruct (Hreps eq_refl) as (_ & _ & _ & Hr3 & Hi3 & _).
  do 4 (split; [ reflexivity | ]).
  split; [ exact Heq | ].
  split; [ rewrite (Hzero eq_refl); vm_compute; reflexivity | ].
  split; [ exact Hr3 | exact Hi3 ].
Defined.

(** ** The ease-factor floor *)

(** Rounding a non-negative mantissa never yields NaN. *)
Section NotNaN.
Variables prec emax : Z.

Lemma shr_1_nonneg mrs : 0 <= shr_m mrs -> 0 <= shr_m (shr_1 mrs).
Proof.
  destruct mrs as [m r s]; simpl. intros Hm.
  destruct m as [|p|p]; [simpl; lia | destruct p; simpl; lia | lia].
Qed.

Lemma iter_shr_1_nonneg p :
  forall mrs, 0 <= shr_m mrs -> 0 <= shr_m (SpecFloat.iter_pos shr_1 p mrs).
Proof.
  induction p as [p IH|p IH|]; simpl; intros mrs Hm.
  - apply IH, IH, shr_1_nonneg, Hm.
  - apply IH, IH, Hm.
  - apply shr_1_nonneg, Hm.
Qed.

Lemma shr_record_of_loc_m m l : shr_m (shr_record_of_loc m l) = m.
Proof. destruct l as [|[]]; reflexivity. Qed.

Lemma shr_fexp_nonneg m e l :
  0 <= m -> 0 <= shr_m (fst (shr_fexp prec emax m e l)).
Proof.
  intros Hm. unfold shr_fexp, shr.
  destruct (fexp prec emax (Zdigits2 m + e) - e) as [|p|p]; simpl;
    try (rewrite shr_record_of_loc_m; exact Hm).
  apply iter_shr_1_nonneg. rewrite shr_record_of_loc_m. exact Hm.
Qed.

Lemma round_nearest_even_nonneg m l : 0 <= m -> 0 <= round_nearest_even m l.
Proof.
  intros Hm. destruct l as [|[]]; simpl; try destruct (Z.even m); lia.
Qed.

Lemma binary_round_aux_not_nan sx mx ex lx :
  0 <= mx -> binary_round_aux prec emax sx mx ex lx <> S754_nan.
Proof.
  intros Hm. unfold binary_round_aux.
  pose proof (shr_fexp_nonneg mx ex lx Hm) as H1.
  destruct (shr_fexp prec emax mx ex lx) as [mrs' e']. simpl in H1.
  pose proof (shr_fexp_nonneg _ e' loc_Exact
                (round_nearest_even_nonneg _ (loc_of_shr_record mrs') H1)) as H2.
  destruct (shr_fexp prec emax _ e' loc_Exact) as [mrs'' e'']. simpl in H2.
  destruct (shr_m mrs'') as [|p|p]; [discriminate | | lia].
  destruct (e'' <=? emax - prec); discriminate.
Qed.

Lemma binary_normalize_not_nan m e sz :
  binary_normalize prec emax m e sz <> S754_nan.
Proof.
  destruct m as [|p|p]; simpl; [discriminate | |];
    unfold binary_round;
    destruct (shl_align p e _) as [mz ez];
    apply binary_round_aux_not_nan; lia.
Qed.

Lemma SFadd_finite_not_nan x s m e :
  x <> S754_nan -> SFadd prec emax x (S754_finite s m e) <> S754_nan.
Proof.
  intros Hx. destruct x as [sx|sx| |sx mx ex]; simpl; try discriminate; try congruence.
  apply binary_normalize_not_nan.
Qed.

Lemma SFsub_finite_not_nan x s m e :
  x <> S754_nan -> SFsub prec emax x (S754_finite s m e) <> S754_nan.
Proof.
  intros Hx. destruct x as [sx|sx| |sx mx ex]; simpl; try discriminate; try congruence.
  apply binary_normalize_not_nan.
Qed.
End NotNaN.

Lemma max_floor s m e x :
  x <> S754_nan ->
  Num.leb (S754_finite s m e) (S754_finite s m e) = true ->
  Num.leb (S754_finite s m e) (Num.max (S754_finite s m e) x) = true.
Proof.
  intros Hx Hrefl. unfold Num.max.
  destruct (SFcompare (S754_finite s m e) x) as [[]|] eqn:E.
  - exact Hrefl.
  - unfold Num.leb, SFleb. rewrite E. reflexivity.
  - exact Hrefl.
  - destruct x; simpl in E; try discriminate; congruence.
Qed.

Lemma above_floor_number v :
  aboveFloor v = true ->
  exists x, v = JNum x /\ x <> S754_nan /\ ToBoolean v = true.
Proof.
  destruct v as [| |x]; try discriminate. intros H. exists x.
  destruct x; try discriminate; repeat split; discriminate.
Qed.

Lemma above_floor_max x :
  x <> S754_nan -> aboveFloor (Math_max lit_1_3 (JNum x)) = true.
Proof.
  intros Hx. unfold aboveFloor, Math_max.
  change (ToNumber (JNum x)) with x.
  assert (Hc : exists m e, ToNumber lit_1_3 = S754_finite false m e)
    by (vm_compute; eauto).
  destruct Hc as (m & e & ->). apply max_floor; [ exact Hx | ].
  unfold Num.leb, SFleb. simpl.
  rewrite Z.compare_refl, Pos.compare_cont_refl. reflexivity.
Qed.

(** The ease factor that a rating of quality [q] leaves, for a prior ease
    factor that is a number. *)
Lemma new_ease_above_floor card q x :
  easeFactor card = JNum x -> x <> S754_nan -> ToBoolean (JNum x) = true ->
  isQuality q ->
  aboveFloor (newEaseFactor (calculateSM2 card q)) = true.
Proof.
  intros He Hx Ht Hq.
  assert (Hor : js_or (easeFactor card) lit_2_5 = JNum x)
    by (unfold js_or; rewrite He, Ht; reflexivity).
  assert (Hfail : forall q', js_lt q' (num 3) = true ->
            aboveFloor (newEaseFactor (calculateSM2 card q')) = true).
  { intros q' Hlt. unfold calculateSM2. rewrite Hlt, Hor. cbn [newEaseFactor].
    unfold js_sub. apply above_floor_max.
    change (ToNumber (JNum x)) with x.
    assert (Hc : exists s m e, ToNumber lit_0_2 = S754_finite s m e)
      by (vm_compute; eauto).
    destruct Hc as (s & m & e & ->). apply SFsub_finite_not_nan, Hx. }
  assert (Hpass : forall q' s m e, js_lt q' (num 3) = false ->
            ToNumber (js_sub lit_0_1
              (js_mul (js_sub (num 5) q')
                 (js_add lit_0_08 (js_mul (js_sub (num 5) q') lit_0_02))))
              = S754_finite s m e ->
            aboveFloor (newEaseFactor (calculateSM2 card q')) = true).
  { intros q' s m e Hlt Hk. unfold calculateSM2. rewrite Hlt, Hor.
    assert (Hgoal : aboveFloor
              (Math_max lit_1_3
                 (js_add (JNum x)
                    (js_sub lit_0_1
                       (js_mul (js_sub (num 5) q')
                          (js_add lit_0_08 (js_mul (js_sub (num 5) q') lit_0_02))))))
              = true).
    { unfold js_add at 1. rewrite Hk. apply above_floor_max.
      change (ToNumber (JNum x)) with x. apply SFadd_finite_not_nan, Hx. }
    repeat match goal with
           | |- context [if ?b then _ else _] => destruct b
           end; exact Hgoal. }
  destruct Hq as [-> | [-> | [-> | ->]]].
  - apply Hfail. reflexivity.
  - apply Hfail. reflexivity.
  - eapply Hpass; [ reflexivity | vm_compute; reflexivity ].
  - eapply Hpass; [ reflexivity | vm_compute; reflexivity ].
Qed.

(** C4. The ease-factor floor: from an ease factor of at least 1.3, every
    rating of quality 0, 2, 3 or 5 returns an ease factor of at least 1.3,
    and so does every sequence of such ratings. *)
Theorem C4_ease_floor :
  (forall card q,
      aboveFloor (easeFactor card) = true -> isQuality q ->
      aboveFloor (newEaseFactor (calculateSM2 card q)) = true) /\
  (forall ratings card,
      aboveFloor (easeFactor card) = true ->
      Forall (fun r => isQuality (fst (fst r))) ratings ->
      aboveFloor (easeFactor (rateSequence card ratings)) = true).
Proof.
  assert (Hstep : forall card q,
             aboveFloor (easeFactor card) = true -> isQuality q ->
             aboveFloor (newEaseFactor (calculateSM2 card q)) = true).
  { intros card q Hf Hq.
    destruct (above_floor_number _ Hf) as (x & He & Hx & Ht).
    rewrite He in Ht. eapply new_ease_above_floor; eauto. }
  split; [ exact Hstep | ].
  induction ratings as [|[[q due] now] rest IH]; intros card Hf Hall.
  - exact Hf.
  - inversion Hall as [|r l Hq Hrest]; subst. simpl in Hq |- *.
    apply IH; [ | exact Hrest ].
    unfold updatedCard. cbn [easeFactor]. apply Hstep; assumption.
Qed.

Lemma C4_ease_floor_witness :
  aboveFloor (easeFactor (sm2Card (num 2) (num 6) lit_1_3)) = true /\
  isQuality (num 0) /\
  aboveFloor (newEaseFactor (calculateSM2 (sm2Card (num 2) (num 6) lit_1_3) (num 0))) = true /\
  Forall (fun r : jsval * Z * Z => isQuality (fst (fst r)))
    [(num 0, 0, 0); (num 5, 0, 0); (num 2, 0, 0)] /\
  aboveFloor
    (easeFactor
       (rateSequence (sm2Card (num 2) (num 6) lit_1_3)
          [(num 0, 0, 0); (num 5, 0, 0); (num 2, 0, 0)])) = true.
Proof.
  destruct C4_ease_floor as [Hstep Hseq].
  assert (Hf : aboveFloor (easeFactor (sm2Card (num 2) (num 6) lit_1_3)) = true)
    by reflexivity.
  assert (Hq0 : isQuality (num 0)) by (left; reflexivity).
  assert (Hall : Forall (fun r : jsval * Z * Z => isQuality (fst (fst r)))
                   [(num 0, 0, 0); (num 5, 0, 0); (num 2, 0, 0)]).
  { constructor; [ left; reflexivity | ].
    constructor; [ do 3 right; reflexivity | ].
    constructor; [ right; left; reflexivity | constructor ]. }
  split; [ exact Hf | ]. split; [ exact Hq0 | ].
  split; [ apply Hstep; assumption | ].
  split; [ exact Hall | apply Hseq; assumption ].
Defined.

(** ** Local midnight *)

Lemma setHours0_mono tz t0 t1 : t0 <= t1 -> setHours0 tz t0 <= setHours0 tz t1.
Proof.
  intros Hle. unfold setHours0.
  assert (HD : 0 < msPerDay) by (unfold msPerDay; lia).
  pose proof (Z.div_mod (t0 + tz) msPerDay ltac:(lia)) as H0.
  pose proof (Z.div_mod (t1 + tz) msPerDay ltac:(lia)) as H1.
  pose proof (Z.div_le_mono (t0 + tz) (t1 + tz) msPerDay HD ltac:(lia)) as Hq.
  nia.
Qed.

Lemma setHours0_le tz t : setHours0 tz t <= t.
Proof.
  unfold setHours0.
  assert (HD : 0 < msPerDay) by (unfold msPerDay; lia).
  pose proof (Z.mod_pos_bound (t + tz) msPerDay HD). lia.
Qed.

(** ** The due-state classifier *)

(** C6, as the code has it. For every card and every time [now] the
    classifier returns one of the four states new, scheduled, due and
    overdue. The test whether the card is due compares the due date and
    [now] as instants, without truncation to the day: a card whose due date
    is after [now] is new when its repetitions are 0 and scheduled otherwise;
    a card whose due date is not after [now] is overdue when more than 24
    hours have passed since the due date and due otherwise. A card without
    due date is due, and one whose due date cannot be read is not due. The
    result is that of the day-granular test whenever the due date is a local
    midnight or is not after [now]. *)
Theorem C6_due_state (card : Card) (now : Z) :
  let st := state (evaluateCardDueState (Some card) now) in
  (st = StNew \/ st = StScheduled \/ st = StDue \/ st = StOverdue) /\
  (forall d, dueDate card = IsoDate d -> now < d ->
     st = if js_seq (repetitions card) (num 0) then StNew else StScheduled) /\
  (forall d, dueDate card = IsoDate d -> d <= now -> now - d > msPerDay ->
     st = StOverdue) /\
  (forall d, dueDate card = IsoDate d -> d <= now -> now - d <= msPerDay ->
     st = StDue) /\
  (dueDate card = NoDate -> st = StDue) /\
  (dueDate card = BadDate ->
     st = if js_seq (repetitions card) (num 0) then StNew else StScheduled) /\
  (forall tz d, dueDate card = IsoDate d -> setHours0 tz d = d \/ d <= now ->
     st = classifyByDay tz card now).
Proof.
  unfold evaluateCardDueState. cbn [state].
  destruct (dueDate card) as [| |t] eqn:Hd; cbn [newDate].
  - assert (Hle : (now <=? now) = true) by (apply Z.leb_le; lia).
    assert (Hgt : (now - now >? msPerDay) = false)
      by (rewrite Z.gtb_ltb; apply Z.ltb_ge; unfold msPerDay; lia).
    rewrite Hle, Hgt. cbn.
    repeat split; auto; try discriminate.
  - cbn. repeat split; try discriminate; auto.
    destruct (js_seq (repetitions card) (num 0)); auto.
  - repeat split.
    + destruct (t <=? now); cbn.
      * destruct (now - t >? msPerDay); auto.
      * destruct (js_seq (repetitions card) (num 0)); auto.
    + intros d [= <-] Hlt.
      assert (Hle : (t <=? now) = false) by (apply Z.leb_gt; lia).
      rewrite Hle. reflexivity.
    + intros d [= <-] Hle Hgt.
      apply Z.leb_le in Hle. rewrite Hle. cbn.
      assert (H : (now - t >? msPerDay) = true)
        by (rewrite Z.gtb_ltb; apply Z.ltb_lt; lia).
      rewrite H. reflexivity.
    + intros d [= <-] Hle Hgt.
      apply Z.leb_le in Hle. rewrite Hle. cbn.
      assert (H : (now - t >? msPerDay) = false)
        by (rewrite Z.gtb_ltb; apply Z.ltb_ge; lia).
      rewrite H. reflexivity.
    + discriminate.
    + discriminate.
    + intros tz d [= <-] Hor. unfold classifyByDay. rewrite Hd.
      assert (Hiff : (t <=? now) = (setHours0 tz t <=? setHours0 tz now)).
      { pose proof (setHours0_le tz now) as Hnow.
        pose proof (setHours0_le tz t) as Ht.
        destruct (Z.leb_spec t now) as [Hle|Hgt].
        - symmetry. apply Z.leb_le, setHours0_mono, Hle.
        - destruct Hor as [Hmid|Hle]; [ | lia ].
          symmetry. apply Z.leb_gt.
          destruct (Z.le_gt_cases (setHours0 tz t) (setHours0 tz now)) as [Hc|Hc];
            [ | lia ].
          rewrite Hmid in Hc. lia. }
      rewrite <- Hiff. destruct (t <=? now); reflexivity.
Qed.

Lemma C6_due_state_witness :
  dueDate dueLaterToday = IsoDate 1728043200000 /\
  1728036000000 < 1728043200000 /\
  state (evaluateCardDueState (Some dueLaterToday) 1728036000000) = StScheduled.
Proof.
  split; [ reflexivity | ]. split; [ lia | ].
  destruct (C6_due_state dueLaterToday 1728036000000) as (_ & H & _).
  apply (H 1728043200000); [ reflexivity | lia ].
Defined.

(** C6, as the specification words it, fails: at 10:00 a card due at 12:00
    of the same day is due by the day-granular test, while the classifier
    reports it as scheduled. *)
Lemma C6_day_granularity_counterexample :
  classifyByDay 0 dueLaterToday 1728036000000 = StDue /\
  state (evaluateCardDueState (Some dueLaterToday) 1728036000000) = StScheduled /\
  state (evaluateCardDueState (Some dueLaterToday) 1728036000000)
    <> classifyByDay 0 dueLaterToday 1728036000000.
Proof.
  split; [ vm_compute; reflexivity | ].
  split; [ vm_compute; reflexivity | vm_compute; discriminate ].
Qed.

(** ** Normalisation of words *)

Ltac bytes a := destruct a as [[] [] [] [] [] [] [] []].

Lemma byteIs_eq n a : byteIs n a = true -> a = ascii_of_nat n.
Proof.
  unfold byteIs. intros H. apply Nat.eqb_eq in H. rewrite <- H.
  symmetry. apply ascii_nat_embedding.
Qed.

Lemma is_space_lower c a : is_space (lower c a) = is_space a.
Proof. destruct c; bytes a; reflexivity. Qed.

Lemma lower_lower c a : lower c (lower c a) = lower c a.
Proof. destruct c; bytes a; reflexivity. Qed.

Lemma C3_lower c a : byteIs 195 (lower c a) = byteIs 195 a.
Proof. destruct c; bytes a; reflexivity. Qed.

Lemma space_not_C3 a : is_space a = true -> byteIs 195 a = false.
Proof. bytes a; intros H; try reflexivity; discriminate H. Qed.

Lemma space2_lower c a b :
  is_space2 (lower c a) (lower (byteIs 195 a) b) = is_space2 a b.
Proof. destruct c; bytes a; try reflexivity; bytes b; reflexivity. Qed.

Lemma space3_lower c a b d :
  is_space3 (lower c a) (lower (byteIs 195 a) b) (lower (byteIs 195 b) d) = is_space3 a b d.
Proof.
  destruct c; bytes a; try reflexivity; bytes b; try reflexivity; bytes d; reflexivity.
Qed.

Lemma space2_last a b : is_space2 a b = true -> byteIs 195 b = false.
Proof.
  unfold is_space2. intros H. apply andb_true_iff in H as [_ H].
  apply byteIs_eq in H. subst b. reflexivity.
Qed.

Lemma space3_last a b d : is_space3 a b d = true -> byteIs 195 d = false.
Proof.
  intros H. destruct (byteIs 195 d) eqn:E; [ | reflexivity ].
  apply byteIs_eq in E. subst d. unfold is_space3 in H.
  destruct (byteIs 225 a), (byteIs 226 a), (byteIs 227 a), (byteIs 239 a),
    (byteIs 154 b), (byteIs 128 b), (byteIs 129 b), (byteIs 187 b);
    vm_compute in H; discriminate H.
Qed.


Lemma spaceLen_lower c s : spaceLen (lowerFrom c s) = spaceLen s.
Proof.
  destruct s as [|a [|b [|d s]]]; cbn [lowerFrom spaceLen].
  - reflexivity.
  - rewrite is_space_lower. reflexivity.
  - rewrite is_space_lower, space2_lower. reflexivity.
  - rewrite is_space_lower, space2_lower, space3_lower. reflexivity.
Qed.

Lemma skip_lower c s :
  (0 < spaceLen s)%nat ->
  skip (spaceLen s) (lowerFrom c s) = lowerFrom false (skip (spaceLen s) s).
Proof.
  destruct s as [|a s1]; cbn [spaceLen]; [ lia | ].
  destruct (is_space a) eqn:Ha.
  { intros _. cbn [lowerFrom skip]. rewrite (space_not_C3 _ Ha).
    destruct s1; reflexivity. }
  destruct s1 as [|b s2]; [ lia | ].
  destruct (is_space2 a b) eqn:Hb.
  { intros _. cbn [lowerFrom skip]. rewrite (space2_last _ _ Hb).
    destruct s2; reflexivity. }
  destruct s2 as [|d s3]; [ lia | ].
  destruct (is_space3 a b d) eqn:Hd; [ | lia ].
  intros _. cbn [lowerFrom skip]. rewrite (space3_last _ _ _ Hd).
  destruct s3; reflexivity.
Qed.

Lemma trimStart_eq s :
  trimStart s = if Nat.eqb (spaceLen s) 0 then s else trimStart (skip (spaceLen s) s).
Proof.
  destruct s as [|a s1]; [ reflexivity | ]. cbn [trimStart spaceLen].
  destruct (is_space a); [ destruct s1; reflexivity | ].
  destruct s1 as [|b s2]; [ reflexivity | ].
  destruct (is_space2 a b); [ destruct s2; reflexivity | ].
  destruct s2 as [|d s3]; [ reflexivity | ].
  destruct (is_space3 a b d); [ destruct s3; reflexivity | reflexivity ].
Qed.

Lemma allSpace_eq s :
  allSpace s =
    match s with
    | EmptyString => true
    | _ => if Nat.eqb (spaceLen s) 0 then false else allSpace (skip (spaceLen s) s)
    end.
Proof.
  destruct s as [|a s1]; [ reflexivity | ]. cbn [allSpace spaceLen].
  destruct (is_space a); [ destruct s1; reflexivity | ].
  destruct s1 as [|b s2]; [ reflexivity | ].
  destruct (is_space2 a b); [ destruct s2; reflexivity | ].
  destruct s2 as [|d s3]; [ reflexivity | ].
  destruct (is_space3 a b d); [ destruct s3; reflexivity | reflexivity ].
Qed.

Lemma skip_length s :
  (0 < spaceLen s)%nat ->
  (String.length (skip (spaceLen s) s) < String.length s)%nat.
Proof.
  destruct s as [|a s1]; cbn [spaceLen]; [ lia | ].
  destruct (is_space a); [ intros _; destruct s1; simpl; lia | ].
  destruct s1 as [|b s2]; [ lia | ].
  destruct (is_space2 a b); [ intros _; destruct s2; simpl; lia | ].
  destruct s2 as [|d s3]; [ lia | ].
  destruct (is_space3 a b d); [ intros _; destruct s3; simpl; lia | lia ].
Qed.

Lemma spaceLen_app p w :
  (0 < spaceLen p)%nat ->
  spaceLen (p +:+ w) = spaceLen p /\
  skip (spaceLen p) (p +:+ w) = skip (spaceLen p) p +:+ w.
Proof.
  destruct p as [|a s1]; cbn [spaceLen]; [ lia | ].
  change (String a s1 +:+ w) with (String a (s1 +:+ w)). cbn [spaceLen].
  destruct (is_space a).
  { intros _. split; [ reflexivity | ]. destruct s1; destruct w; reflexivity. }
  destruct s1 as [|b s2]; [ lia | ].
  change (String b s2 +:+ w) with (String b (s2 +:+ w)). cbn [spaceLen].
  destruct (is_space2 a b).
  { intros _. split; [ reflexivity | ]. destruct s2; destruct w; reflexivity. }
  destruct s2 as [|d s3]; [ lia | ].
  change (String d s3 +:+ w) with (String d (s3 +:+ w)). cbn [spaceLen].
  destruct (is_space3 a b d); [ | lia ].
  intros _. split; [ reflexivity | ]. destruct s3; destruct w; reflexivity.
Qed.

Lemma string_length_ind (P : string -> Prop) :
  (forall s, (forall t, (String.length t < String.length s)%nat -> P t) -> P s) ->
  forall s, P s.
Proof.
  intros H s.
  assert (Hn : forall n t, (String.length t < n)%nat -> P t).
  { induction n as [|n IH]; intros t Ht; [ lia | ].
    apply H. intros u Hu. apply IH. lia. }
  apply (Hn (S (String.length s))). lia.
Qed.

Lemma trimStart_length s : (String.length (trimStart s) <= String.length s)%nat.
Proof.
  induction s as [s IH] using string_length_ind.
  rewrite trimStart_eq. destruct (Nat.eqb (spaceLen s) 0) eqn:E; [ lia | ].
  apply Nat.eqb_neq in E.
  assert (Hlt := skip_length s ltac:(lia)).
  specialize (IH _ Hlt). lia.
Qed.

Lemma trimStart_fixed s : trimStart s = s <-> spaceLen s = 0%nat \/ s = "".
Proof.
  split.
  - intros H. destruct (Nat.eqb (spaceLen s) 0) eqn:E; [ left; apply Nat.eqb_eq, E | ].
    apply Nat.eqb_neq in E. exfalso.
    rewrite trimStart_eq in H. apply Nat.eqb_neq in E. rewrite E in H.
    apply Nat.eqb_neq in E.
    assert (Hlt := skip_length s ltac:(lia)).
    assert (Hle := trimStart_length (skip (spaceLen s) s)).
    rewrite H in Hle. lia.
  - intros [H | ->]; [ | reflexivity ]. rewrite trimStart_eq, H. reflexivity.
Qed.

Lemma toLowerCase_idem_from c s : lowerFrom c (lowerFrom c s) = lowerFrom c s.
Proof.
  revert c. induction s as [|a s IH]; intros c; cbn [lowerFrom]; [ reflexivity | ].
  rewrite lower_lower, C3_lower, IH. reflexivity.
Qed.

Lemma toLowerCase_idem s : toLowerCase (toLowerCase s) = toLowerCase s.
Proof. apply toLowerCase_idem_from. Qed.

Lemma trimStart_lower s : trimStart (toLowerCase s) = toLowerCase (trimStart s).
Proof.
  unfold toLowerCase. induction s as [s IH] using string_length_ind.
  rewrite (trimStart_eq (lowerFrom false s)), (trimStart_eq s), spaceLen_lower.
  destruct (Nat.eqb (spaceLen s) 0) eqn:E; [ reflexivity | ].
  apply Nat.eqb_neq in E.
  rewrite skip_lower by lia. apply IH, skip_length. lia.
Qed.

Lemma allSpace_lower s : forall c, allSpace (lowerFrom c s) = allSpace s.
Proof.
  induction s as [s IH] using string_length_ind. intros c.
  rewrite (allSpace_eq (lowerFrom c s)), (allSpace_eq s), spaceLen_lower.
  destruct s as [|a s1]; [ reflexivity | ]. cbn [lowerFrom].
  destruct (Nat.eqb (spaceLen (String a s1)) 0) eqn:E; [ reflexivity | ].
  apply Nat.eqb_neq in E.
  change (String (lower c a) (lowerFrom (byteIs 195 a) s1))
    with (lowerFrom c (String a s1)).
  rewrite skip_lower by lia. apply IH, skip_length. lia.
Qed.

Lemma trimEnd_lower_from s : forall c, trimEnd (lowerFrom c s) = lowerFrom c (trimEnd s).
Proof.
  induction s as [|a s IH]; intros c; [ reflexivity | ].
  cbn [trimEnd lowerFrom].
  change (String (lower c a) (lowerFrom (byteIs 195 a) s))
    with (lowerFrom c (String a s)).
  rewrite allSpace_lower.
  destruct (allSpace (String a s)); [ reflexivity | ].
  cbn [lowerFrom]. rewrite IH. reflexivity.
Qed.

Lemma trimEnd_lower s : trimEnd (toLowerCase s) = toLowerCase (trimEnd s).
Proof. apply trimEnd_lower_from. Qed.

Lemma trimStart_idem s : trimStart (trimStart s) = trimStart s.
Proof.
  induction s as [s IH] using string_length_ind.
  rewrite (trimStart_eq s).
  destruct (Nat.eqb (spaceLen s) 0) eqn:E.
  - rewrite trimStart_eq, E. reflexivity.
  - apply Nat.eqb_neq in E. apply IH, skip_length. lia.
Qed.

Lemma trimEnd_split s : exists w, s = trimEnd s +:+ w /\ allSpace w = true.
Proof.
  induction s as [|a s IH]; [ exists ""; split; reflexivity | ].
  cbn [trimEnd]. destruct (allSpace (String a s)) eqn:E.
  - exists (String a s). split; [ reflexivity | exact E ].
  - destruct IH as (w & Hs & Hw). exists w. split; [ | exact Hw ].
    change (String a (trimEnd s) +:+ w) with (String a (trimEnd s +:+ w)).
    rewrite <- Hs. reflexivity.
Qed.

Lemma allSpace_app p : forall w, allSpace p = true -> allSpace (p +:+ w) = allSpace w.
Proof.
  induction p as [p IH] using string_length_ind. intros w Hp.
  destruct p as [|a p1]; [ reflexivity | ].
  rewrite allSpace_eq in Hp.
  destruct (Nat.eqb (spaceLen (String a p1)) 0) eqn:E; [ discriminate Hp | ].
  apply Nat.eqb_neq in E.
  destruct (spaceLen_app (String a p1) w ltac:(lia)) as [Hl Hs].
  rewrite allSpace_eq.
  change (String a p1 +:+ w) with (String a (p1 +:+ w)) in *.
  rewrite Hl. apply Nat.eqb_neq in E. rewrite E. apply Nat.eqb_neq in E.
  rewrite Hs. apply IH; [ apply skip_length; lia | exact Hp ].
Qed.

Lemma trimEnd_allSpace s : s <> "" -> allSpace s = false -> allSpace (trimEnd s) = false.
Proof.
  intros Hne Hs. destruct (allSpace (trimEnd s)) eqn:E; [ | reflexivity ].
  destruct (trimEnd_split s) as (w & Heq & Hw).
  rewrite Heq, (allSpace_app _ w E), Hw in Hs. discriminate Hs.
Qed.

Lemma trimEnd_idem s : trimEnd (trimEnd s) = trimEnd s.
Proof.
  induction s as [|a s IH]; [ reflexivity | ].
  cbn [trimEnd]. destruct (allSpace (String a s)) eqn:E; [ reflexivity | ].
  assert (H := trimEnd_allSpace (String a s) ltac:(discriminate) E).
  cbn [trimEnd] in H. rewrite E in H.
  cbn [trimEnd]. rewrite H, IH. reflexivity.
Qed.

Lemma trimStart_trimEnd s :
  trimStart s = s -> trimStart (trimEnd s) = trimEnd s.
Proof.
  intros H. apply trimStart_fixed in H as [H | ->]; [ | reflexivity ].
  apply trimStart_fixed.
  destruct (Nat.eqb (spaceLen (trimEnd s)) 0) eqn:E; [ left; apply Nat.eqb_eq, E | ].
  apply Nat.eqb_neq in E. exfalso.
  destruct (trimEnd_split s) as (w & Heq & _).
  destruct (spaceLen_app (trimEnd s) w ltac:(lia)) as [Hl _].
  rewrite <- Heq in Hl. lia.
Qed.

Lemma trim_idem s : trim (trim s) = trim s.
Proof.
  unfold trim. rewrite (trimStart_trimEnd (trimStart s)) by apply trimStart_idem.
  apply trimEnd_idem.
Qed.

Lemma normalizeWord_idem w :
  normalizeWord (Some (normalizeWord w)) = normalizeWord w.
Proof.
  unfold normalizeWord at 1.
  assert (Hor : str_or (Some (normalizeWord w)) "" = normalizeWord w).
  { unfold str_or. destruct (String.eqb (normalizeWord w) "") eqn:E; [ | reflexivity ].
    apply String.eqb_eq in E. congruence. }
  rewrite Hor. unfold normalizeWord, trim.
  rewrite trimStart_lower, trimEnd_lower, toLowerCase_idem.
  fold (trim (str_or w "")). fold (trim (trim (str_or w ""))).
  rewrite trim_idem. reflexivity.
Qed.

Lemma getLeitnerCardId_normalized w S :
  getLeitnerCardId (Some (normalizeWord w)) S = getLeitnerCardId w S.
Proof. unfold getLeitnerCardId. rewrite normalizeWord_idem. reflexivity. Qed.

(** ** Scope isolation of the review queue *)

Lemma truthy_str_or s d : truthy (Some s) = true -> str_or (Some s) d = s.
Proof.
  unfold truthy, str_or. destruct (String.eqb s ""); [ discriminate | reflexivity ].
Qed.

Lemma truthy_Some_inv o : truthy o = true -> exists s, o = Some s /\ s <> "".
Proof.
  destruct o as [s|]; [ | discriminate ]. intros H. exists s. split; [ reflexivity | ].
  unfold truthy in H. intros ->. discriminate.
Qed.

Lemma reviewFilter_inv tz today key incl c :
  reviewFilter tz today key incl c = true ->
  exists s d, scopeKey c = Some s /\ s <> "" /\
    (s = key \/ (incl = true /\ s = "global:all")) /\
    dueDate c = IsoDate d /\ setHours0 tz d <= today.
Proof.
  unfold reviewFilter. intros H.
  destruct (truthy (scopeKey c)) eqn:Ht; [ | discriminate ].
  destruct (truthy_Some_inv _ Ht) as (s & Hs & Hne).
  rewrite Hs in H, Ht. rewrite (truthy_str_or s "" Ht) in H. cbn [negb] in H.
  destruct (dueDate c) as [| |d]; cbn [newDate] in H;
    try (destruct (_ && _)%bool; discriminate).
  exists s, d. split; [ exact Hs | ]. split; [ exact Hne | ].
  destruct (String.eqb s key) eqn:Hk.
  - apply String.eqb_eq in Hk. cbn in H. split; [ left; exact Hk | ].
    split; [ reflexivity | apply Z.leb_le, H ].
  - cbn [negb andb] in H. destruct incl; cbn [negb orb] in H; [ | discriminate ].
    destruct (String.eqb s "global:all") eqn:Hg; cbn [negb] in H; [ | discriminate ].
    apply String.eqb_eq in Hg. split; [ right; split; [ reflexivity | exact Hg ] | ].
    split; [ reflexivity | apply Z.leb_le, H ].
Qed.

Lemma reviewFilter_global tz today key c d :
  scopeKey c = Some "global:all" -> dueDate c = IsoDate d ->
  setHours0 tz d <= today ->
  reviewFilter tz today key (negb (String.eqb key "global:all")) c = true.
Proof.
  intros Hs Hd Hle. unfold reviewFilter. rewrite Hs, Hd. cbn [truthy str_or newDate].
  change (String.eqb "global:all" "") with false. cbn [negb].
  rewrite (String.eqb_sym "global:all" key).
  replace (String.eqb "global:all" "global:all") with true by reflexivity.
  destruct (String.eqb key "global:all"); cbn; apply Z.leb_le, Hle.
Qed.

Lemma elem_of_reviewQueue shuffle tz now store S c :
  (forall l, shuffle l ≡ₚ l) ->
  c ∈ reviewQueue shuffle tz now store S <->
  reviewFilter tz (setHours0 tz now) (getScopeKey S)
    (negb (String.eqb (getScopeKey S) "global:all")) c = true /\
  c ∈ getAll store.
Proof.
  intros Hperm. unfold reviewQueue. cbv zeta. rewrite (Hperm _).
  rewrite list_elem_of_filter. reflexivity.
Qed.

Lemma getScopeKey_chat app A :
  A <> "" -> getScopeKey (Some (getChatScope app (Some A))) = "chat:" +:+ A.
Proof.
  intros HA. destruct A as [|a s]; [ congruence | reflexivity ].
Qed.

(** The playback without a button changes nothing but the toasts, and
    raises one toast at most. *)
Lemma playTextToSpeech_inv tts app played :
  playTextToSpeech tts app = Some played ->
  (played = app /\ spoken tts = Some []) \/
  (played = showToast app ToastTtsUnsupported /\ spoken tts = Some [ToastTtsUnsupported]).
Proof.
  unfold spoken, playTextToSpeech, playAudio, playWithBrowserTTS,
    playWithAvalaiTTS, playWithGeminiTTS.
  destruct (speechSynthesis tts); cbn [negb]; [ | discriminate ].
  destruct (speaking tts); [ intros [= <-]; left; split; reflexivity | ].
  destruct (audioCached tts);
    (destruct (_ && _)%bool; [ intros [= <-]; left; split; reflexivity | ];
     destruct (_ && _)%bool; [ intros [= <-]; left; split; reflexivity | ];
     destruct (speakingLater tts); intros [= <-];
       [ left; split; reflexivity | right; split; reflexivity ]).
Qed.

Lemma playTextToSpeech_rejected tts app :
  playTextToSpeech tts app = None -> spoken tts = None.
Proof.
  unfold spoken, playTextToSpeech, playAudio.
  destruct (speechSynthesis tts); cbn [negb]; [ | reflexivity ].
  destruct (speaking tts); [ discriminate | ].
  destruct (audioCached tts);
    (destruct (_ && _)%bool; [ discriminate | ];
     destruct (_ && _)%bool; discriminate).
Qed.

(** The store that adding a word leaves. *)
Lemma add_db tts now app word0 scope :
  db (addCurrentWordToLeitner tts now app word0 scope) =
    if String.eqb (normalizeWord word0) "" then db app
    else
      match targetScopeFor app scope with
      | None => db app
      | Some targetScope =>
          match db app !! getLeitnerCardId word0 (Some targetScope) with
          | Some _ => db app
          | None =>
              <[getLeitnerCardId word0 (Some targetScope)
                  := addedCard now word0 targetScope]> (db app)
          end
      end.
Proof.
  unfold addCurrentWordToLeitner.
  destruct (String.eqb (normalizeWord word0) ""); [ reflexivity | ].
  destruct (targetScopeFor app scope) as [ts|]; [ | reflexivity ].
  rewrite getLeitnerCardId_normalized. cbv zeta.
  destruct (db app !! getLeitnerCardId word0 (Some ts)) as [c|].
  - destruct (playTextToSpeech tts _) as [played|] eqn:Hp; [ | reflexivity ].
    apply playTextToSpeech_inv in Hp as [[-> _] | [-> _]]; reflexivity.
  - cbn [dbSet id].
    destruct (playTextToSpeech tts _) as [played|] eqn:Hp; [ | reflexivity ].
    apply playTextToSpeech_inv in Hp as [[-> _] | [-> _]]; reflexivity.
Qed.

(** The toasts that adding a word leaves, the latest first. *)
Lemma add_toasts tts now app word0 scope :
  toasts (addCurrentWordToLeitner tts now app word0 scope) =
    if String.eqb (normalizeWord word0) "" then ToastEmptyWord :: toasts app
    else
      match targetScopeFor app scope with
      | None => ToastSelectScope :: toasts app
      | Some targetScope =>
          match db app !! getLeitnerCardId word0 (Some targetScope) with
          | Some _ =>
              match spoken tts with
              | Some raised =>
                  raised ++ ToastAlreadyInDeck (normalizeWord word0) :: toasts app
              | None =>
                  ToastFailed :: ToastAlreadyInDeck (normalizeWord word0) :: toasts app
              end
          | None =>
              match spoken tts with
              | Some raised => ToastAdded (normalizeWord word0) :: raised ++ toasts app
              | None => ToastFailed :: toasts app
              end
          end
      end.
Proof.
  unfold addCurrentWordToLeitner.
  destruct (String.eqb (normalizeWord word0) ""); [ reflexivity | ].
  destruct (targetScopeFor app scope) as [ts|]; [ | reflexivity ].
  rewrite getLeitnerCardId_normalized. cbv zeta.
  destruct (db app !! getLeitnerCardId word0 (Some ts)) as [c|].
  - destruct (playTextToSpeech tts _) as [played|] eqn:Hp.
    + apply playTextToSpeech_inv in Hp as [[-> ->] | [-> ->]]; reflexivity.
    + rewrite (playTextToSpeech_rejected _ _ Hp). reflexivity.
  - cbn [dbSet id].
    destruct (playTextToSpeech tts _) as [played|] eqn:Hp.
    + apply playTextToSpeech_inv in Hp as [[-> ->] | [-> ->]]; reflexivity.
    + rewrite (playTextToSpeech_rejected _ _ Hp). reflexivity.
Qed.

(** Adding a word leaves the session and the open chat and document
    alone. *)
Lemma add_frame tts now app word0 scope :
  let app' := addCurrentWordToLeitner tts now app word0 scope in
  currentChatId app' = currentChatId app /\
  currentDocumentId app' = currentDocumentId app /\
  activeSidebarSection app' = activeSidebarSection app /\
  currentLeitnerScope app' = currentLeitnerScope app /\
  leitnerQueue app' = leitnerQueue app /\
  currentCard app' = currentCard app /\
  leitnerFinishedScreen app' = leitnerFinishedScreen app.
Proof.
  cbv zeta. unfold addCurrentWordToLeitner.
  destruct (String.eqb (normalizeWord word0) ""); [ repeat split | ].
  destruct (targetScopeFor app scope) as [ts|]; [ | repeat split ].
  cbv zeta.
  destruct (db app !! _) as [c|].
  - destruct (playTextToSpeech tts _) as [played|] eqn:Hp; [ | repeat split ].
    apply playTextToSpeech_inv in Hp as [[-> _] | [-> _]]; repeat split.
  - cbn [dbSet id].
    destruct (playTextToSpeech tts _) as [played|] eqn:Hp; [ | repeat split ].
    apply playTextToSpeech_inv in Hp as [[-> _] | [-> _]]; repeat split.
Qed.

Lemma add_targetScope tts now app word0 scope scope' :
  targetScopeFor (addCurrentWordToLeitner tts now app word0 scope) scope' =
  targetScopeFor app scope'.
Proof.
  destruct (add_frame tts now app word0 scope) as (H1 & H2 & H3 & _).
  destruct scope' as [sc|]; [ reflexivity | ].
  unfold targetScopeFor, getActiveScope, getDocumentScope, getChatScope.
  rewrite H1, H2, H3. reflexivity.
Qed.

(** The card that is stored for a word that was not in the scope. *)
Lemma add_lookup_new tts now app word0 S c :
  db app !! getLeitnerCardId word0 (Some S) = None ->
  db (addCurrentWordToLeitner tts now app word0 (Some S))
    !! getLeitnerCardId word0 (Some S) = Some c ->
  c = addedCard now word0 S /\ normalizeWord word0 <> "".
Proof.
  intros Hnone. rewrite add_db. cbn [targetScopeFor]. rewrite Hnone.
  destruct (String.eqb (normalizeWord word0) "") eqn:Hw; [ congruence | ].
  rewrite lookup_insert_eq. intros [= <-].
  split; [ reflexivity | apply String.eqb_neq, Hw ].
Qed.

Lemma added_card_scopeKey tts now app word0 S c :
  db app !! getLeitnerCardId word0 (Some S) = None ->
  db (addCurrentWordToLeitner tts now app word0 (Some S))
    !! getLeitnerCardId word0 (Some S) = Some c ->
  scopeKey c = Some (getScopeKey (Some S)).
Proof.
  intros Hnone Hc.
  destruct (add_lookup_new _ _ _ _ _ _ Hnone Hc) as [-> _]. reflexivity.
Qed.

Lemma added_global_card tts t0 app word0 c :
  db app !! getLeitnerCardId word0 (Some getGlobalScope) = None ->
  db (addCurrentWordToLeitner tts t0 app word0 (Some getGlobalScope))
    !! getLeitnerCardId word0 (Some getGlobalScope) = Some c ->
  scopeKey c = Some "global:all" /\ dueDate c = IsoDate t0.
Proof.
  intros Hnone Hc.
  destruct (add_lookup_new _ _ _ _ _ _ Hnone Hc) as [-> _]. split; reflexivity.
Qed.

(** C7. Scope isolation of the review queue. A queue opened for scope [S]
    holds a card only if the card's scope key is the key of [S], or [S] is
    not the global scope and the card's scope key is "global:all". A card is
    stored under the key of the scope it was added for; so a card added for
    chat A is in no queue opened for another chat B. A stored global card
    that the queue's date test lets pass is in the queue of every scope, and
    so is, from the time it was added, a card just added for the global
    scope. *)
Theorem C7_scope_isolation (shuffle : list Card -> list Card) (tz now : Z) :
  (forall l, shuffle l ≡ₚ l) ->
  (forall store S c,
      c ∈ reviewQueue shuffle tz now store S ->
      scopeKey c = Some (getScopeKey S) \/
      (getScopeKey S <> "global:all" /\ scopeKey c = Some "global:all")) /\
  (forall tts t app word0 S c,
      db app !! getLeitnerCardId word0 (Some S) = None ->
      db (addCurrentWordToLeitner tts t app word0 (Some S))
        !! getLeitnerCardId word0 (Some S) = Some c ->
      scopeKey c = Some (getScopeKey (Some S))) /\
  (forall store app A B c,
      A <> "" -> B <> "" -> A <> B ->
      scopeKey c = Some (getScopeKey (Some (getChatScope app (Some A)))) ->
      c ∉ reviewQueue shuffle tz now store (Some (getChatScope app (Some B)))) /\
  (forall store S c d,
      c ∈ getAll store -> scopeKey c = Some "global:all" ->
      dueDate c = IsoDate d -> setHours0 tz d <= setHours0 tz now ->
      c ∈ reviewQueue shuffle tz now store S) /\
  (forall tts t0 app word0 c S,
      t0 <= now ->
      db app !! getLeitnerCardId word0 (Some getGlobalScope) = None ->
      db (addCurrentWordToLeitner tts t0 app word0 (Some getGlobalScope))
        !! getLeitnerCardId word0 (Some getGlobalScope) = Some c ->
      c ∈ reviewQueue shuffle tz now
            (db (addCurrentWordToLeitner tts t0 app word0 (Some getGlobalScope))) S).
Proof.
  intros Hperm.
  assert (Hscope : forall store S c,
      c ∈ reviewQueue shuffle tz now store S ->
      scopeKey c = Some (getScopeKey S) \/
      (getScopeKey S <> "global:all" /\ scopeKey c = Some "global:all")).
  { intros store S c Hin. apply elem_of_reviewQueue in Hin; [ | exact Hperm ].
    destruct Hin as [Hf _].
    destruct (reviewFilter_inv _ _ _ _ _ Hf) as (s & d & Hs & _ & Hk & _).
    destruct Hk as [-> | [Hincl ->]]; [ left; exact Hs | right ].
    split; [ | exact Hs ].
    apply negb_true_iff, String.eqb_neq in Hincl. exact Hincl. }
  assert (Hglob : forall store S c d,
      c ∈ getAll store -> scopeKey c = Some "global:all" ->
      dueDate c = IsoDate d -> setHours0 tz d <= setHours0 tz now ->
      c ∈ reviewQueue shuffle tz now store S).
  { intros store S c d Hin Hs Hd Hle.
    apply elem_of_reviewQueue; [ exact Hperm | ].
    split; [ | exact Hin ].
    eapply reviewFilter_global; eassumption. }
  split; [ exact Hscope | ].
  split; [ intros tts t app word0 S c; apply added_card_scopeKey | ].
  split; [ | split; [ exact Hglob | ] ].
  - intros store app A B c HA HB HAB Hc Hin.
    apply Hscope in Hin. rewrite Hc in Hin.
    rewrite !getScopeKey_chat in Hin by assumption.
    destruct Hin as [Heq | [_ Heq]].
    + apply HAB. cbv in Heq. congruence.
    + discriminate Heq.
  - intros tts t0 app word0 c S Hle Hnone Hc.
    destruct (added_global_card tts t0 app word0 c Hnone Hc) as [Hs Hd].
    apply (Hglob _ S c t0); [ | exact Hs | exact Hd | apply setHours0_mono, Hle ].
    apply list_elem_of_fmap. eexists (_, c). split; [ reflexivity | ].
    apply elem_of_map_to_list. exact Hc.
Qed.

Lemma C7_scope_isolation_witness :
  (forall l : list Card, reverse l ≡ₚ l) /\
  (exists c,
      db appleAndRun !! "chat:A:apple" = Some c /\
      scopeKey c = Some (getScopeKey (Some (getChatScope emptyApp (Some "A")))) /\
      c ∉ reviewQueue reverse 0 1728036000000 (db appleAndRun)
            (Some (getChatScope emptyApp (Some "B")))) /\
  (exists c,
      db appleAndRun !! "global:all:run" = Some c /\
      c ∈ reviewQueue reverse 0 1728036000000 (db appleAndRun) (Some chatB)).
Proof.
  assert (Hperm : forall l : list Card, reverse l ≡ₚ l)
    by (intros l; apply reverse_Permutation).
  destruct (C7_scope_isolation reverse 0 1728036000000 Hperm)
    as (_ & _ & Hiso & Hglob & _).
  split; [ exact Hperm | ]. split.
  - eexists. split; [ vm_compute; reflexivity | ].
    split; [ reflexivity | ].
    apply (Hiso (db appleAndRun) emptyApp "A" "B");
      [ discriminate | discriminate | discriminate | reflexivity ].
  - eexists. split; [ vm_compute; reflexivity | ].
    eapply (Hglob (db appleAndRun) (Some chatB) _ 1727950000000).
    + apply list_elem_of_fmap. eexists ("global:all:run", _). split; [ reflexivity | ].
      apply elem_of_map_to_list. vm_compute. reflexivity.
    + reflexivity.
    + reflexivity.
    + vm_compute. discriminate.
Defined.

(** ** Adding a word *)

Lemma targetScopeFor_showToast app t scope :
  targetScopeFor (showToast app t) scope = targetScopeFor app scope.
Proof. reflexivity. Qed.

Lemma targetScopeFor_withDb app store scope :
  targetScopeFor (withDb app store) scope = targetScopeFor app scope.
Proof. reflexivity. Qed.

Lemma spoken_cases tts :
  (speechSynthesis tts = false /\ spoken tts = None) \/
  (speechSynthesis tts = true /\
   (spoken tts = Some [] \/ spoken tts = Some [ToastTtsUnsupported])).
Proof.
  destruct (playTextToSpeech tts emptyApp) as [played|] eqn:Hp.
  - right. split.
    + unfold playTextToSpeech in Hp. destruct (speechSynthesis tts); [ reflexivity | ].
      discriminate Hp.
    + apply playTextToSpeech_inv in Hp as [[_ ->] | [_ ->]]; [ left | right ]; reflexivity.
  - left. split; [ | apply (playTextToSpeech_rejected _ _ Hp) ].
    unfold playTextToSpeech, playAudio in Hp.
    destruct (speechSynthesis tts); [ | reflexivity ]. cbn [negb] in Hp.
    destruct (speaking tts); [ discriminate Hp | ].
    destruct (audioCached tts);
      (destruct (_ && _)%bool; [ discriminate Hp | ];
       destruct (_ && _)%bool; discriminate Hp).
Qed.

Lemma add_existing tts now app word0 scope targetScope c :
  targetScopeFor app scope = Some targetScope ->
  db app !! getLeitnerCardId word0 (Some targetScope) = Some c ->
  db (addCurrentWordToLeitner tts now app word0 scope) = db app.
Proof.
  intros Hs Hc. rewrite add_db, Hs, Hc.
  destruct (String.eqb (normalizeWord word0) ""); reflexivity.
Qed.

Lemma add_twice tts1 tts2 t1 t2 app word0 scope :
  let app1 := addCurrentWordToLeitner tts1 t1 app word0 scope in
  let app2 := addCurrentWordToLeitner tts2 t2 app1 word0 scope in
  db app2 = db app1.
Proof.
  cbv zeta. rewrite (add_db tts2), add_targetScope.
  destruct (String.eqb (normalizeWord word0) "") eqn:Hw; [ reflexivity | ].
  destruct (targetScopeFor app scope) as [ts|] eqn:Hs; [ | reflexivity ].
  rewrite (add_db tts1), Hw, Hs.
  destruct (db app !! getLeitnerCardId word0 (Some ts)) as [c|] eqn:Hc.
  - rewrite Hc. reflexivity.
  - rewrite lookup_insert_eq. reflexivity.
Qed.

(** C8. Adding a word is deduplicated per scope identity. When a card with
    the id of (word, scope) is stored, adding the word for that scope leaves
    the store as it is, with the stored card, and reports that the word is
    already in the deck; the playback of the word that follows the report
    may add one toast of its own, or the failure toast when the browser has
    no speech synthesis. So a second identical call changes nothing in the
    store, and adding "apple" for chat A twice leaves exactly one stored
    card, with repetitions 0 and the creation time of the first call. *)
Theorem C8_add_deduplicates :
  (forall tts now app word0 scope targetScope c,
      targetScopeFor app scope = Some targetScope ->
      db app !! getLeitnerCardId word0 (Some targetScope) = Some c ->
      let app' := addCurrentWordToLeitner tts now app word0 scope in
      db app' = db app /\
      db app' !! getLeitnerCardId word0 (Some targetScope) = Some c /\
      (normalizeWord word0 <> "" ->
       exists later,
         toasts app' =
           later ++ ToastAlreadyInDeck (normalizeWord word0) :: toasts app /\
         (later = [] \/ later = [ToastTtsUnsupported] \/ later = [ToastFailed]) /\
         (later = [ToastFailed] <-> speechSynthesis tts = false))) /\
  (forall tts1 tts2 t1 t2 app word0 scope,
      let app1 := addCurrentWordToLeitner tts1 t1 app word0 scope in
      let app2 := addCurrentWordToLeitner tts2 t2 app1 word0 scope in
      db app2 = db app1) /\
  (forall tts1 tts2 t1 t2,
      let app1 := addCurrentWordToLeitner tts1 t1 emptyApp (Some "apple") (Some chatA) in
      let app2 := addCurrentWordToLeitner tts2 t2 app1 (Some "apple") (Some chatA) in
      size (db app2) = 1%nat /\
      (exists later,
         toasts app2 = later ++ ToastAlreadyInDeck "apple" :: toasts app1) /\
      db app2 = db app1 /\
      exists c, db app2 !! getLeitnerCardId (Some "apple") (Some chatA) = Some c /\
                repetitions c = num 0 /\ createdAt c = Some t1).
Proof.
  assert (Hreport : forall tts now app word0 scope targetScope c,
      targetScopeFor app scope = Some targetScope ->
      db app !! getLeitnerCardId word0 (Some targetScope) = Some c ->
      normalizeWord word0 <> "" ->
      exists later,
        toasts (addCurrentWordToLeitner tts now app word0 scope) =
          later ++ ToastAlreadyInDeck (normalizeWord word0) :: toasts app /\
        (later = [] \/ later = [ToastTtsUnsupported] \/ later = [ToastFailed]) /\
        (later = [ToastFailed] <-> speechSynthesis tts = false)).
  { intros tts now app word0 scope ts c Hs Hc Hw.
    apply String.eqb_neq in Hw. rewrite add_toasts, Hw, Hs, Hc.
    destruct (spoken_cases tts) as [[Hsyn ->] | [Hsyn [-> | ->]]].
    - exists [ToastFailed]. split; [ reflexivity | ].
      split; [ right; right; reflexivity | ]. split; [ intros _; exact Hsyn | reflexivity ].
    - exists []. split; [ reflexivity | ]. split; [ left; reflexivity | ].
      rewrite Hsyn. split; discriminate.
    - exists [ToastTtsUnsupported]. split; [ reflexivity | ].
      split; [ right; left; reflexivity | ]. rewrite Hsyn. split; discriminate. }
  split; [ | split ].
  - intros tts now app word0 scope ts c Hs Hc. cbv zeta.
    rewrite (add_existing tts now app word0 scope ts c Hs Hc).
    split; [ reflexivity | ]. split; [ exact Hc | ].
    apply (Hreport tts now app word0 scope ts c Hs Hc).
  - intros tts1 tts2 t1 t2 app word0 scope. apply add_twice.
  - intros tts1 tts2 t1 t2. cbv zeta.
    pose proof (add_twice tts1 tts2 t1 t2 emptyApp (Some "apple") (Some chatA)) as Hdb.
    cbv zeta in Hdb.
    assert (H1 : db (addCurrentWordToLeitner tts1 t1 emptyApp (Some "apple") (Some chatA))
                 = {["chat:A:apple" := addedCard t1 (Some "apple") chatA]}).
    { rewrite add_db. rewrite <- insert_empty. reflexivity. }
    assert (Hc : db (addCurrentWordToLeitner tts1 t1 emptyApp (Some "apple") (Some chatA))
                   !! getLeitnerCardId (Some "apple") (Some chatA)
                 = Some (addedCard t1 (Some "apple") chatA)).
    { rewrite H1. apply lookup_singleton_eq. }
    rewrite Hdb, H1. split; [ apply map_size_singleton | ].
    split.
    + destruct (Hreport tts2 t2 _ (Some "apple") (Some chatA) chatA _ eq_refl Hc)
        as (later & Ht & _); [ vm_compute; discriminate | ].
      exists later. exact Ht.
    + split; [ reflexivity | ].
      eexists. split; [ apply lookup_singleton_eq | ]. split; reflexivity.
Qed.

Lemma C8_add_deduplicates_witness :
  normalizeWord (Some " Apple ") <> "" /\
  targetScopeFor appleAdded (Some chatA) = Some chatA /\
  (exists c, db appleAdded !! getLeitnerCardId (Some " Apple ") (Some chatA) = Some c) /\
  db (addCurrentWordToLeitner noSynthesis 1728036000000 appleAdded (Some " Apple ")
        (Some chatA))
    = db appleAdded /\
  exists later,
    toasts (addCurrentWordToLeitner noSynthesis 1728036000000 appleAdded (Some " Apple ")
              (Some chatA))
      = later ++ ToastAlreadyInDeck "apple" :: toasts appleAdded.
Proof.
  assert (Hw : normalizeWord (Some " Apple ") <> "") by (vm_compute; discriminate).
  assert (Hc : db appleAdded !! getLeitnerCardId (Some " Apple ") (Some chatA)
               = Some (addedCard 1727950000000 (Some "apple") chatA))
    by (vm_compute; reflexivity).
  destruct C8_add_deduplicates as (Hdup & _ & _).
  destruct (Hdup noSynthesis 1728036000000 appleAdded (Some " Apple ") (Some chatA) chatA _
              eq_refl Hc) as (Hdb & _ & Htoast).
  split; [ exact Hw | ]. split; [ reflexivity | ].
  split; [ eexists; exact Hc | ]. split; [ exact Hdb | ].
  destruct (Htoast Hw) as (later & Ht & _). exists later. exact Ht.
Defined.

(** ** Migration of the legacy store *)

Lemma migrateCard_skip now v (s : gmap string Card) :
  truthy (word v) = false -> migrateCard now v s = s.
Proof. unfold migrateCard. intros ->. reflexivity. Qed.

Lemma migrateCard_put now v (s : gmap string Card) :
  truthy (word v) = true ->
  migrateCard now v s = <[migratedKey v := migrated now v]> s.
Proof. unfold migrateCard. intros ->. reflexivity. Qed.

Lemma migratedKeys_cons v L :
  migratedKeys (v :: L) =
    if truthy (word v) then migratedKey v :: migratedKeys L else migratedKeys L.
Proof.
  unfold migratedKeys. rewrite filter_cons.
  destruct (truthy (word v)) eqn:Hw.
  - rewrite decide_True by reflexivity. reflexivity.
  - rewrite decide_False by discriminate. reflexivity.
Qed.

Lemma migrate_lookup_other L :
  forall clock (s : gmap string Card) k,
    k ∉ migratedKeys L -> migrateLegacy clock L s !! k = s !! k.
Proof.
  induction L as [|v L IH]; intros clock s k Hk; [ reflexivity | ].
  cbn [migrateLegacy]. rewrite migratedKeys_cons in Hk.
  destruct (truthy (word v)) eqn:Hw.
  - apply not_elem_of_cons in Hk as [Hne Hk].
    rewrite IH by exact Hk. rewrite migrateCard_put by exact Hw.
    apply lookup_insert_ne. congruence.
  - rewrite IH by exact Hk. rewrite migrateCard_skip by exact Hw. reflexivity.
Qed.

Lemma migrate_lookup_written L :
  forall clock (s s' : gmap string Card) k,
    k ∈ migratedKeys L ->
    migrateLegacy clock L s !! k = migrateLegacy clock L s' !! k.
Proof.
  induction L as [|v L IH]; intros clock s s' k Hk.
  - unfold migratedKeys in Hk. cbn in Hk. inversion Hk.
  - cbn [migrateLegacy].
    destruct (decide (k ∈ migratedKeys L)) as [Hin|Hnin]; [ apply IH, Hin | ].
    rewrite !migrate_lookup_other by exact Hnin.
    rewrite migratedKeys_cons in Hk.
    destruct (truthy (word v)) eqn:Hw; [ | contradiction ].
    apply elem_of_cons in Hk as [-> | Hin]; [ | contradiction ].
    rewrite !migrateCard_put by exact Hw.
    rewrite !lookup_insert_eq. reflexivity.
Qed.

Lemma migrate_twice c1 c2 L (s : gmap string Card) :
  migrateLegacy c2 L (migrateLegacy c1 L s) = migrateLegacy c2 L s.
Proof.
  apply map_eq. intros k.
  destruct (decide (k ∈ migratedKeys L)) as [Hin|Hnin].
  - apply migrate_lookup_written, Hin.
  - rewrite !migrate_lookup_other by exact Hnin. reflexivity.
Qed.

Lemma migrate_dom L :
  forall clock (s : gmap string Card),
    dom (migrateLegacy clock L s) = dom s ∪ list_to_set (migratedKeys L).
Proof.
  induction L as [|v L IH]; intros clock s.
  - cbn. symmetry. apply union_empty_r_L.
  - cbn [migrateLegacy]. rewrite IH, migratedKeys_cons.
    destruct (truthy (word v)) eqn:Hw.
    + rewrite migrateCard_put by exact Hw.
      rewrite dom_insert_L, list_to_set_cons.
      rewrite (union_comm_L {[migratedKey v]} (dom s)).
      symmetry. apply union_assoc_L.
    + rewrite migrateCard_skip by exact Hw. reflexivity.
Qed.

Lemma migrate_clock_irrelevant L :
  forall c1 c2 (s : gmap string Card),
    (forall v, v ∈ L -> truthy (word v) = true -> createdAt v <> None) ->
    migrateLegacy c1 L s = migrateLegacy c2 L s.
Proof.
  induction L as [|v L IH]; intros c1 c2 s Hall; [ reflexivity | ].
  cbn [migrateLegacy].
  assert (Hv : migrateCard (c1 0%nat) v s = migrateCard (c2 0%nat) v s).
  { destruct (truthy (word v)) eqn:Hw.
    - rewrite !migrateCard_put by exact Hw.
      assert (Hc : createdAt v <> None) by (apply Hall; [ left | exact Hw ]).
      unfold migrated. destruct (createdAt v); [ reflexivity | contradiction ].
    - rewrite !migrateCard_skip by exact Hw. reflexivity. }
  rewrite Hv. apply IH. intros v' Hin. apply Hall. right. exact Hin.
Qed.

(** C9. The migration is idempotent. Running the migration twice over the
    same legacy records leaves the same ids in the store as running it once,
    so no record is duplicated, and it leaves the same records: the legacy
    application gives every card it adds its [createdAt] and keeps it when
    the card is rated, and for a legacy record with [createdAt] the migrated
    record and its id are functions of the legacy record alone, written by a
    put under that id. In general the store of two runs is the store of a
    single run made with the clock of the second, which the handler reads
    only for a record without [createdAt]. A legacy record without word is
    skipped. *)
Theorem C9_migration_rerun (c1 c2 : nat -> Z) (oldStore : list Card)
    (newStore : gmap string Card) :
  let once := migrateLegacy c1 oldStore newStore in
  let twice := migrateLegacy c2 oldStore once in
  dom twice = dom once /\
  size twice = size once /\
  twice = migrateLegacy c2 oldStore newStore /\
  ((forall v, v ∈ oldStore -> truthy (word v) = true -> createdAt v <> None) ->
   twice = once) /\
  (forall now v (s : gmap string Card),
     truthy (word v) = false -> migrateCard now v s = s) /\
  (forall now v (s : gmap string Card),
     truthy (word v) = true ->
     migrateCard now v s = <[migratedKey v := migrated now v]> s).
Proof.
  cbv zeta.
  assert (Hdom : dom (migrateLegacy c2 oldStore (migrateLegacy c1 oldStore newStore))
                 = dom (migrateLegacy c1 oldStore newStore)).
  { rewrite !migrate_dom.
    rewrite <- union_assoc_L, union_idemp_L. reflexivity. }
  split; [ exact Hdom | ].
  split; [ rewrite <- !size_dom, Hdom; reflexivity | ].
  split; [ apply migrate_twice | ].
  split; [ | split ].
  - intros Hall. rewrite migrate_twice. symmetry.
    apply migrate_clock_irrelevant, Hall.
  - apply migrateCard_skip.
  - apply migrateCard_put.
Qed.

Lemma C9_migration_rerun_witness :
  (forall v, v ∈ [legacyNoWord; legacyApple] -> truthy (word v) = true ->
             createdAt v <> None) /\
  truthy (word legacyNoWord) = false /\
  migrateLegacy (fun _ => 1728036000000) [legacyNoWord; legacyApple]
    (migrateLegacy (fun _ => 1727950000000) [legacyNoWord; legacyApple] ∅) =
  migrateLegacy (fun _ => 1727950000000) [legacyNoWord; legacyApple] ∅ /\
  migrateCard 1727950000000 legacyNoWord ∅ = ∅.
Proof.
  assert (Hall : forall v, v ∈ [legacyNoWord; legacyApple] ->
                   truthy (word v) = true -> createdAt v <> None).
  { intros v Hin Hw.
    apply elem_of_cons in Hin as [-> | Hin]; [ discriminate Hw | ].
    apply list_elem_of_singleton in Hin as ->. discriminate. }
  destruct (C9_migration_rerun (fun _ => 1727950000000) (fun _ => 1728036000000)
              [legacyNoWord; legacyApple] ∅) as (_ & _ & _ & Hsame & Hskip & _).
  split; [ exact Hall | ]. split; [ reflexivity | ].
  split; [ apply Hsame, Hall | apply Hskip; reflexivity ].
Defined.

(** ** The end-to-end scenario *)

Lemma runCard_added tts t :
  db (addCurrentWordToLeitner tts t emptyApp (Some "run") (Some documentDoc1)) =
    {["document:doc1:run" := runCard t]}.
Proof.
  rewrite add_db. rewrite <- insert_empty. reflexivity.
Qed.

Lemma runCard_queue shuffle tz t0 t1 :
  (forall l, shuffle l ≡ₚ l) -> t0 <= t1 ->
  reviewQueue shuffle tz t1 {["document:doc1:run" := runCard t0]} (Some documentDoc1)
    = [runCard t0].
Proof.
  intros Hperm Hle. unfold reviewQueue, getAll. cbv zeta.
  rewrite map_to_list_singleton. cbn [fmap list_fmap snd].
  rewrite filter_cons, decide_True.
  - rewrite filter_nil. apply Permutation_singleton_r, Hperm.
  - unfold reviewFilter. cbn [runCard scopeKey dueDate newDate].
    change (truthy (Some "document:doc1")) with true.
    change (getScopeKey (Some documentDoc1)) with "document:doc1".
    change (str_or (Some "document:doc1") "") with "document:doc1".
    change (String.eqb "document:doc1" "document:doc1") with true.
    cbn [negb andb]. apply Z.leb_le, setHours0_mono, Hle.
Qed.

(** C5, as the code has it. From a store that holds only the card just
    added for "run" under document doc1, a review opened for doc1 has a queue
    of exactly that card, with 1 new and 0 review cards; after the rating
    Good the stored card has repetitions 1, interval 1, status "learning" and
    is due at the next local midnight; the queue is empty and the finished
    screen is shown. *)
Theorem C5_end_to_end (shuffle : list Card -> list Card) (tz t0 t1 t2 : Z)
    (tts : Speech) :
  (forall l, shuffle l ≡ₚ l) ->
  t0 <= t1 ->
  Z.abs (setHours0 tz t2 + msPerDay) <= maxTime ->
  let app1 := addCurrentWordToLeitner tts t0 emptyApp (Some "run") (Some documentDoc1) in
  let app2 := openLeitnerModal shuffle tz t1 app1 None (Some documentDoc1) in
  db app1 = {["document:doc1:run" := runCard t0]} /\
  reviewQueue shuffle tz t1 (db app1) (Some documentDoc1) = [runCard t0] /\
  leitnerStatsNew app2 = 1%nat /\ leitnerStatsDue app2 = 0%nat /\
  currentCard app2 = Some (runCard t0) /\
  exists app3 c,
    rateCard tz t2 app2 3 = Some app3 /\
    db app3 = {["document:doc1:run" := c]} /\
    repetitions c = num 1 /\ interval c = num 1 /\
    status c = Some "learning" /\
    dueDate c = IsoDate (setHours0 tz t2 + msPerDay) /\
    leitnerQueue app3 = [] /\ leitnerFinishedScreen app3 = true.
Proof.
  intros Hperm Hle Hrange. cbv zeta.
  set (app1 := addCurrentWordToLeitner tts t0 emptyApp (Some "run") (Some documentDoc1)).
  assert (Hdb : db app1 = {["document:doc1:run" := runCard t0]})
    by apply runCard_added.
  assert (Hq := runCard_queue shuffle tz t0 t1 Hperm Hle).
  split; [ exact Hdb | ]. split; [ rewrite Hdb; exact Hq | ].
  assert (Hopen :
    openLeitnerModal shuffle tz t1 app1 None (Some documentDoc1) =
    {| db := {["document:doc1:run" := runCard t0]};
       currentChatId := currentChatId app1;
       currentDocumentId := currentDocumentId app1;
       activeSidebarSection := activeSidebarSection app1;
       currentLeitnerScope := Some documentDoc1;
       leitnerQueue := []; currentCard := Some (runCard t0);
       leitnerStatsNew := 1; leitnerStatsDue := 0;
       leitnerFinishedScreen := false; toasts := toasts app1 |}).
  { unfold openLeitnerModal. cbn [reviewScope].
    rewrite Hdb, Hq. reflexivity. }
  rewrite Hopen. cbn [leitnerStatsNew leitnerStatsDue currentCard].
  repeat (split; [ reflexivity | ]).
  unfold rateCard. cbn [currentCard].
  assert (Hsm2 : calculateSM2 (runCard t0) (qualityMap 3) =
                 {| newRepetitions := num 1; newInterval := num 1;
                    newEaseFactor := newEaseFactor (calculateSM2 (runCard t0) (num 3)) |})
    by reflexivity.
  rewrite Hsm2. cbn [newInterval].
  assert (Hdate : setDatePlus (setHours0 tz t2) (num 1) = Some (setHours0 tz t2 + msPerDay)).
  { unfold setDatePlus. change (Num.truncate (ToNumber (num 1))) with (Some 1).
    cbv beta iota zeta. rewrite Z.mul_1_l.
    apply Z.leb_le in Hrange. rewrite Hrange. reflexivity. }
  rewrite Hdate. cbn [dbSet updatedCard id runCard db].
  eexists _, _. split; [ reflexivity | ].
  cbn [showNextCard leitnerQueue showFinishedScreen db leitnerFinishedScreen].
  split; [ apply insert_singleton_eq | ].
  repeat split.
Qed.

Lemma C5_end_to_end_witness :
  (forall l : list Card, reverse l ≡ₚ l) /\
  1727950000000 <= 1728036000000 /\
  Z.abs (setHours0 0 1728036000000 + msPerDay) <= maxTime /\
  reviewQueue reverse 0 1728036000000 (db runAdded) (Some documentDoc1)
    = [runCard 1727950000000] /\
  exists app3 c,
    runRated = Some app3 /\
    db app3 = {["document:doc1:run" := c]} /\
    status c = Some "learning" /\
    dueDate c = IsoDate (setHours0 0 1728036000000 + msPerDay).
Proof.
  assert (Hperm : forall l : list Card, reverse l ≡ₚ l)
    by (intros l; apply reverse_Permutation).
  assert (Hle : 1727950000000 <= 1728036000000) by lia.
  assert (Hrange : Z.abs (setHours0 0 1728036000000 + msPerDay) <= maxTime)
    by (vm_compute; discriminate).
  destruct (C5_end_to_end reverse 0 1727950000000 1728036000000 1728036000000
              firstStart Hperm Hle Hrange)
    as (_ & Hq & _ & _ & _ & app3 & c & Hrate & Hdb & _ & _ & Hst & Hdue & _).
  split; [ exact Hperm | ]. split; [ exact Hle | ]. split; [ exact Hrange | ].
  split; [ exact Hq | ].
  exists app3, c. split; [ exact Hrate | ]. split; [ exact Hdb | ].
  split; [ exact Hst | exact Hdue ].
Defined.

(** C5, as stated, fails: the card that the rating Good stores has status
    "learning", not "review". *)
Lemma C5_status_counterexample :
  match runRated with
  | Some app =>
      match db app !! "document:doc1:run" with
      | Some c => status c
      | None => None
      end
  | None => None
  end = Some "learning" /\
  Some "learning" <> Some "review".
Proof.
  split; [ vm_compute; reflexivity | discriminate ].
Qed.

(** ** Instances used below *)

Lemma reverse_perm : forall l : list Card, reverse l ≡ₚ l.
Proof. intros l. apply reverse_Permutation. Qed.

Lemma empty_keyed : wellKeyed ∅.
Proof. intros k c H. rewrite lookup_empty in H. discriminate H. Qed.

Lemma emptyApp_session : sessionKeyed emptyApp.
Proof.
  split; [ apply empty_keyed | ]. split; [ intros c H; discriminate H | constructor ].
Qed.

(** ** Further properties of the scheduler *)

Lemma prior_ease_number card :
  exists x, priorEaseFactor card = JNum x /\ x <> S754_nan /\ ToBoolean (JNum x) = true.
Proof.
  unfold priorEaseFactor, js_or.
  destruct (ToBoolean (easeFactor card)) eqn:Ht.
  - destruct (easeFactor card) as [| |x]; try discriminate.
    exists x. destruct x; try discriminate; repeat split; discriminate.
  - eexists. split; [ reflexivity | ]. split; [ vm_compute; discriminate | reflexivity ].
Qed.

Lemma calculateSM2_prior card q :
  calculateSM2 (withFields card (repetitions card) (interval card) (priorEaseFactor card)) q
    = calculateSM2 card q.
Proof.
  unfold calculateSM2, withFields, priorEaseFactor. cbn [repetitions interval easeFactor].
  assert (H : js_or (js_or (easeFactor card) lit_2_5) lit_2_5 = js_or (easeFactor card) lit_2_5).
  { unfold js_or. destruct (ToBoolean (easeFactor card)) eqn:Hv.
    - rewrite Hv. reflexivity.
    - reflexivity. }
  rewrite H. reflexivity.
Qed.

Lemma new_ease_floor_any card q :
  isQuality q -> aboveFloor (newEaseFactor (calculateSM2 card q)) = true.
Proof.
  intros Hq. rewrite <- calculateSM2_prior.
  destruct (prior_ease_number card) as (x & Hx & Hnan & Ht).
  eapply new_ease_above_floor; [ | exact Hnan | exact Ht | exact Hq ].
  exact Hx.
Qed.

(** X1. One rating restores the floor: whatever ease factor a card holds, be
    it below 1.3, zero, missing or not a number, the ease factor returned for
    a quality of 0, 2, 3 or 5 is a number of at least 1.3. *)
Theorem X1_one_rating_restores_floor (card : Card) (q : jsval) :
  isQuality q ->
  aboveFloor (newEaseFactor (calculateSM2 card q)) = true.
Proof.
  apply new_ease_floor_any.
Qed.

Lemma X1_one_rating_restores_floor_witness :
  isQuality (num 3) /\
  aboveFloor (easeFactor (sm2Card (num 4) (num 20) (JNum (Num.dec 1 2)))) = false /\
  aboveFloor (newEaseFactor
                (calculateSM2 (sm2Card (num 4) (num 20) (JNum (Num.dec 1 2))) (num 3))) = true.
Proof.
  assert (Hq : isQuality (num 3)) by (right; right; left; reflexivity).
  split; [ exact Hq | ]. split; [ reflexivity | ].
  apply X1_one_rating_restores_floor, Hq.
Defined.

Lemma new_card_reps card :
  ToBoolean (repetitions card) = false -> js_or (repetitions card) (num 0) = num 0.
Proof. unfold js_or. intros ->. reflexivity. Qed.

Lemma new_card_intervals card :
  ToBoolean (repetitions card) = false ->
  newInterval (calculateSM2 card (qualityMap 1)) = num 0 /\
  newInterval (calculateSM2 card (qualityMap 2)) = num 0 /\
  newInterval (calculateSM2 card (qualityMap 3)) = num 1 /\
  newInterval (calculateSM2 card (qualityMap 4)) = num 4.
Proof.
  intros Hnew. unfold calculateSM2. rewrite (new_card_reps card Hnew).
  repeat split; reflexivity.
Qed.

(** X2. A card without repetitions is scheduled by the button alone: for
    every card whose repetition count is 0 or missing, whatever its interval
    and ease factor, Again and Hard return repetitions 0 and interval 0, Good
    returns repetitions 1 and interval 1, and Easy returns repetitions 2 and
    interval 4; the status stored with them is "learning" for the first
    three and "review" for Easy. *)
Theorem X2_new_card_buttons (card : Card) :
  ToBoolean (repetitions card) = false ->
  let out r := calculateSM2 card (qualityMap r) in
  (newRepetitions (out 1) = num 0 /\ newInterval (out 1) = num 0) /\
  (newRepetitions (out 2) = num 0 /\ newInterval (out 2) = num 0) /\
  (newRepetitions (out 3) = num 1 /\ newInterval (out 3) = num 1) /\
  (newRepetitions (out 4) = num 2 /\ newInterval (out 4) = num 4) /\
  ratedStatus (newRepetitions (out 1)) = "learning" /\
  ratedStatus (newRepetitions (out 2)) = "learning" /\
  ratedStatus (newRepetitions (out 3)) = "learning" /\
  ratedStatus (newRepetitions (out 4)) = "review".
Proof.
  intros Hnew. cbv beta zeta.
  assert (H1 : calculateSM2 card (qualityMap 1) =
               {| newRepetitions := num 0; newInterval := num 0;
                  newEaseFactor := newEaseFactor (calculateSM2 card (qualityMap 1)) |}).
  { unfold calculateSM2. rewrite (new_card_reps card Hnew). reflexivity. }
  assert (H2 : calculateSM2 card (qualityMap 2) =
               {| newRepetitions := num 0; newInterval := num 0;
                  newEaseFactor := newEaseFactor (calculateSM2 card (qualityMap 2)) |}).
  { unfold calculateSM2. rewrite (new_card_reps card Hnew). reflexivity. }
  assert (H3 : calculateSM2 card (qualityMap 3) =
               {| newRepetitions := num 1; newInterval := num 1;
                  newEaseFactor := newEaseFactor (calculateSM2 card (qualityMap 3)) |}).
  { unfold calculateSM2. rewrite (new_card_reps card Hnew). reflexivity. }
  assert (H4 : calculateSM2 card (qualityMap 4) =
               {| newRepetitions := num 2; newInterval := num 4;
                  newEaseFactor := newEaseFactor (calculateSM2 card (qualityMap 4)) |}).
  { unfold calculateSM2. rewrite (new_card_reps card Hnew). reflexivity. }
  rewrite H1, H2, H3, H4. cbn [newRepetitions newInterval].
  repeat split; reflexivity.
Qed.

Lemma X2_new_card_buttons_witness :
  ToBoolean (repetitions legacyRun) = false /\
  newRepetitions (calculateSM2 legacyRun (qualityMap 4)) = num 2 /\
  newInterval (calculateSM2 legacyRun (qualityMap 4)) = num 4.
Proof.
  split; [ reflexivity | ].
  destruct (X2_new_card_buttons legacyRun eq_refl) as (_ & _ & _ & [H1 H2] & _).
  split; [ exact H1 | exact H2 ].
Defined.

(** ** Further properties of a rating *)

Lemma rateCard_inv tz now app rating app' card :
  rateCard tz now app rating = Some app' ->
  currentCard app = Some card ->
  exists k d,
    id card = Some k /\
    setDatePlus (setHours0 tz now)
      (newInterval (calculateSM2 card (qualityMap rating))) = Some d /\
    db app' = <[k := updatedCard card (calculateSM2 card (qualityMap rating)) d now]> (db app) /\
    leitnerQueue app' = tail (leitnerQueue app) /\
    currentCard app' = match leitnerQueue app with
                       | [] => Some card
                       | c :: _ => Some c
                       end /\
    leitnerFinishedScreen app' =
      match leitnerQueue app with
      | [] => true
      | _ :: _ => leitnerFinishedScreen app
      end /\
    toasts app' = toasts app.
Proof.
  unfold rateCard. intros H Hc. rewrite Hc in H.
  destruct (setDatePlus _ _) as [d|] eqn:Hd; [ | discriminate ].
  unfold dbSet in H. cbn [updatedCard id] in H.
  destruct (id card) as [k|] eqn:Hk; [ | discriminate ].
  injection H as <-. exists k, d.
  split; [ reflexivity | ]. split; [ reflexivity | ].
  unfold showNextCard. cbn [leitnerQueue].
  destruct (leitnerQueue app) as [|c rest]; cbn; rewrite ?Hc; repeat split; reflexivity.
Qed.

Lemma setHours0_midnight tz t k :
  setHours0 tz (setHours0 tz t + k * msPerDay) = setHours0 tz t + k * msPerDay.
Proof.
  unfold setHours0.
  assert (HD : msPerDay <> 0) by (unfold msPerDay; lia).
  pose proof (Z.div_mod (t + tz) msPerDay HD) as Hdm.
  replace (t - (t + tz) mod msPerDay + k * msPerDay + tz)
    with (((t + tz) / msPerDay + k) * msPerDay) by lia.
  rewrite Z.mod_mul by exact HD. lia.
Qed.

Lemma setDatePlus_inv t n d :
  setDatePlus t n = Some d ->
  exists k, Num.truncate (ToNumber n) = Some k /\ d = t + k * msPerDay /\
            Z.abs d <= maxTime.
Proof.
  unfold setDatePlus. destruct (Num.truncate (ToNumber n)) as [k|]; [ | discriminate ].
  destruct (Z.abs (t + k * msPerDay) <=? maxTime) eqn:Hr; [ | discriminate ].
  intros [= <-]. exists k. split; [ reflexivity | ]. split; [ reflexivity | ].
  apply Z.leb_le, Hr.
Qed.

(** X3. What a rating writes. When [rateCard] goes through for the current
    card, the store changes at the id of that card and nowhere else; the
    record written keeps the id, word, scope and creation time of the card,
    takes the three values of the scheduler, is marked as reviewed now and is
    due at a local midnight within the range of dates; the session moves on
    to the rest of its queue and raises no toast. *)
Theorem X3_rating_writes_one_record (tz now : Z) (app app' : App) (rating : Z)
    (card : Card) :
  rateCard tz now app rating = Some app' ->
  currentCard app = Some card ->
  exists k c' d,
    id card = Some k /\
    db app' = <[k := c']> (db app) /\
    (forall k', k' <> k -> db app' !! k' = db app !! k') /\
    id c' = Some k /\ word c' = word card /\
    scopeType c' = scopeType card /\ scopeId c' = scopeId card /\
    scopeKey c' = scopeKey card /\ createdAt c' = createdAt card /\
    repetitions c' = newRepetitions (calculateSM2 card (qualityMap rating)) /\
    interval c' = newInterval (calculateSM2 card (qualityMap rating)) /\
    easeFactor c' = newEaseFactor (calculateSM2 card (qualityMap rating)) /\
    lastReviewed c' = Some now /\
    dueDate c' = IsoDate d /\ setHours0 tz d = d /\ Z.abs d <= maxTime /\
    leitnerQueue app' = tail (leitnerQueue app) /\
    toasts app' = toasts app.
Proof.
  intros H Hc.
  destruct (rateCard_inv _ _ _ _ _ _ H Hc) as (k & d & Hk & Hd & Hdb & Hq & _ & _ & Ht).
  destruct (setDatePlus_inv _ _ _ Hd) as (n & _ & Hdn & Hrange).
  exists k, (updatedCard card (calculateSM2 card (qualityMap rating)) d now), d.
  split; [ exact Hk | ]. split; [ exact Hdb | ].
  split; [ intros k' Hne; rewrite Hdb; apply lookup_insert_ne; congruence | ].
  cbn [updatedCard id word scopeType scopeId scopeKey createdAt repetitions interval
       easeFactor lastReviewed dueDate].
  repeat (split; [ first [ reflexivity | assumption ] | ]).
  split; [ rewrite Hdn; apply setHours0_midnight | ].
  split; [ exact Hrange | ]. split; assumption.
Qed.

Lemma X3_rating_writes_one_record_witness :
  rateCard 0 1728036000000 runOpened 3 = Some runRatedApp /\
  currentCard runOpened = Some (runCard 1727950000000) /\
  exists c', db runRatedApp = <["document:doc1:run" := c']> (db runOpened) /\
             lastReviewed c' = Some 1728036000000 /\
             leitnerQueue runRatedApp = tail (leitnerQueue runOpened).
Proof.
  assert (H : rateCard 0 1728036000000 runOpened 3 = Some runRatedApp)
    by (vm_compute; reflexivity).
  assert (Hc : currentCard runOpened = Some (runCard 1727950000000))
    by (vm_compute; reflexivity).
  split; [ exact H | ]. split; [ exact Hc | ].
  destruct (X3_rating_writes_one_record 0 1728036000000 runOpened runRatedApp 3
              (runCard 1727950000000) H Hc)
    as (k & c' & d & Hk & Hdb & _ & _ & _ & _ & _ & _ & _ & _ & _ & _ & Hlr & _ & _ & _ & Hq & _).
  injection Hk as <-.
  exists c'. split; [ exact Hdb | ]. split; [ exact Hlr | exact Hq ].
Defined.

(** ** Signs of products and roundings *)


Section Sign.
Variables prec emax : Z.

Lemma binary_round_aux_sign sx mx ex lx :
  0 <= mx ->
  match binary_round_aux prec emax sx mx ex lx with
  | S754_zero s | S754_infinity s | S754_finite s _ _ => s = sx
  | S754_nan => False
  end.
Proof.
  intros Hm. unfold binary_round_aux.
  pose proof (shr_fexp_nonneg prec emax mx ex lx Hm) as H1.
  destruct (shr_fexp prec emax mx ex lx) as [mrs' e']. simpl in H1.
  pose proof (shr_fexp_nonneg prec emax _ e' loc_Exact
                (round_nearest_even_nonneg _ (loc_of_shr_record mrs') H1)) as H2.
  destruct (shr_fexp prec emax _ e' loc_Exact) as [mrs'' e'']. simpl in H2.
  destruct (shr_m mrs'') as [|p|p]; [ reflexivity | | lia ].
  destruct (e'' <=? emax - prec); reflexivity.
Qed.

Lemma binary_round_sign sx mx ex :
  match binary_round prec emax sx mx ex with
  | S754_zero s | S754_infinity s | S754_finite s _ _ => s = sx
  | S754_nan => False
  end.
Proof.
  unfold binary_round. destruct (shl_align mx ex _) as [mz ez].
  apply binary_round_aux_sign. lia.
Qed.
End Sign.

Lemma leb_zero_sign x :
  Num.leb plusZero x = true <->
  match x with
  | S754_zero _ => True
  | S754_infinity s | S754_finite s _ _ => s = false
  | S754_nan => False
  end.
Proof.
  destruct x as [s|[]| |[] m e]; cbn; split; intros H; try reflexivity;
    try discriminate; try contradiction; exact I.
Qed.

Lemma sign_leb_zero x :
  match x with
  | S754_zero s | S754_infinity s | S754_finite s _ _ => s = false
  | S754_nan => False
  end -> Num.leb plusZero x = true.
Proof.
  intros H. apply leb_zero_sign. destruct x; auto.
Qed.

Lemma mul_nonneg x y :
  Num.leb plusZero x = true -> Num.leb plusZero y = true ->
  Num.mul x y = S754_nan \/ Num.leb plusZero (Num.mul x y) = true.
Proof.
  intros Hx Hy. apply leb_zero_sign in Hx. apply leb_zero_sign in Hy.
  destruct x as [sx|sx| |sx mx ex]; try contradiction;
    destruct y as [sy|sy| |sy my ey]; try contradiction;
    subst; cbn; auto.
  right. apply sign_leb_zero.
  apply (binary_round_aux_sign Num.prec Num.emax false (Zpos (mx * my)) (ex + ey) loc_Exact).
  lia.
Qed.

Lemma round_nonneg x :
  Num.leb plusZero x = true -> Num.leb plusZero (Num.round x) = true.
Proof.
  intros Hx. pose proof Hx as Hs. apply leb_zero_sign in Hs.
  destruct x as [sx|sx| |sx mx ex]; try contradiction; try exact Hx.
  subst sx. unfold Num.round.
  destruct (0 <=? ex) eqn:He; [ exact Hx | ].
  apply Z.leb_gt in He. cbn [cond_Zopp].
  assert (Hn : 0 <= (2 * Z.pos mx + 2 ^ (- ex)) / 2 ^ (- ex + 1)).
  { apply Z.div_pos; [ | apply Z.pow_pos_nonneg; lia ].
    pose proof (Z.pow_pos_nonneg 2 (- ex) ltac:(lia) ltac:(lia)). lia. }
  destruct ((2 * Z.pos mx + 2 ^ (- ex)) / 2 ^ (- ex + 1)) as [|p|p];
    [ reflexivity | | lia ].
  apply sign_leb_zero. cbn [binary_normalize]. apply binary_round_sign.
Qed.

Lemma truncate_nonneg x k :
  Num.leb plusZero x = true -> Num.truncate x = Some k -> 0 <= k.
Proof.
  intros Hx. apply leb_zero_sign in Hx.
  destruct x as [sx|sx| |sx mx ex]; try contradiction; cbn; try discriminate.
  - intros [= <-]. lia.
  - subst sx. intros [= <-]. cbn [cond_Zopp].
    destruct (0 <=? ex) eqn:He.
    + apply Z.leb_le in He. pose proof (Z.pow_nonneg 2 ex ltac:(lia)). nia.
    + apply Z.leb_gt in He. apply Z.div_pos; [ lia | apply Z.pow_pos_nonneg; lia ].
Qed.

Lemma above_floor_nonneg v :
  aboveFloor v = true -> exists e, v = JNum e /\ Num.leb plusZero e = true.
Proof.
  destruct v as [| |e]; try discriminate. intros H. exists e.
  split; [ reflexivity | ]. apply leb_zero_sign.
  destruct e as [s|[]| |[] m ex]; try discriminate; auto.
Qed.

(** The interval chosen by a passing quality: a rounded product of
    non-negative numbers. *)
Lemma rounded_product_nonneg i e c :
  Num.leb plusZero i = true -> Num.leb plusZero e = true -> Num.leb plusZero c = true ->
  (Num.round (Num.mul i e) = S754_nan \/ Num.leb plusZero (Num.round (Num.mul i e)) = true) /\
  (Num.round (Num.mul (Num.mul i e) c) = S754_nan \/
   Num.leb plusZero (Num.round (Num.mul (Num.mul i e) c)) = true).
Proof.
  intros Hi He Hc.
  destruct (mul_nonneg i e Hi He) as [Hnan | Hie].
  - rewrite Hnan. split; left; reflexivity.
  - split; [ right; apply round_nonneg, Hie | ].
    destruct (mul_nonneg _ c Hie Hc) as [Hnan | H]; [ rewrite Hnan; left; reflexivity | ].
    right. apply round_nonneg, H.
Qed.

Lemma prior_interval_number card :
  nonNegative (priorInterval card) = true ->
  exists i, js_or (interval card) (num 0) = JNum i /\ Num.leb plusZero i = true.
Proof.
  unfold nonNegative, priorInterval.
  destruct (js_or (interval card) (num 0)) as [| |i]; try discriminate.
  intros H. exists i. split; [ reflexivity | exact H ].
Qed.

Lemma pass_interval_nonneg card q :
  q = num 3 \/ q = num 5 ->
  nonNegative (priorInterval card) = true ->
  exists y, newInterval (calculateSM2 card q) = JNum y /\
            (y = S754_nan \/ Num.leb plusZero y = true).
Proof.
  intros Hq Hi.
  destruct (prior_interval_number card Hi) as (i & Hior & Hi0).
  assert (Hease : aboveFloor (newEaseFactor (calculateSM2 card q)) = true).
  { apply new_ease_floor_any. destruct Hq as [-> | ->]; unfold isQuality; auto. }
  destruct (above_floor_nonneg _ Hease) as (e & He & He0).
  assert (Hc : Num.leb plusZero (ToNumber lit_1_3) = true) by reflexivity.
  destruct (rounded_product_nonneg i e (ToNumber lit_1_3) Hi0 He0 Hc) as [Hp1 Hp2].
  assert (Hconst : forall z, 0 <= z <= 6 -> exists y, num z = JNum y /\
                     (y = S754_nan \/ Num.leb plusZero y = true)).
  { intros z Hz. eexists. split; [ reflexivity | right ].
    assert (Hcases : z = 0 \/ z = 1 \/ z = 2 \/ z = 3 \/ z = 4 \/ z = 5 \/ z = 6) by lia.
    destruct Hcases as [-> | [-> | [-> | [-> | [-> | [-> | ->]]]]]]; reflexivity. }
  revert He. unfold calculateSM2. rewrite Hior.
  destruct Hq as [-> | ->].
  - change (js_lt (num 3) (num 3)) with false.
    change (js_seq (num 3) (num 5)) with false.
    change (js_seq (num 3) (num 2)) with false.
    cbv beta iota zeta.
    destruct (js_seq (js_or (repetitions card) (num 0)) (num 0));
      [ intros _; apply Hconst; lia | ].
    destruct (js_seq (js_or (repetitions card) (num 0)) (num 1));
      cbn [newInterval newEaseFactor]; [ intros _; apply Hconst; lia | ].
    intros ->. unfold Math_round, js_mul. cbn [ToNumber].
    eexists. split; [ reflexivity | exact Hp1 ].
  - change (js_lt (num 5) (num 3)) with false.
    change (js_seq (num 5) (num 5)) with true.
    cbv beta iota zeta.
    destruct (js_seq (js_or (repetitions card) (num 0)) (num 0));
      [ intros _; apply Hconst; lia | ].
    destruct (js_seq (js_or (repetitions card) (num 0)) (num 1));
      cbn [newInterval newEaseFactor];
      intros ->; unfold Math_round, js_mul; cbn [ToNumber];
      eexists; (split; [ reflexivity | exact Hp2 ]).
Qed.

Lemma fail_interval_nonneg card q :
  q = num 0 \/ q = num 2 ->
  exists y, newInterval (calculateSM2 card q) = JNum y /\ Num.leb plusZero y = true.
Proof.
  intros Hq. unfold calculateSM2.
  assert (Hlt : js_lt q (num 3) = true) by (destruct Hq as [-> | ->]; reflexivity).
  rewrite Hlt. cbn [newInterval].
  destruct (js_seq (js_or (repetitions card) (num 0)) (num 0));
    eexists; (split; [ reflexivity | reflexivity ]).
Qed.

Lemma rated_interval_nonneg card rating :
  1 <= rating <= 4 ->
  nonNegative (priorInterval card) = true ->
  exists y, newInterval (calculateSM2 card (qualityMap rating)) = JNum y /\
            (y = S754_nan \/ Num.leb plusZero y = true).
Proof.
  intros Hr Hi.
  assert (Hcases : rating = 1 \/ rating = 2 \/ rating = 3 \/ rating = 4) by lia.
  destruct Hcases as [-> | [-> | [-> | ->]]]; cbn [qualityMap].
  - destruct (fail_interval_nonneg card (num 0)) as (y & Hy & H0); [ left; reflexivity | ].
    exists y. split; [ exact Hy | right; exact H0 ].
  - destruct (fail_interval_nonneg card (num 2)) as (y & Hy & H0); [ right; reflexivity | ].
    exists y. split; [ exact Hy | right; exact H0 ].
  - apply pass_interval_nonneg; [ left; reflexivity | exact Hi ].
  - apply pass_interval_nonneg; [ right; reflexivity | exact Hi ].
Qed.

(** X4. A rating never schedules into the past. When [rateCard] goes through
    with one of the four buttons on a card whose interval is not negative (or
    is missing), the interval it stores is a number that is not negative and
    the due date it stores is not before the local midnight of the day of
    the rating. *)
Theorem X4_rating_never_schedules_into_the_past (tz now : Z) (app app' : App)
    (rating : Z) (card : Card) :
  rateCard tz now app rating = Some app' ->
  currentCard app = Some card ->
  1 <= rating <= 4 ->
  nonNegative (priorInterval card) = true ->
  exists k c' d,
    id card = Some k /\ db app' !! k = Some c' /\
    nonNegative (interval c') = true /\
    dueDate c' = IsoDate d /\ setHours0 tz now <= d.
Proof.
  intros H Hc Hr Hi.
  destruct (rateCard_inv _ _ _ _ _ _ H Hc) as (k & d & Hk & Hd & Hdb & _).
  destruct (setDatePlus_inv _ _ _ Hd) as (n & Hn & Hdn & _).
  destruct (rated_interval_nonneg card rating Hr Hi) as (y & Hy & Hy0).
  rewrite Hy in Hn. cbn [ToNumber] in Hn.
  assert (Hpos : Num.leb plusZero y = true).
  { destruct Hy0 as [-> | Hy0]; [ discriminate Hn | exact Hy0 ]. }
  exists k, (updatedCard card (calculateSM2 card (qualityMap rating)) d now), d.
  split; [ exact Hk | ]. split; [ rewrite Hdb; apply lookup_insert_eq | ].
  cbn [updatedCard interval dueDate]. rewrite Hy.
  split; [ exact Hpos | ]. split; [ reflexivity | ].
  pose proof (truncate_nonneg y n Hpos Hn) as Hn0.
  assert (0 <= n * msPerDay) by (unfold msPerDay; lia). lia.
Qed.

Lemma X4_rating_never_schedules_into_the_past_witness :
  rateCard 0 1728036000000 runOpened 3 = Some runRatedApp /\
  currentCard runOpened = Some (runCard 1727950000000) /\
  1 <= 3 <= 4 /\
  nonNegative (priorInterval (runCard 1727950000000)) = true /\
  exists c' d, db runRatedApp !! "document:doc1:run" = Some c' /\
               nonNegative (interval c') = true /\
               dueDate c' = IsoDate d /\ setHours0 0 1728036000000 <= d.
Proof.
  assert (H : rateCard 0 1728036000000 runOpened 3 = Some runRatedApp)
    by (vm_compute; reflexivity).
  assert (Hc : currentCard runOpened = Some (runCard 1727950000000))
    by (vm_compute; reflexivity).
  assert (Hr : 1 <= 3 <= 4) by lia.
  assert (Hi : nonNegative (priorInterval (runCard 1727950000000)) = true)
    by reflexivity.
  split; [ exact H | ]. split; [ exact Hc | ]. split; [ exact Hr | ].
  split; [ exact Hi | ].
  destruct (X4_rating_never_schedules_into_the_past 0 1728036000000 runOpened
              runRatedApp 3 (runCard 1727950000000) H Hc Hr Hi)
    as (k & c' & d & Hk & Hdb & Hn & Hd & Hle).
  injection Hk as <-.
  exists c', d. split; [ exact Hdb | ]. split; [ exact Hn | ].
  split; [ exact Hd | exact Hle ].
Defined.

(** ** Further properties of a session *)

Lemma rateAll_drains tz :
  forall ratings app app' card,
    currentCard app = Some card ->
    rateAll tz app ratings = Some app' ->
    (length ratings <= length (leitnerQueue app))%nat ->
    leitnerQueue app' = drop (length ratings) (leitnerQueue app) /\
    leitnerFinishedScreen app' = leitnerFinishedScreen app /\
    (exists c, currentCard app' = Some c) /\
    toasts app' = toasts app.
Proof.
  induction ratings as [|[now r] rest IH]; intros app app' card Hc H Hlen.
  - injection H as <-. cbn. rewrite drop_0. eauto.
  - cbn [rateAll] in H.
    destruct (rateCard tz now app r) as [app1|] eqn:H1; [ | discriminate ].
    destruct (rateCard_inv _ _ _ _ _ _ H1 Hc) as (_ & _ & _ & _ & _ & Hq & Hcur & Hfin & Ht).
    cbn [length] in Hlen.
    destruct (leitnerQueue app) as [|c q] eqn:Hqueue; [ cbn in Hlen; lia | ].
    cbn [tail length] in *.
    destruct (IH app1 app' c Hcur H) as (Hq' & Hf' & Hc' & Ht'); [ rewrite Hq; lia | ].
    rewrite Hq' , Hq, Hf', Hfin, Ht', Ht. repeat split; auto.
Qed.

(** X5. A session ends when its cards are used up. The queue only ever
    shrinks: as long as fewer ratings have gone through than cards wait, the
    queue is the old one without its first cards, and the finished screen is
    as it was; the rating of the last card, which found the queue empty,
    shows the finished screen. No rating puts a card back into the queue. *)
Theorem X5_session_drains (tz : Z) (ratings : list (Z * Z)) (app app' : App)
    (card : Card) :
  currentCard app = Some card ->
  rateAll tz app ratings = Some app' ->
  ((length ratings <= length (leitnerQueue app))%nat ->
   leitnerQueue app' = drop (length ratings) (leitnerQueue app) /\
   leitnerFinishedScreen app' = leitnerFinishedScreen app) /\
  (length ratings = S (length (leitnerQueue app)) ->
   leitnerQueue app' = [] /\ leitnerFinishedScreen app' = true).
Proof.
  intros Hc H. split.
  - intros Hlen.
    destruct (rateAll_drains tz ratings app app' card Hc H Hlen) as (Hq & Hf & _).
    split; assumption.
  - intros Hlen.
    assert (Hsplit : exists front now r, ratings = front ++ [(now, r)] /\
                       length front = length (leitnerQueue app)).
    { destruct (decide (ratings = [])) as [-> | Hne]; [ discriminate Hlen | ].
      destruct (exists_last Hne) as (front & [now r] & ->).
      exists front, now, r. split; [ reflexivity | ].
      rewrite length_app in Hlen. cbn in Hlen. lia. }
    destruct Hsplit as (front & now & r & -> & Hfront).
    assert (Hmid : exists app1, rateAll tz app front = Some app1 /\
                                rateAll tz app1 [(now, r)] = Some app').
    { clear Hlen Hfront Hc. revert app H.
      induction front as [|[n0 r0] front IH]; intros app H.
      - exists app. split; [ reflexivity | exact H ].
      - rewrite <- app_comm_cons in H. cbn [rateAll] in H |- *.
        destruct (rateCard tz n0 app r0) as [app0|]; [ | discriminate ].
        apply IH, H. }
    destruct Hmid as (app1 & Hfront1 & Hlast).
    destruct (rateAll_drains tz front app app1 card Hc Hfront1 ltac:(lia))
      as (Hq1 & _ & (c1 & Hc1) & _).
    cbn [rateAll] in Hlast.
    destruct (rateCard tz now app1 r) as [app2|] eqn:H2; [ | discriminate ].
    injection Hlast as <-.
    destruct (rateCard_inv _ _ _ _ _ _ H2 Hc1) as (_ & _ & _ & _ & _ & Hq2 & _ & Hf2 & _).
    rewrite Hfront, drop_all in Hq1. rewrite Hq1 in Hq2, Hf2.
    split; assumption.
Qed.

Lemma X5_session_drains_witness :
  currentCard twoCardSession = Some (default (runCard 0) (currentCard twoCardSession)) /\
  length (leitnerQueue twoCardSession) = 1%nat /\
  (forall app',
     rateAll 0 twoCardSession [(1728036000000, 3); (1728036000000, 4)] = Some app' ->
     leitnerQueue app' = [] /\ leitnerFinishedScreen app' = true) /\
  is_Some (rateAll 0 twoCardSession [(1728036000000, 3); (1728036000000, 4)]).
Proof.
  assert (Hc : currentCard twoCardSession =
               Some (default (runCard 0) (currentCard twoCardSession)))
    by (vm_compute; reflexivity).
  split; [ exact Hc | ]. split; [ vm_compute; reflexivity | ].
  split.
  - intros app' H.
    apply (X5_session_drains 0 [(1728036000000, 3); (1728036000000, 4)]
             twoCardSession app' _ Hc H).
    vm_compute; reflexivity.
  - vm_compute. eexists. reflexivity.
Defined.

(** Equality with plusZero and being above plusZero exclude each other. *)
Lemma seq_zero_not_gt v :
  js_seq v (num 0) = true -> js_gt v (num 0) = false.
Proof.
  destruct v as [| |x]; try discriminate.
  unfold js_seq, js_gt, Num.eqb, Num.ltb, SFeqb, SFltb. cbn [ToNumber].
  change (Num.ofZ 0) with (S754_zero false).
  destruct x as [s|[]| |[] m e]; cbn; congruence.
Qed.

Lemma stats_partition (q : list Card) :
  (length (filter (fun c => js_seq (repetitions c) (num 0) = true) q)
   + length (filter (fun c => js_gt (repetitions c) (num 0) = true) q)
   + length (filter (fun c => js_seq (repetitions c) (num 0) = false
                              /\ js_gt (repetitions c) (num 0) = false) q)
   = length q)%nat.
Proof.
  induction q as [|c q IH]; [ reflexivity | ].
  rewrite !filter_cons.
  destruct (js_seq (repetitions c) (num 0)) eqn:Hs.
  - rewrite (seq_zero_not_gt _ Hs).
    rewrite decide_True by reflexivity.
    rewrite decide_False by discriminate.
    rewrite decide_False by (intros [? _]; discriminate).
    cbn [length]. lia.
  - rewrite decide_False by discriminate.
    destruct (js_gt (repetitions c) (num 0)) eqn:Hg.
    + rewrite decide_True by reflexivity.
      rewrite decide_False by (intros [_ ?]; discriminate).
      cbn [length]. lia.
    + rewrite decide_False by discriminate.
      rewrite decide_True by (split; reflexivity).
      cbn [length]. lia.
Qed.

(** X6. What opening a review leaves. The first card of the queue that was
    built becomes the current card and the rest waits; when no card is due
    the finished screen is shown at once and the current card is left as it
    was. The two counters never count a card twice, and together they miss
    exactly the queued cards whose repetition count is neither 0 nor above
    0, such as a legacy card without the field. The store is not touched. *)
Theorem X6_open_review (shuffle : list Card -> list Card) (tz now : Z) (app : App)
    (chatId0 : option string) (scopeOverride : option Scope) :
  let app' := openLeitnerModal shuffle tz now app chatId0 scopeOverride in
  let queue := reviewQueue shuffle tz now (db app) (reviewScope app chatId0 scopeOverride) in
  db app' = db app /\
  currentLeitnerScope app' = reviewScope app chatId0 scopeOverride /\
  (queue = [] ->
   leitnerFinishedScreen app' = true /\ leitnerQueue app' = [] /\
   currentCard app' = currentCard app) /\
  (forall c rest, queue = c :: rest ->
   leitnerFinishedScreen app' = false /\ leitnerQueue app' = rest /\
   currentCard app' = Some c) /\
  (leitnerStatsNew app' + leitnerStatsDue app'
   + length (filter (fun c => js_seq (repetitions c) (num 0) = false
                              /\ js_gt (repetitions c) (num 0) = false) queue)
   = length queue)%nat.
Proof.
  cbv zeta. unfold openLeitnerModal.
  set (queue := reviewQueue shuffle tz now (db app) (reviewScope app chatId0 scopeOverride)).
  pose proof (stats_partition queue) as Hstats.
  destruct queue as [|c rest] eqn:Hq.
  - cbn. repeat split; try reflexivity; try discriminate.
  - assert (Hlen : (0 <? Z.of_nat (length (c :: rest))) = true)
      by (apply Z.ltb_lt; cbn [length]; lia).
    rewrite Hlen. unfold showNextCard.
    cbn [leitnerQueue db currentLeitnerScope leitnerFinishedScreen currentCard
         leitnerStatsNew leitnerStatsDue].
    split; [ reflexivity | ]. split; [ reflexivity | ].
    split; [ discriminate | ].
    split; [ intros c0 rest0 [= <- <-]; repeat split | exact Hstats ].
Qed.

Lemma X6_open_review_witness :
  reviewQueue reverse 0 1728036000000 (db runAdded) (reviewScope runAdded None (Some documentDoc1))
    = [runCard 1727950000000] /\
  leitnerFinishedScreen runOpened = false /\ leitnerQueue runOpened = [] /\
  currentCard runOpened = Some (runCard 1727950000000).
Proof.
  assert (Hq : reviewQueue reverse 0 1728036000000 (db runAdded)
                 (reviewScope runAdded None (Some documentDoc1))
               = [runCard 1727950000000]).
  { unfold runAdded. rewrite runCard_added.
    apply (runCard_queue reverse 0 1727950000000 1728036000000 reverse_perm). lia. }
  split; [ exact Hq | ].
  destruct (X6_open_review reverse 0 1728036000000 runAdded None (Some documentDoc1))
    as (_ & _ & _ & Hcons & _).
  apply (Hcons _ _ Hq).
Defined.

Lemma getScopeKey_nonempty S : getScopeKey S <> "".
Proof.
  unfold getScopeKey. destruct S as [sc|]; [ | discriminate ].
  destruct (truthy (type sc)) eqn:Ht; cbn [negb]; [ | discriminate ].
  destruct (truthy_Some_inv _ Ht) as (ty & Hty & Hne). rewrite Hty.
  rewrite (truthy_str_or ty "") by (rewrite <- Hty; exact Ht).
  destruct (String.eqb ty "global"); [ discriminate | ].
  destruct ty as [|a ty]; [ congruence | discriminate ].
Qed.

Lemma reviewFilter_own tz today key incl c d :
  scopeKey c = Some key -> key <> "" -> dueDate c = IsoDate d ->
  setHours0 tz d <= today ->
  reviewFilter tz today key incl c = true.
Proof.
  intros Hs Hne Hd Hle. unfold reviewFilter. rewrite Hs, Hd. cbn [truthy str_or newDate].
  apply String.eqb_neq in Hne. rewrite Hne. cbn [negb].
  rewrite String.eqb_refl. cbn [negb andb]. apply Z.leb_le, Hle.
Qed.

Lemma elem_of_getAll (store : gmap string Card) k c :
  store !! k = Some c -> c ∈ getAll store.
Proof.
  intros H. apply list_elem_of_fmap. exists (k, c). split; [ reflexivity | ].
  apply elem_of_map_to_list, H.
Qed.

Lemma elem_of_getAll_inv (store : gmap string Card) c :
  c ∈ getAll store -> exists k, store !! k = Some c.
Proof.
  intros H. apply list_elem_of_fmap in H as ([k c'] & -> & Hin).
  exists k. apply elem_of_map_to_list, Hin.
Qed.

Lemma truncate_small z :
  0 <= z <= 6 -> Num.truncate (ToNumber (num z)) = Some z.
Proof.
  intros Hz.
  assert (Hcases : z = 0 \/ z = 1 \/ z = 2 \/ z = 3 \/ z = 4 \/ z = 5 \/ z = 6) by lia.
  destruct Hcases as [-> | [-> | [-> | [-> | [-> | [-> | ->]]]]]]; reflexivity.
Qed.

(** The card that the rating of a card without repetitions stores, and the
    day it becomes due: the day of the rating plus [days]. *)
Lemma rate_new_card tz now app app' rating card days :
  rateCard tz now app rating = Some app' ->
  currentCard app = Some card ->
  ToBoolean (repetitions card) = false ->
  (rating = 1 \/ rating = 2) /\ days = 0 \/ rating = 3 /\ days = 1 \/ rating = 4 /\ days = 4 ->
  exists k c',
    id card = Some k /\ db app' !! k = Some c' /\ scopeKey c' = scopeKey card /\
    dueDate c' = IsoDate (setHours0 tz now + days * msPerDay).
Proof.
  intros H Hc Hnew Hr.
  destruct (rateCard_inv _ _ _ _ _ _ H Hc) as (k & d & Hk & Hd & Hdb & _).
  destruct (setDatePlus_inv _ _ _ Hd) as (n & Hn & Hdn & _).
  destruct (new_card_intervals card Hnew) as (H1 & H2 & H3 & H4).
  assert (Hn' : n = days).
  { destruct Hr as [[[-> | ->] ->] | [[-> ->] | [-> ->]]];
      [ rewrite H1 in Hn | rewrite H2 in Hn | rewrite H3 in Hn | rewrite H4 in Hn ];
      rewrite truncate_small in Hn by lia; congruence. }
  subst n.
  exists k, (updatedCard card (calculateSM2 card (qualityMap rating)) d now).
  split; [ exact Hk | ]. split; [ rewrite Hdb; apply lookup_insert_eq | ].
  split; [ reflexivity | ]. cbn [updatedCard dueDate]. rewrite Hdn. reflexivity.
Qed.

(** X7. Where a new card goes after its first rating. For a card without
    repetitions that belongs to the scope of the review: after Again or Hard
    the stored card is in every queue opened for that scope from the rating
    on, the same day included; after Good it is in no queue opened that day
    or before and in every queue opened from the next local midnight on;
    after Easy the same holds with the fourth midnight. *)
Theorem X7_new_card_after_rating (shuffle : list Card -> list Card) (tz now : Z)
    (app app' : App) (rating : Z) (card : Card) (S : option Scope) (days : Z) :
  (forall l, shuffle l ≡ₚ l) ->
  rateCard tz now app rating = Some app' ->
  currentCard app = Some card ->
  ToBoolean (repetitions card) = false ->
  scopeKey card = Some (getScopeKey S) ->
  (rating = 1 \/ rating = 2) /\ days = 0 \/ rating = 3 /\ days = 1 \/ rating = 4 /\ days = 4 ->
  exists k c',
    id card = Some k /\ db app' !! k = Some c' /\
    (forall now', setHours0 tz now + days * msPerDay <= now' ->
       c' ∈ reviewQueue shuffle tz now' (db app') S) /\
    (forall now', now' < setHours0 tz now + days * msPerDay ->
       c' ∉ reviewQueue shuffle tz now' (db app') S) /\
    (days = 0 -> forall now', now <= now' ->
       c' ∈ reviewQueue shuffle tz now' (db app') S) /\
    (0 < days -> forall now', setHours0 tz now' <= setHours0 tz now ->
       c' ∉ reviewQueue shuffle tz now' (db app') S).
Proof.
  intros Hperm H Hc Hnew Hs Hr.
  destruct (rate_new_card _ _ _ _ _ _ _ H Hc Hnew Hr) as (k & c' & Hk & Hc' & Hsk & Hd).
  exists k, c'. split; [ exact Hk | ]. split; [ exact Hc' | ].
  assert (Hin : forall now', setHours0 tz now + days * msPerDay <= now' ->
                  c' ∈ reviewQueue shuffle tz now' (db app') S).
  { intros now' Hle. apply elem_of_reviewQueue; [ exact Hperm | ].
    split; [ | eapply elem_of_getAll, Hc' ].
    eapply reviewFilter_own; [ rewrite Hsk; exact Hs | apply getScopeKey_nonempty | exact Hd | ].
    pose proof (setHours0_mono tz _ _ Hle) as Hm.
    rewrite setHours0_midnight in Hm |- *. exact Hm. }
  assert (Hout : forall now', now' < setHours0 tz now + days * msPerDay ->
                   c' ∉ reviewQueue shuffle tz now' (db app') S).
  { intros now' Hlt Hq. apply elem_of_reviewQueue in Hq; [ | exact Hperm ].
    destruct Hq as [Hf _].
    destruct (reviewFilter_inv _ _ _ _ _ Hf) as (s & d & _ & _ & _ & Hd' & Hle).
    rewrite Hd in Hd'. injection Hd' as <-.
    rewrite setHours0_midnight in Hle.
    pose proof (setHours0_le tz now'). lia. }
  split; [ exact Hin | ]. split; [ exact Hout | ]. split.
  - intros -> now' Hle. apply Hin. pose proof (setHours0_le tz now). lia.
  - intros Hpos now' Hle. apply Hout.
    pose proof (setHours0_le tz now') as Hl.
    assert (msPerDay <= days * msPerDay) by (unfold msPerDay; lia).
    assert (Hlt : now' < setHours0 tz now' + msPerDay).
    { unfold setHours0. pose proof (Z.mod_pos_bound (now' + tz) msPerDay).
      unfold msPerDay in *. lia. }
    lia.
Qed.

Lemma X7_new_card_after_rating_witness :
  (forall l : list Card, reverse l ≡ₚ l) /\
  rateCard 0 1728036000000 runOpened 3 = Some runRatedApp /\
  currentCard runOpened = Some (runCard 1727950000000) /\
  ToBoolean (repetitions (runCard 1727950000000)) = false /\
  scopeKey (runCard 1727950000000) = Some (getScopeKey (Some documentDoc1)) /\
  exists c', db runRatedApp !! "document:doc1:run" = Some c' /\
    (c' ∉ reviewQueue reverse 0 1728086399999 (db runRatedApp) (Some documentDoc1)) /\
    c' ∈ reviewQueue reverse 0 1728086400000 (db runRatedApp) (Some documentDoc1).
Proof.
  assert (H : rateCard 0 1728036000000 runOpened 3 = Some runRatedApp)
    by (vm_compute; reflexivity).
  assert (Hc : currentCard runOpened = Some (runCard 1727950000000))
    by (vm_compute; reflexivity).
  split; [ exact reverse_perm | ]. split; [ exact H | ]. split; [ exact Hc | ].
  split; [ reflexivity | ]. split; [ reflexivity | ].
  destruct (X7_new_card_after_rating reverse 0 1728036000000 runOpened runRatedApp 3
              (runCard 1727950000000) (Some documentDoc1) 1 reverse_perm H Hc
              eq_refl eq_refl (or_intror (or_introl (conj eq_refl eq_refl))))
    as (k & c' & Hk & Hdb & Hin & Hout & _).
  injection Hk as <-.
  exists c'. split; [ exact Hdb | ].
  split; [ apply Hout; vm_compute; reflexivity | apply Hin; vm_compute; discriminate ].
Defined.

(** ** The classifier on the cards that the application writes *)

Lemma added_card tts now0 app word0 S k c :
  k = getLeitnerCardId word0 (Some S) ->
  db app !! k = None ->
  db (addCurrentWordToLeitner tts now0 app word0 (Some S)) !! k = Some c ->
  c = {| id := Some k; word := Some (normalizeWord word0); chatId := None;
         scopeType := type S; scopeId := Some (str_or (sid S) "all");
         scopeKey := Some (getScopeKey (Some S)); createdAt := Some now0;
         dueDate := IsoDate now0; repetitions := num 0; interval := num 0;
         easeFactor := lit_2_5; lastReviewed := None; status := Some "new";
         migratedFromLegacy := false |} /\
  normalizeWord word0 <> "".
Proof.
  intros -> Hnone Hc. apply (add_lookup_new tts now0 app word0 S c Hnone Hc).
Qed.

(** X8. A card just added is due, never new. For the card that
    [addCurrentWordToLeitner] stores at time [now0], the classifier answers
    due at every later time up to 24 hours after [now0] and overdue after
    that; it does not answer new or scheduled, although the card has no
    repetitions. The queue of its own scope lists the card from [now0] on. *)
Theorem X8_added_card_is_due (shuffle : list Card -> list Card) (tz now0 now : Z)
    (app : App) (word0 : option string) (S : Scope) (c : Card) (tts : Speech) :
  (forall l, shuffle l ≡ₚ l) ->
  db app !! getLeitnerCardId word0 (Some S) = None ->
  db (addCurrentWordToLeitner tts now0 app word0 (Some S))
    !! getLeitnerCardId word0 (Some S) = Some c ->
  now0 <= now ->
  state (evaluateCardDueState (Some c) now) =
    (if now - now0 >? msPerDay then StOverdue else StDue) /\
  repetitions c = num 0 /\
  c ∈ reviewQueue shuffle tz now
        (db (addCurrentWordToLeitner tts now0 app word0 (Some S))) (Some S).
Proof.
  intros Hperm Hnone Hc Hle.
  destruct (added_card tts now0 app word0 S _ c eq_refl Hnone Hc) as [Heq _].
  split; [ | split ].
  - rewrite Heq. unfold evaluateCardDueState. cbn [dueDate newDate state].
    apply Z.leb_le in Hle. rewrite Hle. cbn [andb].
    destruct (now - now0 >? msPerDay); reflexivity.
  - rewrite Heq. reflexivity.
  - apply elem_of_reviewQueue; [ exact Hperm | ].
    split; [ | eapply elem_of_getAll, Hc ].
    eapply (reviewFilter_own _ _ _ _ _ now0);
      [ rewrite Heq; reflexivity | apply getScopeKey_nonempty
      | rewrite Heq; reflexivity | apply setHours0_mono, Hle ].
Qed.

Lemma X8_added_card_is_due_witness :
  (forall l : list Card, reverse l ≡ₚ l) /\
  db emptyApp !! getLeitnerCardId (Some "run") (Some documentDoc1) = None /\
  db runAdded !! getLeitnerCardId (Some "run") (Some documentDoc1)
    = Some (runCard 1727950000000) /\
  1727950000000 <= 1728036000000 /\
  state (evaluateCardDueState (Some (runCard 1727950000000)) 1728036000000) = StDue /\
  runCard 1727950000000 ∈
    reviewQueue reverse 0 1728036000000 (db runAdded) (Some documentDoc1).
Proof.
  assert (Hnone : db emptyApp !! getLeitnerCardId (Some "run") (Some documentDoc1) = None)
    by reflexivity.
  assert (Hc : db runAdded !! getLeitnerCardId (Some "run") (Some documentDoc1)
               = Some (runCard 1727950000000)) by (vm_compute; reflexivity).
  assert (Hle : 1727950000000 <= 1728036000000) by lia.
  split; [ exact reverse_perm | ]. split; [ exact Hnone | ]. split; [ exact Hc | ].
  split; [ exact Hle | ].
  destruct (X8_added_card_is_due reverse 0 1727950000000 1728036000000 emptyApp
              (Some "run") documentDoc1 (runCard 1727950000000) firstStart
              reverse_perm Hnone Hc Hle)
    as (Hst & _ & Hin).
  split; [ exact Hst | exact Hin ].
Defined.

Lemma lapse_result card r :
  r = 1 \/ r = 2 ->
  js_seq (priorRepetitions card) (num 0) = false ->
  newRepetitions (calculateSM2 card (qualityMap r)) = num 0 /\
  newInterval (calculateSM2 card (qualityMap r)) = num 1.
Proof.
  intros Hr Hrep. unfold priorRepetitions in Hrep. unfold calculateSM2.
  assert (Hlt : js_lt (qualityMap r) (num 3) = true)
    by (destruct Hr as [-> | ->]; reflexivity).
  rewrite Hlt, Hrep. split; reflexivity.
Qed.

(** X9. A lapsed card reads as new until it is due. When Again or Hard is
    given to a card that has repetitions, the stored card has repetitions 0,
    interval 1 and status "learning" and is due at the next local midnight;
    until then the classifier answers new for it, and from then on due, and
    overdue once more than 24 hours have passed since that midnight. *)
Theorem X9_lapsed_card_reads_as_new (tz now : Z) (app app' : App) (rating : Z)
    (card : Card) :
  rateCard tz now app rating = Some app' ->
  currentCard app = Some card ->
  rating = 1 \/ rating = 2 ->
  js_seq (priorRepetitions card) (num 0) = false ->
  exists k c',
    id card = Some k /\ db app' !! k = Some c' /\
    repetitions c' = num 0 /\ interval c' = num 1 /\ status c' = Some "learning" /\
    dueDate c' = IsoDate (setHours0 tz now + msPerDay) /\
    forall now',
      state (evaluateCardDueState (Some c') now') =
        if now' <? setHours0 tz now + msPerDay then StNew
        else if now' - (setHours0 tz now + msPerDay) >? msPerDay then StOverdue
        else StDue.
Proof.
  intros H Hc Hr Hrep.
  destruct (rateCard_inv _ _ _ _ _ _ H Hc) as (k & d & Hk & Hd & Hdb & _).
  destruct (setDatePlus_inv _ _ _ Hd) as (n & Hn & Hdn & _).
  destruct (lapse_result card rating Hr Hrep) as [Hreps Hint].
  rewrite Hint, (truncate_small 1) in Hn by lia. injection Hn as <-.
  rewrite Z.mul_1_l in Hdn. subst d.
  exists k, (updatedCard card (calculateSM2 card (qualityMap rating))
               (setHours0 tz now + msPerDay) now).
  split; [ exact Hk | ]. split; [ rewrite Hdb; apply lookup_insert_eq | ].
  cbn [updatedCard repetitions interval status dueDate]. rewrite Hreps, Hint.
  repeat (split; [ reflexivity | ]).
  intros now'. unfold evaluateCardDueState.
  cbn [updatedCard dueDate newDate state repetitions]. cbv beta iota zeta.
  rewrite Hreps. change (js_seq (num 0) (num 0)) with true.
  destruct (Z.ltb_spec now' (setHours0 tz now + msPerDay)) as [Hlt | Hge].
  - assert (Hle : (setHours0 tz now + msPerDay <=? now') = false) by (apply Z.leb_gt; lia).
    rewrite Hle. reflexivity.
  - apply Z.leb_le in Hge. rewrite Hge. cbn [andb].
    destruct (now' - (setHours0 tz now + msPerDay) >? msPerDay); reflexivity.
Qed.

Lemma X9_lapsed_card_reads_as_new_witness :
  currentCard runReopened = Some runReviewed /\
  js_seq (priorRepetitions runReviewed) (num 0) = false /\
  exists app' c',
    rateCard 0 1728300000000 runReopened 1 = Some app' /\
    db app' !! "document:doc1:run" = Some c' /\
    repetitions c' = num 0 /\ interval c' = num 1 /\
    state (evaluateCardDueState (Some c') 1728300000001) = StNew.
Proof.
  assert (Hc : currentCard runReopened = Some runReviewed) by (vm_compute; reflexivity).
  assert (Hp : js_seq (priorRepetitions runReviewed) (num 0) = false)
    by (vm_compute; reflexivity).
  assert (H : rateCard 0 1728300000000 runReopened 1 =
              Some (default emptyApp (rateCard 0 1728300000000 runReopened 1)))
    by (vm_compute; reflexivity).
  split; [ exact Hc | ]. split; [ exact Hp | ].
  destruct (X9_lapsed_card_reads_as_new 0 1728300000000 runReopened _ 1 runReviewed
              H Hc (or_introl eq_refl) Hp)
    as (k & c' & Hk & Hdb & Hr & Hi & _ & _ & Hst).
  assert (Hk' : k = "document:doc1:run")
    by (assert (Hid : id runReviewed = Some "document:doc1:run")
          by (vm_compute; reflexivity);
        rewrite Hid in Hk; injection Hk as <-; reflexivity).
  subst k.
  eexists _, c'. split; [ exact H | ]. split; [ exact Hdb | ].
  split; [ exact Hr | ]. split; [ exact Hi | ].
  rewrite (Hst 1728300000001). vm_compute; reflexivity.
Defined.

(** ** The cards of a scope *)

Lemma filter_app_disjoint {A} (P Q : A -> Prop) `{!forall x, Decision (P x)}
    `{!forall x, Decision (Q x)} (l : list A) :
  (forall x, P x -> Q x -> False) ->
  filter P l ++ filter Q l ≡ₚ filter (fun x => P x \/ Q x) l.
Proof.
  intros Hdis. induction l as [|x l IH]; [ reflexivity | ].
  rewrite !filter_cons.
  destruct (decide (P x)) as [HP|HP]; destruct (decide (Q x)) as [HQ|HQ].
  - exfalso. eauto.
  - rewrite decide_True by (left; exact HP). cbn. rewrite IH. reflexivity.
  - rewrite decide_True by (right; exact HQ).
    rewrite <- Permutation_middle. rewrite IH. reflexivity.
  - rewrite decide_False by (intros [?|?]; contradiction). exact IH.
Qed.

Lemma cards_of_scope_perm (store : gmap string Card) (S : option Scope) :
  getLeitnerCardsByScope store S true ≡ₚ
    filter (fun c => scopeKey c = Some (getScopeKey S) \/ scopeKey c = Some "global:all")
           (getAll store).
Proof.
  unfold getLeitnerCardsByScope. cbv zeta. cbn [andb].
  destruct (String.eqb (getScopeKey S) "global:all") eqn:Hk; cbn [negb].
  - apply String.eqb_eq in Hk. rewrite Hk.
    apply eq_subrelation; [ typeclasses eauto | ].
    apply list_filter_iff. intros c. tauto.
  - apply String.eqb_neq in Hk.
    apply filter_app_disjoint. intros c H1 H2. congruence.
Qed.

(** X10. The cards of a scope. With the global cards asked for,
    [getLeitnerCardsByScope] lists the stored cards whose scope key is that
    of the scope or "global:all", each as often as the store holds it and
    none twice, also when the scope is the global one; without them it lists
    the cards of the scope alone. *)
Theorem X10_cards_of_scope (store : gmap string Card) (S : option Scope) :
  getLeitnerCardsByScope store S true ≡ₚ
    filter (fun c => scopeKey c = Some (getScopeKey S) \/ scopeKey c = Some "global:all")
           (getAll store) /\
  getLeitnerCardsByScope store S false =
    filter (fun c => scopeKey c = Some (getScopeKey S)) (getAll store) /\
  (forall c incl,
     c ∈ getLeitnerCardsByScope store S incl <->
     c ∈ getAll store /\
     (scopeKey c = Some (getScopeKey S) \/
      (incl = true /\ scopeKey c = Some "global:all"))).
Proof.
  pose proof (cards_of_scope_perm store S) as Hperm.
  split; [ exact Hperm | ]. split; [ reflexivity | ].
  intros c [|].
  - rewrite Hperm, list_elem_of_filter. split.
    + intros [[H|H] Hin]; auto.
    + intros [Hin [H|[_ H]]]; auto.
  - unfold getLeitnerCardsByScope. cbn [andb]. rewrite list_elem_of_filter. split.
    + intros [H Hin]; auto.
    + intros [Hin [H|[H _]]]; [ auto | discriminate ].
Qed.

Lemma X10_cards_of_scope_witness :
  exists c, db appleAndRun !! "global:all:run" = Some c /\
            c ∈ getLeitnerCardsByScope (db appleAndRun) (Some chatA) true /\
            c ∉ getLeitnerCardsByScope (db appleAndRun) (Some chatA) false.
Proof.
  destruct (X10_cards_of_scope (db appleAndRun) (Some chatA)) as (_ & _ & Hiff).
  eexists. split; [ vm_compute; reflexivity | ]. split.
  - apply Hiff. split; [ apply (elem_of_getAll _ "global:all:run"); vm_compute; reflexivity | ].
    right. split; reflexivity.
  - intros Hin. apply Hiff in Hin as [_ [Hk | [Hf _]]]; discriminate.
Defined.

Lemma dueByDay_spec tz now c :
  dueByDay tz now c = true <->
  exists d, dueDate c = IsoDate d /\ setHours0 tz d <= setHours0 tz now.
Proof.
  unfold dueByDay. destruct (dueDate c) as [| |d]; cbn [newDate].
  - split; [ discriminate | intros (d & H & _); discriminate ].
  - split; [ discriminate | intros (d & H & _); discriminate ].
  - rewrite Z.leb_le. split.
    + intros H. exists d. split; [ reflexivity | exact H ].
    + intros (d' & [= <-] & H). exact H.
Qed.

Lemma reviewFilter_spec tz now S c :
  reviewFilter tz (setHours0 tz now) (getScopeKey S)
    (negb (String.eqb (getScopeKey S) "global:all")) c = true <->
  (scopeKey c = Some (getScopeKey S) \/ scopeKey c = Some "global:all") /\
  dueByDay tz now c = true.
Proof.
  rewrite dueByDay_spec. split.
  - intros Hf.
    destruct (reviewFilter_inv _ _ _ _ _ Hf) as (s & d & Hs & _ & Hk & Hd & Hle).
    split; [ | exists d; split; assumption ].
    destruct Hk as [-> | [_ ->]]; [ left | right ]; exact Hs.
  - intros [[Hs|Hs] (d & Hd & Hle)].
    + eapply reviewFilter_own; eauto. apply getScopeKey_nonempty.
    + eapply reviewFilter_global; eauto.
Qed.

(** X11. The review queue is the due part of the cards of the scope: the
    queue that [openLeitnerModal] builds is a rearrangement of the cards
    that [getLeitnerCardsByScope] lists for the scope, global cards included,
    and that pass the date test of the queue. *)
Theorem X11_queue_is_due_part_of_scope (shuffle : list Card -> list Card) (tz now : Z)
    (store : gmap string Card) (S : option Scope) :
  (forall l, shuffle l ≡ₚ l) ->
  reviewQueue shuffle tz now store S ≡ₚ
    filter (fun c => dueByDay tz now c = true) (getLeitnerCardsByScope store S true).
Proof.
  intros Hperm. rewrite (cards_of_scope_perm store S). unfold reviewQueue. cbv zeta. rewrite (Hperm _).
  rewrite list_filter_filter.
  apply eq_subrelation; [ typeclasses eauto | ].
  apply list_filter_iff. intros c. rewrite reviewFilter_spec. tauto.
Qed.

Lemma X11_queue_is_due_part_of_scope_witness :
  (forall l : list Card, reverse l ≡ₚ l) /\
  reviewQueue reverse 0 1728036000000 (db appleAndRun) (Some chatA) ≡ₚ
    filter (fun c => dueByDay 0 1728036000000 c = true)
           (getLeitnerCardsByScope (db appleAndRun) (Some chatA) true).
Proof.
  split; [ exact reverse_perm | ].
  apply (X11_queue_is_due_part_of_scope reverse 0 1728036000000 (db appleAndRun)
           (Some chatA) reverse_perm).
Defined.

(** ** The due-state cache *)

Lemma cache_fold_none now (cards : list Card) :
  forall (cache : gmap string DueInfo) k,
    (forall c, c ∈ cards -> wordKey c <> k) ->
    foldl (fun cache card => <[wordKey card := evaluateCardDueState (Some card) now]> cache)
          cache cards !! k = cache !! k.
Proof.
  induction cards as [|c cards IH]; intros cache k Hno; [ reflexivity | ].
  cbn [foldl]. rewrite IH by (intros c' Hin; apply Hno; right; exact Hin).
  apply lookup_insert_ne. apply Hno. left.
Qed.

Lemma cache_fold_some now (cards : list Card) :
  forall (cache : gmap string DueInfo) k info,
    (exists c, c ∈ cards /\ wordKey c = k) ->
    (forall c, c ∈ cards -> wordKey c = k -> evaluateCardDueState (Some c) now = info) ->
    foldl (fun cache card => <[wordKey card := evaluateCardDueState (Some card) now]> cache)
          cache cards !! k = Some info.
Proof.
  induction cards as [|c cards IH]; intros cache k info (c0 & Hin & Hk) Hall.
  - inversion Hin.
  - cbn [foldl].
    destruct (decide (Exists (fun c' => wordKey c' = k) cards)) as [Hex|Hnex].
    + apply Exists_exists in Hex as (c1 & Hin1 & Hk1).
      apply IH; [ exists c1; split; assumption | ].
      intros c' Hin' Hk'. apply Hall; [ right; exact Hin' | exact Hk' ].
    + rewrite cache_fold_none.
      * apply elem_of_cons in Hin as [<- | Hin].
        -- rewrite Hk, lookup_insert_eq. f_equal. apply Hall; [ left | exact Hk ].
        -- exfalso. apply Hnex, Exists_exists. exists c0. split; assumption.
      * intros c' Hin' Hk'. apply Hnex, Exists_exists. exists c'. split; assumption.
Qed.

Lemma cache_fold_inv now (cards : list Card) :
  forall (cache : gmap string DueInfo) k info,
    foldl (fun cache card => <[wordKey card := evaluateCardDueState (Some card) now]> cache)
          cache cards !! k = Some info ->
    cache !! k = Some info \/
    exists c, c ∈ cards /\ wordKey c = k /\ info = evaluateCardDueState (Some c) now.
Proof.
  induction cards as [|c cards IH]; intros cache k info H; [ left; exact H | ].
  cbn [foldl] in H. apply IH in H as [H | (c' & Hin & Hk & Hi)].
  - destruct (decide (wordKey c = k)) as [Hk | Hk].
    + rewrite Hk, lookup_insert_eq in H. injection H as <-.
      right. exists c. split; [ left | ]. split; [ exact Hk | reflexivity ].
    + rewrite lookup_insert_ne in H by exact Hk. left. exact H.
  - right. exists c'. split; [ right; exact Hin | ]. split; assumption.
Qed.

Lemma preloadGlobalCards_noop now (globalCards : list Card) :
  forall cache : gmap string DueInfo,
    (forall c, c ∈ globalCards -> is_Some (cache !! ("global:all:" +:+ tmpl (word c)))) ->
    preloadGlobalCards now globalCards cache = cache.
Proof.
  unfold preloadGlobalCards.
  induction globalCards as [|c gl IH]; intros cache Hall; [ reflexivity | ].
  cbn [foldl]. cbv zeta.
  destruct (Hall c ltac:(left)) as [info Hinfo]. rewrite Hinfo.
  apply IH. intros c' Hin. apply Hall. right. exact Hin.
Qed.

Lemma wordKey_global c :
  scopeKey c = Some "global:all" -> wordKey c = "global:all:" +:+ tmpl (word c).
Proof. unfold wordKey. intros ->. reflexivity. Qed.

Lemma cache_fold_keeps now (cards : list Card) :
  forall (cache : gmap string DueInfo) k,
    is_Some (cache !! k) ->
    is_Some (foldl (fun cache card =>
                      <[wordKey card := evaluateCardDueState (Some card) now]> cache)
                   cache cards !! k).
Proof.
  induction cards as [|c cards IH]; intros cache k Hk; [ exact Hk | ].
  cbn [foldl]. apply IH.
  destruct (decide (wordKey c = k)) as [-> | Hne].
  - rewrite lookup_insert_eq. eauto.
  - rewrite lookup_insert_ne by exact Hne. exact Hk.
Qed.

Lemma cache_fold_has now (cards : list Card) :
  forall (cache : gmap string DueInfo) c,
    c ∈ cards ->
    is_Some (foldl (fun cache card =>
                      <[wordKey card := evaluateCardDueState (Some card) now]> cache)
                   cache cards !! wordKey c).
Proof.
  induction cards as [|c' cards IH]; intros cache c Hin; [ inversion Hin | ].
  cbn [foldl]. apply elem_of_cons in Hin as [-> | Hin]; [ | apply IH, Hin ].
  apply cache_fold_keeps. rewrite lookup_insert_eq. eauto.
Qed.

Lemma preload_is_first_loop now (store : gmap string Card) (S : Scope) :
  preloadLeitnerForScope now store S =
    preloadScopeCards now (getLeitnerCardsByScope store (Some S) true).
Proof.
  unfold preloadLeitnerForScope. cbv zeta.
  destruct (negb (bool_decide (type S = Some "global"))); [ | reflexivity ].
  apply preloadGlobalCards_noop. intros c Hin.
  apply list_elem_of_filter in Hin as [Hg Hin].
  rewrite <- (wordKey_global c Hg).
  apply cache_fold_has, Hin.
Qed.

(** X12. The due-state cache after a preload. The second loop of
    [preloadLeitnerForScope], over the global cards, never adds an entry:
    the first loop has already filed each global card under the same key.
    The cache holds an entry for every card listed for the scope, under the
    key made of the card's scope key and word, and every entry is the state,
    at the time of the preload, of a listed card with that key; no entry has
    the state none. *)
Theorem X12_preload_cache (now : Z) (store : gmap string Card) (S : Scope) :
  let cards := getLeitnerCardsByScope store (Some S) true in
  let cache := preloadLeitnerForScope now store S in
  cache = preloadScopeCards now cards /\
  (forall c, c ∈ cards -> is_Some (cache !! wordKey c)) /\
  (forall k info, cache !! k = Some info ->
     exists c, c ∈ cards /\ wordKey c = k /\
               info = evaluateCardDueState (Some c) now /\
               infoCard info = Some c /\ state info <> StNone).
Proof.
  cbv zeta. rewrite preload_is_first_loop.
  split; [ reflexivity | ]. split.
  - intros c Hin. apply cache_fold_has, Hin.
  - intros k info H. unfold preloadScopeCards in H.
    apply cache_fold_inv in H as [H | (c & Hin & Hk & Hi)];
      [ rewrite lookup_empty in H; discriminate | ].
    exists c. split; [ exact Hin | ]. split; [ exact Hk | ]. split; [ exact Hi | ].
    subst info. split; [ reflexivity | ].
    unfold evaluateCardDueState. cbn [state].
    repeat match goal with
           | |- context [if ?b then _ else _] => destruct b
           end; discriminate.
Qed.

Lemma X12_preload_cache_witness :
  exists c, db appleAndRun !! "global:all:run" = Some c /\
            c ∈ getLeitnerCardsByScope (db appleAndRun) (Some chatA) true /\
            is_Some (preloadLeitnerForScope 1728036000000 (db appleAndRun) chatA
                       !! wordKey c).
Proof.
  destruct (X12_preload_cache 1728036000000 (db appleAndRun) chatA) as (_ & Hall & _).
  assert (Hin : default (runCard 0) (db appleAndRun !! "global:all:run")
                ∈ getLeitnerCardsByScope (db appleAndRun) (Some chatA) true).
  { rewrite cards_of_scope_perm. apply list_elem_of_filter. split.
    - right. reflexivity.
    - apply (elem_of_getAll _ "global:all:run"). vm_compute; reflexivity. }
  eexists. split; [ vm_compute; reflexivity | ]. split; [ exact Hin | ].
  apply Hall, Hin.
Defined.

(** ** Ids made of scope key and word *)

Lemma wellKeyed_insert (store : gmap string Card) k c :
  wellKeyed store -> id c = Some k -> cardKeyed c -> wellKeyed (<[k := c]> store).
Proof.
  intros Hw Hid Hc k' c' H.
  destruct (decide (k = k')) as [<- | Hne].
  - rewrite lookup_insert_eq in H. injection H as <-. split; assumption.
  - rewrite lookup_insert_ne in H by exact Hne. apply Hw, H.
Qed.

Lemma add_keeps_keys tts now app word0 scope :
  wellKeyed (db app) -> wellKeyed (db (addCurrentWordToLeitner tts now app word0 scope)).
Proof.
  intros Hw. rewrite add_db.
  destruct (String.eqb (normalizeWord word0) "") eqn:Hne; [ exact Hw | ].
  apply String.eqb_neq in Hne.
  destruct (targetScopeFor app scope) as [ts|]; [ | exact Hw ].
  destruct (db app !! _) as [c|]; [ exact Hw | ].
  apply wellKeyed_insert; [ exact Hw | reflexivity | ].
  exists (getScopeKey (Some ts)), (normalizeWord word0).
  unfold addedCard. cbn [scopeKey word id].
  split; [ reflexivity | ]. split; [ reflexivity | ].
  split; [ apply getScopeKey_nonempty | ]. split; [ exact Hne | ].
  reflexivity.
Qed.

Lemma add_keeps_session tts now app word0 scope :
  leitnerQueue (addCurrentWordToLeitner tts now app word0 scope) = leitnerQueue app /\
  currentCard (addCurrentWordToLeitner tts now app word0 scope) = currentCard app.
Proof.
  destruct (add_frame tts now app word0 scope) as (_ & _ & _ & _ & Hq & Hc & _).
  split; [ exact Hq | exact Hc ].
Qed.

Lemma migrated_keyed now v : truthy (word v) = true -> cardKeyed (migrated now v).
Proof.
  intros Hw. destruct (truthy_Some_inv _ Hw) as (w & Hword & Hne).
  unfold cardKeyed, migrated, migratedKey. cbn [scopeKey word id].
  eexists _, w. split; [ reflexivity | ]. split; [ exact Hword | ].
  split; [ destruct (truthy (chatId v)); discriminate | ].
  split; [ exact Hne | ].
  rewrite Hword, (truthy_str_or w "") by (rewrite <- Hword; exact Hw). reflexivity.
Qed.

Lemma migrate_keeps_keys L :
  forall clock (store : gmap string Card),
    wellKeyed store -> wellKeyed (migrateLegacy clock L store).
Proof.
  induction L as [|v L IH]; intros clock store Hw; [ exact Hw | ].
  cbn [migrateLegacy]. apply IH.
  destruct (truthy (word v)) eqn:Hword.
  - rewrite migrateCard_put by exact Hword.
    apply wellKeyed_insert; [ exact Hw | reflexivity | apply migrated_keyed, Hword ].
  - rewrite migrateCard_skip by exact Hword. exact Hw.
Qed.

Lemma updated_keyed card sm2 d now : cardKeyed card -> cardKeyed (updatedCard card sm2 d now).
Proof. intros H. exact H. Qed.

Lemma rate_keeps_keys tz now app rating app' :
  sessionKeyed app -> rateCard tz now app rating = Some app' -> sessionKeyed app'.
Proof.
  intros (Hw & Hcur & Hq) H.
  destruct (currentCard app) as [card|] eqn:Hc.
  2:{ unfold rateCard in H. rewrite Hc in H. injection H as <-.
      split; [ exact Hw | ]. split; [ rewrite Hc; discriminate | exact Hq ]. }
  destruct (rateCard_inv _ _ _ _ _ _ H Hc) as (k & d & Hk & _ & Hdb & Hq' & Hc' & _).
  split; [ | split ].
  - rewrite Hdb. apply wellKeyed_insert; [ exact Hw | exact Hk | ].
    apply updated_keyed, Hcur. reflexivity.
  - intros c. rewrite Hc'.
    destruct (leitnerQueue app) as [|c0 rest]; intros [= <-].
    + apply Hcur. reflexivity.
    + inversion Hq; assumption.
  - rewrite Hq'. destruct (leitnerQueue app) as [|c0 rest]; [ constructor | ].
    inversion Hq; assumption.
Qed.

Lemma open_keeps_keys shuffle tz now app chatId0 scopeOverride :
  (forall l, shuffle l ≡ₚ l) ->
  sessionKeyed app ->
  sessionKeyed (openLeitnerModal shuffle tz now app chatId0 scopeOverride).
Proof.
  intros Hperm (Hw & Hcur & _).
  assert (Hall : Forall cardKeyed
            (reviewQueue shuffle tz now (db app) (reviewScope app chatId0 scopeOverride))).
  { apply Forall_forall. intros c Hin.
    apply elem_of_reviewQueue in Hin as [_ Hin]; [ | exact Hperm ].
    apply elem_of_getAll_inv in Hin as [k Hk]. apply (Hw k c Hk). }
  unfold openLeitnerModal.
  destruct (reviewQueue shuffle tz now (db app) (reviewScope app chatId0 scopeOverride))
    as [|c rest].
  - cbn. split; [ exact Hw | ]. split; [ exact Hcur | constructor ].
  - cbn. inversion Hall; subst.
    split; [ exact Hw | ]. split; [ intros c0 [= <-]; assumption | assumption ].
Qed.

(** X13. Ids stay made of scope key and word. If every stored card is kept
    under its own id and that id is its scope key, a colon and its word, and
    the cards of the session are of that kind too, then the same holds after
    a word is added, after a review is opened, after a rating, and after the
    legacy migration; the empty store is of that kind. Adding a word leaves
    the session's queue and current card alone. *)
Theorem X13_ids_stay_keyed :
  wellKeyed ∅ /\
  (forall tts now app word0 scope,
     sessionKeyed app -> sessionKeyed (addCurrentWordToLeitner tts now app word0 scope)) /\
  (forall shuffle tz now app chatId0 scopeOverride,
     (forall l, shuffle l ≡ₚ l) -> sessionKeyed app ->
     sessionKeyed (openLeitnerModal shuffle tz now app chatId0 scopeOverride)) /\
  (forall tz now app rating app',
     sessionKeyed app -> rateCard tz now app rating = Some app' -> sessionKeyed app') /\
  (forall clock oldStore (store : gmap string Card),
     wellKeyed store -> wellKeyed (migrateLegacy clock oldStore store)).
Proof.
  split; [ intros k c H; rewrite lookup_empty in H; discriminate | ].
  split; [ | split; [ | split ] ].
  - intros tts now app word0 scope (Hw & Hcur & Hq).
    destruct (add_keeps_session tts now app word0 scope) as [Hq' Hc'].
    split; [ apply add_keeps_keys, Hw | ]. rewrite Hq', Hc'. split; assumption.
  - intros. apply open_keeps_keys; assumption.
  - intros. eapply rate_keeps_keys; eassumption.
  - intros. apply migrate_keeps_keys. assumption.
Qed.

Lemma X13_ids_stay_keyed_witness :
  sessionKeyed emptyApp /\ sessionKeyed appleAdded /\
  (forall l : list Card, reverse l ≡ₚ l) /\
  sessionKeyed (openLeitnerModal reverse 0 1728036000000 appleAdded (Some "A") None).
Proof.
  destruct X13_ids_stay_keyed as (_ & Hadd & Hopen & _).
  split; [ exact emptyApp_session | ].
  split; [ apply Hadd, emptyApp_session | ].
  split; [ exact reverse_perm | ].
  apply (Hopen _ _ _ _ _ _ reverse_perm), Hadd, emptyApp_session.
Defined.

Lemma appleAndRun_keyed : wellKeyed (db appleAndRun).
Proof. do 2 apply add_keeps_keys. apply empty_keyed. Qed.

Lemma appleAdded_keyed : wellKeyed (db appleAdded).
Proof. apply add_keeps_keys, empty_keyed. Qed.

(** ** The highlight of a word *)

Lemma keyed_wordKey (store : gmap string Card) k c :
  wellKeyed store -> store !! k = Some c -> wordKey c = k.
Proof.
  intros Hw H. destruct (Hw k c H) as (Hid & sk & w & Hs & Hword & _ & _ & Hid').
  unfold wordKey. rewrite Hs, Hword. cbn [tmpl]. congruence.
Qed.

Lemma cache_of_stored now (store : gmap string Card) (S : Scope) k c :
  wellKeyed store -> store !! k = Some c ->
  scopeKey c = Some (getScopeKey (Some S)) \/ scopeKey c = Some "global:all" ->
  preloadLeitnerForScope now store S !! k = Some (evaluateCardDueState (Some c) now).
Proof.
  intros Hw H Hs. rewrite preload_is_first_loop. unfold preloadScopeCards.
  apply cache_fold_some.
  - exists c. split; [ | eapply keyed_wordKey; eassumption ].
    rewrite cards_of_scope_perm. apply list_elem_of_filter.
    split; [ exact Hs | eapply elem_of_getAll, H ].
  - intros c' Hin Hk. f_equal. f_equal.
    rewrite cards_of_scope_perm in Hin. apply list_elem_of_filter in Hin as [_ Hin].
    apply elem_of_getAll_inv in Hin as [k' H'].
    rewrite (keyed_wordKey store k' c' Hw H') in Hk. subst k'. congruence.
Qed.

Lemma cache_of_absent now (store : gmap string Card) (S : Scope) k :
  wellKeyed store -> store !! k = None ->
  preloadLeitnerForScope now store S !! k = None.
Proof.
  intros Hw H. rewrite preload_is_first_loop. unfold preloadScopeCards.
  rewrite cache_fold_none; [ apply lookup_empty | ].
  intros c Hin Hk.
  rewrite cards_of_scope_perm in Hin. apply list_elem_of_filter in Hin as [_ Hin].
  apply elem_of_getAll_inv in Hin as [k' H'].
  rewrite (keyed_wordKey store k' c Hw H') in Hk. subst k'. congruence.
Qed.

Lemma word_state_lookup (now : Z) (store : gmap string Card) (app : App)
    (word0 : option string) (S : Scope) :
  wellKeyed store ->
  let cache := preloadLeitnerForScope now store S in
  let answer := getWordLeitnerState cache app word0 (Some S) in
  let primaryKey := getLeitnerCardId word0 (Some S) in
  let globalKey := getLeitnerCardId word0 (Some getGlobalScope) in
  (normalizeWord word0 = "" -> answer = noDueInfo) /\
  (normalizeWord word0 <> "" ->
   (forall c, store !! primaryKey = Some c ->
      scopeKey c = Some (getScopeKey (Some S)) ->
      answer = evaluateCardDueState (Some c) now) /\
   (forall g, store !! primaryKey = None -> store !! globalKey = Some g ->
      scopeKey g = Some "global:all" ->
      answer = evaluateCardDueState (Some g) now) /\
   (store !! primaryKey = None -> store !! globalKey = None ->
      answer = noDueInfo)).
Proof.
  intros Hw. cbv zeta. unfold getWordLeitnerState. split.
  - intros ->. reflexivity.
  - intros Hne. apply String.eqb_neq in Hne. rewrite Hne.
    cbn [targetScopeFor].
    change (getScopeKey (Some S) +:+ ":" +:+ normalizeWord word0)
      with (getLeitnerCardId word0 (Some S)).
    change ("global:all:" +:+ normalizeWord word0)
      with (getLeitnerCardId word0 (Some getGlobalScope)).
    split; [ | split ].
    + intros c Hc Hs.
      rewrite (cache_of_stored now store S _ c Hw Hc) by (left; exact Hs). reflexivity.
    + intros g Hnone Hg Hs.
      rewrite (cache_of_absent now store S _ Hw Hnone).
      rewrite (cache_of_stored now store S _ g Hw Hg) by (right; exact Hs). reflexivity.
    + intros Hnone Hgnone.
      rewrite (cache_of_absent now store S _ Hw Hnone).
      rewrite (cache_of_absent now store S _ Hw Hgnone). reflexivity.
Qed.

(** X14. The highlight of a word, with its global fallback. Over a store
    whose ids are made of scope key and word, after the preload for scope
    [S], [getWordLeitnerState] answers for a word: the state of the card
    stored for the word in [S], if there is one; else the state of the
    global card for the word, if there is one; else, and for an empty word,
    the state none. The word is looked up in its normalised form. *)
Theorem X14_word_state_lookup (now : Z) (store : gmap string Card) (app : App)
    (word0 : option string) (S : Scope) :
  wellKeyed store ->
  let cache := preloadLeitnerForScope now store S in
  let answer := getWordLeitnerState cache app word0 (Some S) in
  let primaryKey := getLeitnerCardId word0 (Some S) in
  let globalKey := getLeitnerCardId word0 (Some getGlobalScope) in
  (normalizeWord word0 = "" -> answer = noDueInfo) /\
  (normalizeWord word0 <> "" ->
   (forall c, store !! primaryKey = Some c ->
      scopeKey c = Some (getScopeKey (Some S)) ->
      answer = evaluateCardDueState (Some c) now) /\
   (forall g, store !! primaryKey = None -> store !! globalKey = Some g ->
      scopeKey g = Some "global:all" ->
      answer = evaluateCardDueState (Some g) now) /\
   (store !! primaryKey = None -> store !! globalKey = None ->
      answer = noDueInfo)).
Proof.
  apply word_state_lookup.
Qed.

Lemma X14_word_state_lookup_witness :
  wellKeyed (db appleAndRun) /\
  normalizeWord (Some "Run ") <> "" /\
  db appleAndRun !! getLeitnerCardId (Some "Run ") (Some chatA) = None /\
  exists g,
    db appleAndRun !! getLeitnerCardId (Some "Run ") (Some getGlobalScope) = Some g /\
    scopeKey g = Some "global:all" /\
    getWordLeitnerState (preloadLeitnerForScope 1728036000000 (db appleAndRun) chatA)
      appleAndRun (Some "Run ") (Some chatA)
    = evaluateCardDueState (Some g) 1728036000000.
Proof.
  assert (Hw : normalizeWord (Some "Run ") <> "") by (vm_compute; discriminate).
  assert (Hnone : db appleAndRun !! getLeitnerCardId (Some "Run ") (Some chatA) = None)
    by (vm_compute; reflexivity).
  assert (Hg : db appleAndRun !! getLeitnerCardId (Some "Run ") (Some getGlobalScope)
               = Some (default (runCard 0) (db appleAndRun !! "global:all:run")))
    by (vm_compute; reflexivity).
  split; [ exact appleAndRun_keyed | ]. split; [ exact Hw | ]. split; [ exact Hnone | ].
  destruct (X14_word_state_lookup 1728036000000 (db appleAndRun) appleAndRun
              (Some "Run ") chatA appleAndRun_keyed) as [_ Hfound].
  destruct (Hfound Hw) as (_ & Hglobal & _).
  eexists. split; [ exact Hg | ]. split; [ vm_compute; reflexivity | ].
  apply (Hglobal _ Hnone Hg). vm_compute; reflexivity.
Defined.

(** X15. A word just added is highlighted as due. Over a store whose ids are
    made of scope key and word: once a word has been added for scope [S] and
    the cache has been preloaded for [S], as the refresh after the add does,
    [getWordLeitnerState] answers for the word with the new card and the
    state due, or overdue when more than 24 hours have passed since the
    add. *)
Theorem X15_added_word_is_highlighted (now0 now : Z) (app : App)
    (word0 : option string) (S : Scope) (c : Card) (tts : Speech) :
  wellKeyed (db app) ->
  db app !! getLeitnerCardId word0 (Some S) = None ->
  let app1 := addCurrentWordToLeitner tts now0 app word0 (Some S) in
  db app1 !! getLeitnerCardId word0 (Some S) = Some c ->
  now0 <= now ->
  let answer :=
    getWordLeitnerState (preloadLeitnerForScope now (db app1) S) app1 word0 (Some S) in
  infoCard answer = Some c /\
  state answer = (if now - now0 >? msPerDay then StOverdue else StDue).
Proof.
  intros Hw Hnone app1 Hc Hle. cbv zeta.
  destruct (added_card tts now0 app word0 S _ c eq_refl Hnone Hc) as [Heq Hne].
  pose proof (add_keeps_keys tts now0 app word0 (Some S) Hw) as Hw1.
  destruct (word_state_lookup now (db app1) app1 word0 S Hw1) as [_ H].
  destruct (H Hne) as (H1 & _).
  rewrite (H1 c Hc) by (rewrite Heq; reflexivity).
  split; [ reflexivity | ].
  rewrite Heq. unfold evaluateCardDueState. cbn [dueDate newDate state].
  apply Z.leb_le in Hle. rewrite Hle. cbn [andb].
  destruct (now - now0 >? msPerDay); reflexivity.
Qed.

Lemma X15_added_word_is_highlighted_witness :
  wellKeyed (db appleAdded) /\
  db appleAdded !! getLeitnerCardId (Some "run") (Some getGlobalScope) = None /\
  1727950000000 <= 1728036000000 /\
  exists c,
    db appleAndRun !! getLeitnerCardId (Some "run") (Some getGlobalScope) = Some c /\
    let answer :=
      getWordLeitnerState
        (preloadLeitnerForScope 1728036000000 (db appleAndRun) getGlobalScope)
        appleAndRun (Some "run") (Some getGlobalScope) in
    infoCard answer = Some c /\ state answer = StDue.
Proof.
  assert (Hnone : db appleAdded !! getLeitnerCardId (Some "run") (Some getGlobalScope) = None)
    by (vm_compute; reflexivity).
  assert (Hc : db appleAndRun !! getLeitnerCardId (Some "run") (Some getGlobalScope)
               = Some (default (runCard 0) (db appleAndRun !! "global:all:run")))
    by (vm_compute; reflexivity).
  assert (Hle : 1727950000000 <= 1728036000000) by lia.
  split; [ exact appleAdded_keyed | ]. split; [ exact Hnone | ]. split; [ exact Hle | ].
  eexists. split; [ exact Hc | ].
  apply (X15_added_word_is_highlighted 1727950000000 1728036000000 appleAdded
           (Some "run") getGlobalScope _ firstStart appleAdded_keyed Hnone Hc Hle).
Defined.

(** ** Card identity *)

Lemma colon_split s1 :
  forall s2 w1 w2,
    colonFree s1 = true -> colonFree s2 = true ->
    s1 +:+ ":" +:+ w1 = s2 +:+ ":" +:+ w2 -> s1 = s2 /\ w1 = w2.
Proof.
  induction s1 as [|a s1 IH]; intros s2 w1 w2 H1 H2 Heq.
  - destruct s2 as [|b s2].
    + cbv in Heq. injection Heq as ->. split; reflexivity.
    + cbn [colonFree] in H2. apply andb_true_iff in H2 as [Hb _].
      cbn in Heq. injection Heq as Hab _. subst b. discriminate Hb.
  - cbn [colonFree] in H1. apply andb_true_iff in H1 as [Ha H1].
    destruct s2 as [|b s2].
    + cbn in Heq. injection Heq as Hab _. subst a. discriminate Ha.
    + cbn [colonFree] in H2. apply andb_true_iff in H2 as [_ H2].
      cbn in Heq. injection Heq as -> Heq.
      destruct (IH s2 w1 w2 H1 H2 Heq) as [-> ->]. split; reflexivity.
Qed.

Lemma scoped_id ty i w :
  ty = "chat" \/ ty = "document" -> i <> "" ->
  getLeitnerCardId w (Some {| type := Some ty; sid := Some i |}) =
    ty +:+ ":" +:+ i +:+ ":" +:+ normalizeWord w.
Proof.
  intros Hty Hi. unfold getLeitnerCardId.
  assert (Hk : getScopeKey (Some {| type := Some ty; sid := Some i |}) = ty +:+ ":" +:+ i).
  { destruct i as [|a i]; [ congruence | ].
    destruct Hty as [-> | ->]; reflexivity. }
  rewrite Hk. destruct Hty as [-> | ->]; reflexivity.
Qed.

(** X16. Distinct scopes and words have distinct card ids. For chat and
    document scopes whose ids are not empty and hold no colon, as the ids the
    application generates, the card id determines the kind of scope, the id
    of the scope and the normalised word; and no such card id is the id of a
    global card. With a colon in a scope id this fails: the word "b:c" in
    chat "A" and the word "c" in chat "A:b" share the card id
    "chat:A:b:c". *)
Theorem X16_card_id_injective :
  (forall ty1 ty2 i1 i2 w1 w2,
     ty1 = "chat" \/ ty1 = "document" -> ty2 = "chat" \/ ty2 = "document" ->
     i1 <> "" -> i2 <> "" -> colonFree i1 = true -> colonFree i2 = true ->
     getLeitnerCardId w1 (Some {| type := Some ty1; sid := Some i1 |}) =
     getLeitnerCardId w2 (Some {| type := Some ty2; sid := Some i2 |}) ->
     ty1 = ty2 /\ i1 = i2 /\ normalizeWord w1 = normalizeWord w2) /\
  (forall ty i w1 w2,
     ty = "chat" \/ ty = "document" -> i <> "" ->
     getLeitnerCardId w1 (Some {| type := Some ty; sid := Some i |}) <>
     getLeitnerCardId w2 (Some getGlobalScope)) /\
  (forall w1 w2,
     getLeitnerCardId w1 (Some getGlobalScope) = getLeitnerCardId w2 (Some getGlobalScope) ->
     normalizeWord w1 = normalizeWord w2) /\
  getLeitnerCardId (Some "b:c") (Some {| type := Some "chat"; sid := Some "A" |}) =
  getLeitnerCardId (Some "c") (Some {| type := Some "chat"; sid := Some "A:b" |}).
Proof.
  split; [ | split; [ | split ] ].
  - intros ty1 ty2 i1 i2 w1 w2 H1 H2 Hi1 Hi2 Hc1 Hc2 Heq.
    rewrite !scoped_id in Heq by assumption.
    destruct H1 as [-> | ->]; destruct H2 as [-> | ->]; cbn in Heq;
      try discriminate Heq.
    + injection Heq as Heq.
      destruct (colon_split i1 i2 _ _ Hc1 Hc2 Heq) as [-> ->]. repeat split.
    + injection Heq as Heq.
      destruct (colon_split i1 i2 _ _ Hc1 Hc2 Heq) as [-> ->]. repeat split.
  - intros ty i w1 w2 Hty Hi Heq.
    rewrite scoped_id in Heq by assumption.
    destruct Hty as [-> | ->]; cbv in Heq; discriminate Heq.
  - intros w1 w2 Heq. unfold getLeitnerCardId in Heq.
    change (getScopeKey (Some getGlobalScope) +:+ ":" +:+ normalizeWord w1)
      with ("global" +:+ ":" +:+ "all" +:+ ":" +:+ normalizeWord w1) in Heq.
    change (getScopeKey (Some getGlobalScope) +:+ ":" +:+ normalizeWord w2)
      with ("global" +:+ ":" +:+ "all" +:+ ":" +:+ normalizeWord w2) in Heq.
    apply colon_split in Heq as [_ Heq]; [ | reflexivity | reflexivity ].
    apply colon_split in Heq as [_ Heq]; [ exact Heq | reflexivity | reflexivity ].
  - reflexivity.
Qed.

Lemma X16_card_id_injective_witness :
  colonFree "A" = true /\
  getLeitnerCardId (Some " Apple ") (Some chatA) = getLeitnerCardId (Some "apple") (Some chatA) /\
  normalizeWord (Some " Apple ") = normalizeWord (Some "apple") /\
  getLeitnerCardId (Some "apple") (Some chatA)
    <> getLeitnerCardId (Some "apple") (Some getGlobalScope).
Proof.
  destruct X16_card_id_injective as (Hinj & Hglob & _).
  assert (Hid : getLeitnerCardId (Some " Apple ") (Some chatA)
                = getLeitnerCardId (Some "apple") (Some chatA)) by (vm_compute; reflexivity).
  assert (HA : "A" <> "") by discriminate.
  split; [ reflexivity | ]. split; [ exact Hid | ].
  split.
  - apply (Hinj "chat" "chat" "A" "A" (Some " Apple ") (Some "apple")
             (or_introl eq_refl) (or_introl eq_refl) HA HA eq_refl eq_refl Hid).
  - apply (Hglob "chat" "A" (Some "apple") (Some "apple") (or_introl eq_refl) HA).
Defined.

(** ** Normalised words *)

Lemma trim_lower s : trim (toLowerCase s) = toLowerCase (trim s).
Proof. unfold trim. rewrite trimStart_lower, trimEnd_lower. reflexivity. Qed.

Lemma trimEnd_fixed s :
  trimEnd s = s -> forall p t, s = p +:+ t -> t <> "" -> allSpace t = false.
Proof.
  intros Hs p. revert s Hs. induction p as [|a p IH]; intros s Hs t Heq Ht.
  - change ("" +:+ t) with t in Heq. subst s.
    destruct t as [|b t]; [ congruence | ].
    cbn [trimEnd] in Hs. destruct (allSpace (String b t)); [ discriminate Hs | reflexivity ].
  - change (String a p +:+ t) with (String a (p +:+ t)) in Heq. subst s.
    cbn [trimEnd] in Hs.
    destruct (allSpace (String a (p +:+ t))); [ discriminate Hs | ].
    injection Hs as Hs. apply (IH _ Hs t eq_refl Ht).
Qed.

Lemma upper_lower c a : is_upper c (lower c a) = false.
Proof. destruct c; bytes a; reflexivity. Qed.

Lemma lowerFrom_no_upper s : forall c, upperFrom c (lowerFrom c s) = false.
Proof.
  induction s as [|a s IH]; intros c; cbn [lowerFrom upperFrom]; [ reflexivity | ].
  rewrite upper_lower, C3_lower, IH. reflexivity.
Qed.

(** X17. The normalised word. [normalizeWord] gives a word that does not
    start with white space and has no white space at its end, whichever of
    the white-space characters of [String.prototype.trim] it is, and that
    holds no upper-case letter, of A to Z and of U+00C0 to U+00DE; it is a
    word that [normalizeWord], [trim] and [toLowerCase] do not change again,
    so a word and its normalised form have the same card id in every scope.
    A missing word is normalised to the empty word, and "ÉCOLE" between a
    no-break space and a space to "école". *)
Theorem X17_normalised_word (w : option string) (S : option Scope) :
  spaceLen (normalizeWord w) = 0%nat /\
  (forall p t, normalizeWord w = p +:+ t -> t <> "" -> allSpace t = false) /\
  hasUpper (normalizeWord w) = false /\
  normalizeWord (Some (normalizeWord w)) = normalizeWord w /\
  trim (normalizeWord w) = normalizeWord w /\
  toLowerCase (normalizeWord w) = normalizeWord w /\
  getLeitnerCardId (Some (normalizeWord w)) S = getLeitnerCardId w S /\
  normalizeWord None = "" /\
  normalizeWord (Some paddedECOLE) = "école".
Proof.
  assert (Htrim : trim (normalizeWord w) = normalizeWord w)
    by (unfold normalizeWord; rewrite trim_lower, trim_idem; reflexivity).
  assert (Hstart : trimStart (normalizeWord w) = normalizeWord w).
  { unfold normalizeWord, trim. rewrite trimStart_lower.
    rewrite trimStart_trimEnd by apply trimStart_idem. reflexivity. }
  assert (Hend : trimEnd (normalizeWord w) = normalizeWord w).
  { unfold normalizeWord, trim. rewrite trimEnd_lower, trimEnd_idem. reflexivity. }
  split.
  { apply trimStart_fixed in Hstart as [H | ->]; [ exact H | reflexivity ]. }
  split; [ apply trimEnd_fixed, Hend | ].
  split; [ apply lowerFrom_no_upper | ].
  split; [ apply normalizeWord_idem | ].
  split; [ exact Htrim | ].
  split; [ unfold normalizeWord; apply toLowerCase_idem | ].
  split; [ apply getLeitnerCardId_normalized | ].
  split; reflexivity.
Qed.

Lemma X17_normalised_word_witness :
  normalizeWord (Some " Apple ") = "app" +:+ "le" /\
  "le" <> "" /\ allSpace "le" = false.
Proof.
  assert (H : normalizeWord (Some " Apple ") = "app" +:+ "le") by reflexivity.
  assert (Hne : "le" <> "") by discriminate.
  destruct (X17_normalised_word (Some " Apple ") None) as (_ & Hend & _).
  split; [ exact H | ]. split; [ exact Hne | ].
  apply (Hend "app" "le" H Hne).
Defined.

(** ** What the migration overwrites *)

Lemma migrate_written_value L :
  forall clock (s : gmap string Card) k,
    k ∈ migratedKeys L ->
    exists v i, v ∈ L /\ truthy (word v) = true /\ migratedKey v = k /\
                migrateLegacy clock L s !! k = Some (migrated (clock i) v).
Proof.
  induction L as [|v L IH]; intros clock s k Hk.
  - unfold migratedKeys in Hk. cbn in Hk. inversion Hk.
  - cbn [migrateLegacy].
    destruct (decide (k ∈ migratedKeys L)) as [Hin|Hnin].
    + destruct (IH (fun i => clock (S i)) (migrateCard (clock 0%nat) v s) k Hin)
        as (v' & i & Hv' & Hw & Hkey & Hl).
      exists v', (S i). split; [ right; exact Hv' | ]. split; [ exact Hw | ].
      split; [ exact Hkey | exact Hl ].
    + rewrite migrate_lookup_other by exact Hnin.
      rewrite migratedKeys_cons in Hk.
      destruct (truthy (word v)) eqn:Hw; [ | contradiction ].
      apply elem_of_cons in Hk as [-> | Hin]; [ | contradiction ].
      exists v, 0%nat. split; [ left | ]. split; [ exact Hw | ].
      split; [ reflexivity | ].
      rewrite migrateCard_put by exact Hw. apply lookup_insert_eq.
Qed.

(** X18. What the migration overwrites. A run of the migration leaves every
    record alone whose id is not the id of a legacy record with a word. At
    the id of such a legacy record it stores the record built from the legacy
    one, whatever the new store held there: the scheduling fields are those
    of the legacy record, so a migrated card that was rated since the last
    run loses its progress when the migration runs again. *)
Theorem X18_migration_overwrites (clock : nat -> Z) (oldStore : list Card)
    (newStore : gmap string Card) (k : string) :
  (k ∉ migratedKeys oldStore ->
   migrateLegacy clock oldStore newStore !! k = newStore !! k) /\
  (k ∈ migratedKeys oldStore ->
   exists v c,
     v ∈ oldStore /\ truthy (word v) = true /\ migratedKey v = k /\
     migrateLegacy clock oldStore newStore !! k = Some c /\
     id c = Some k /\ migratedFromLegacy c = true /\ word c = word v /\
     repetitions c = repetitions v /\ interval c = interval v /\
     easeFactor c = easeFactor v /\ dueDate c = dueDate v /\
     lastReviewed c = lastReviewed v /\ status c = status v).
Proof.
  split.
  - apply migrate_lookup_other.
  - intros Hk.
    destruct (migrate_written_value oldStore clock newStore k Hk)
      as (v & i & Hv & Hw & Hkey & Hl).
    exists v, (migrated (clock i) v).
    split; [ exact Hv | ]. split; [ exact Hw | ]. split; [ exact Hkey | ].
    split; [ exact Hl | ]. cbn [migrated id]. rewrite Hkey. repeat split.
Qed.

Lemma X18_migration_overwrites_witness :
  "chat:A:apple" ∈ migratedKeys [legacyNoWord; legacyApple] /\
  ("chat:B:apple" ∉ migratedKeys [legacyNoWord; legacyApple]) /\
  (exists c,
     migrateLegacy (fun _ => 1728036000000) [legacyNoWord; legacyApple] (db appleAdded)
       !! "chat:A:apple" = Some c /\
     migratedFromLegacy c = true) /\
  migrateLegacy (fun _ => 1728036000000) [legacyNoWord; legacyApple] (db appleAdded)
    !! "chat:B:apple" = None.
Proof.
  assert (Hin : "chat:A:apple" ∈ migratedKeys [legacyNoWord; legacyApple])
    by (vm_compute; constructor).
  assert (Hout : "chat:B:apple" ∉ migratedKeys [legacyNoWord; legacyApple]).
  { intros H. vm_compute in H. apply list_elem_of_singleton in H. discriminate H. }
  split; [ exact Hin | ]. split; [ exact Hout | ].
  split.
  - destruct (X18_migration_overwrites (fun _ => 1728036000000)
                [legacyNoWord; legacyApple] (db appleAdded) "chat:A:apple") as [_ Hw].
    destruct (Hw Hin) as (v & c & _ & _ & _ & Hc & _ & Hm & _).
    exists c. split; [ exact Hc | exact Hm ].
  - destruct (X18_migration_overwrites (fun _ => 1728036000000)
                [legacyNoWord; legacyApple] (db appleAdded) "chat:B:apple") as [Hk _].
    rewrite (Hk Hout). vm_compute; reflexivity.
Defined.

(** ** Import of a backup *)

Lemma importCard_put now c (s : gmap string Card) k :
  truthy (word c) = true -> truthy (scopeKey c) = true -> id c = Some k ->
  importCard now c s = <[k := c]> s.
Proof.
  intros Hw Hs Hid. unfold importCard, dbSet. rewrite Hw, Hs. cbn [negb].
  rewrite Hid. reflexivity.
Qed.

Lemma import_lookup_none l :
  forall clock (s : gmap string Card) k,
    kept l -> (forall c, c ∈ l -> id c <> Some k) ->
    importCards clock l s !! k = s !! k.
Proof.
  induction l as [|c l IH]; intros clock s k Hkept Hno; [ reflexivity | ].
  cbn [importCards].
  rewrite IH; [ | intros c' Hin; apply Hkept; right; exact Hin
                | intros c' Hin; apply Hno; right; exact Hin ].
  destruct (Hkept c ltac:(left)) as (Hw & Hs & [k' Hid]).
  rewrite (importCard_put _ c s k' Hw Hs Hid).
  apply lookup_insert_ne. intros ->. apply (Hno c ltac:(left)), Hid.
Qed.

Lemma import_lookup_some l :
  forall clock (s : gmap string Card) k c,
    kept l -> c ∈ l -> id c = Some k ->
    (forall c', c' ∈ l -> id c' = Some k -> c' = c) ->
    importCards clock l s !! k = Some c.
Proof.
  induction l as [|c0 l IH]; intros clock s k c Hkept Hin Hid Huniq; [ inversion Hin | ].
  cbn [importCards].
  assert (Hkept' : kept l) by (intros c' Hin'; apply Hkept; right; exact Hin').
  destruct (decide (Exists (fun c' => id c' = Some k) l)) as [Hex|Hnex].
  - apply Exists_exists in Hex as (c1 & Hin1 & Hid1).
    assert (c1 = c) by (apply Huniq; [ right; exact Hin1 | exact Hid1 ]). subst c1.
    apply IH; [ exact Hkept' | exact Hin1 | exact Hid | ].
    intros c' Hin' Hid'. apply Huniq; [ right; exact Hin' | exact Hid' ].
  - rewrite import_lookup_none; [ | exact Hkept' | ].
    + apply elem_of_cons in Hin as [-> | Hin].
      * destruct (Hkept c0 ltac:(left)) as (Hw & Hs & _).
        rewrite (importCard_put _ c0 s k Hw Hs Hid). apply lookup_insert_eq.
      * exfalso. apply Hnex, Exists_exists. exists c. split; assumption.
    + intros c' Hin' Hid'. apply Hnex, Exists_exists. exists c'. split; assumption.
Qed.

Lemma jsonCard_fields c :
  id (jsonCard c) = id c /\ word (jsonCard c) = word c /\
  scopeKey (jsonCard c) = scopeKey c.
Proof. repeat split. Qed.

Lemma keyed_truthy c :
  cardKeyed c -> truthy (word c) = true /\ truthy (scopeKey c) = true.
Proof.
  intros (sk & w & Hs & Hw & Hsk & Hwne & _). rewrite Hs, Hw. cbn [truthy].
  apply String.eqb_neq in Hsk, Hwne. rewrite Hsk, Hwne. split; reflexivity.
Qed.

Lemma import_of_export (clock : nat -> Z) (store : gmap string Card) :
  wellKeyed store ->
  importCards clock (exportedCards store) ∅ = jsonCard <$> store.
Proof.
  intros Hw. apply map_eq. intros k. rewrite lookup_fmap.
  assert (Hkept : kept (exportedCards store)).
  { intros c Hin. unfold exportedCards in Hin.
    apply list_elem_of_fmap in Hin as (c0 & -> & Hin0).
    apply elem_of_getAll_inv in Hin0 as [k0 H0].
    destruct (Hw k0 c0 H0) as [Hid Hkeyed].
    destruct (keyed_truthy c0 Hkeyed) as [Hword Hs].
    split; [ exact Hword | ]. split; [ exact Hs | ]. exists k0. exact Hid. }
  destruct (store !! k) as [c|] eqn:Hk; cbn [fmap option_fmap option_map].
  - apply import_lookup_some; [ exact Hkept | | | ].
    + unfold exportedCards. apply list_elem_of_fmap. exists c.
      split; [ reflexivity | eapply elem_of_getAll, Hk ].
    + apply (Hw k c Hk).
    + intros c' Hin Hid. unfold exportedCards in Hin.
      apply list_elem_of_fmap in Hin as (c0 & -> & Hin0).
      apply elem_of_getAll_inv in Hin0 as [k0 H0].
      destruct (Hw k0 c0 H0) as [Hid0 _].
      cbn [jsonCard withFields id] in Hid. rewrite Hid0 in Hid. injection Hid as ->.
      congruence.
  - rewrite import_lookup_none; [ apply lookup_empty | exact Hkept | ].
    intros c' Hin Hid. unfold exportedCards in Hin.
    apply list_elem_of_fmap in Hin as (c0 & -> & Hin0).
    apply elem_of_getAll_inv in Hin0 as [k0 H0].
    destruct (Hw k0 c0 H0) as [Hid0 _].
    cbn [jsonCard withFields id] in Hid. rewrite Hid0 in Hid. injection Hid as ->.
    congruence.
Qed.

(** X19. A backup restores the cards. Over a store whose ids are made of
    scope key and word, importing the cards that the export wrote gives back
    the store, whatever the store held before the import, with every card
    under its id and with its numeric fields as JSON carries them: NaN and
    the infinities come back as null and -0 as 0. When no card holds such a
    value the store is restored exactly. *)
Theorem X19_backup_restores_cards (clock : nat -> Z) (store before : gmap string Card)
    (leitner_cards : option (list Card)) :
  wellKeyed store ->
  let restored :=
    importLeitnerCards clock (Some (exportedCards store)) leitner_cards before in
  restored = jsonCard <$> store /\
  dom restored = dom store /\
  ((forall k c, store !! k = Some c ->
      jsonValue (repetitions c) = repetitions c /\
      jsonValue (interval c) = interval c /\
      jsonValue (easeFactor c) = easeFactor c) ->
   restored = store).
Proof.
  intros Hw. cbv zeta. unfold importLeitnerCards.
  rewrite (import_of_export clock store Hw).
  split; [ reflexivity | ]. split; [ apply dom_fmap_L | ].
  intros Hstable. apply map_eq. intros k. rewrite lookup_fmap.
  destruct (store !! k) as [c|] eqn:Hk; [ | reflexivity ].
  cbn. f_equal. destruct (Hstable k c Hk) as (H1 & H2 & H3).
  unfold jsonCard. rewrite H1, H2, H3. destruct c; reflexivity.
Qed.

Lemma X19_backup_restores_cards_witness :
  wellKeyed (db appleAndRun) /\
  importLeitnerCards (fun _ => 1728036000000) (Some (exportedCards (db appleAndRun)))
    None (db appleAdded) = jsonCard <$> db appleAndRun /\
  importLeitnerCards (fun _ => 1728036000000) (Some (exportedCards (db appleAdded)))
    None (db appleAndRun) = db appleAdded.
Proof.
  split; [ exact appleAndRun_keyed | ]. split.
  - destruct (X19_backup_restores_cards (fun _ => 1728036000000) (db appleAndRun)
                (db appleAdded) None appleAndRun_keyed) as (Hjson & _).
    exact Hjson.
  - destruct (X19_backup_restores_cards (fun _ => 1728036000000) (db appleAdded)
                (db appleAndRun) None appleAdded_keyed) as (_ & _ & Hexact).
    apply Hexact.
    intros k c H.
    assert (Hdb : db appleAdded =
                  {["chat:A:apple" := default (runCard 0) (db appleAdded !! "chat:A:apple")]})
      by (vm_compute; reflexivity).
    rewrite Hdb in H. apply lookup_singleton_Some in H as [_ <-].
    vm_compute. repeat split.
Defined.

Lemma migratedCard_unmarked now v :
  migratedFromLegacy v = false -> migratedCard now v = unmarked (migrated now v).
Proof.
  intros Hf. unfold migratedCard, unmarked, migrated, migratedKey.
  cbn [id word chatId scopeType scopeId scopeKey createdAt dueDate repetitions interval
       easeFactor lastReviewed status migratedFromLegacy].
  rewrite Hf. reflexivity.
Qed.

Lemma import_legacy_step now v (s : gmap string Card) :
  truthy (scopeKey v) = false -> migratedFromLegacy v = false ->
  importCard now v (unmarked <$> s) = unmarked <$> migrateCard now v s.
Proof.
  intros Hs Hf. unfold importCard, migrateCard.
  destruct (truthy (word v)); cbn [negb]; [ | reflexivity ].
  rewrite Hs. cbn [negb]. rewrite (migratedCard_unmarked now v Hf).
  unfold dbSet. cbn [unmarked migrated id]. rewrite fmap_insert. reflexivity.
Qed.

Lemma import_legacy_cards L :
  forall clock (s : gmap string Card),
    (forall v, v ∈ L -> truthy (scopeKey v) = false /\ migratedFromLegacy v = false) ->
    importCards clock L (unmarked <$> s) = unmarked <$> migrateLegacy clock L s.
Proof.
  induction L as [|v L IH]; intros clock s Hall; [ reflexivity | ].
  cbn [importCards migrateLegacy].
  destruct (Hall v ltac:(left)) as [Hs Hf].
  rewrite (import_legacy_step _ v s Hs Hf).
  apply IH. intros v' Hin. apply Hall. right. exact Hin.
Qed.

(** X20. The two migrations agree. Importing a backup that has no
    [leitner_cards_v2] but legacy cards, none with a scope key, stores the
    cards that the upgrade migration builds from the same records, without
    the mark [migratedFromLegacy]. A backup whose [leitner_cards_v2] is
    present but empty leaves the store empty, whatever legacy cards it
    carries. *)
Theorem X20_import_of_legacy_cards (clock : nat -> Z) (L : list Card)
    (before : gmap string Card) :
  (forall v, v ∈ L -> truthy (scopeKey v) = false /\ migratedFromLegacy v = false) ->
  importLeitnerCards clock None (Some L) before = unmarked <$> migrateLegacy clock L ∅ /\
  importLeitnerCards clock (Some []) (Some L) before = ∅.
Proof.
  intros Hall. split; [ | reflexivity ].
  unfold importLeitnerCards.
  rewrite <- (import_legacy_cards L clock ∅ Hall). rewrite fmap_empty. reflexivity.
Qed.

Lemma X20_import_of_legacy_cards_witness :
  (forall v, v ∈ [legacyNoWord; legacyApple] ->
     truthy (scopeKey v) = false /\ migratedFromLegacy v = false) /\
  importLeitnerCards (fun _ => 1728036000000) None (Some [legacyNoWord; legacyApple])
    (db appleAndRun)
  = unmarked <$> migrateLegacy (fun _ => 1728036000000) [legacyNoWord; legacyApple] ∅.
Proof.
  assert (Hall : forall v, v ∈ [legacyNoWord; legacyApple] ->
                   truthy (scopeKey v) = false /\ migratedFromLegacy v = false).
  { intros v Hin.
    apply elem_of_cons in Hin as [-> | Hin]; [ split; reflexivity | ].
    apply list_elem_of_singleton in Hin as ->. split; reflexivity. }
  split; [ exact Hall | ].
  apply (X20_import_of_legacy_cards (fun _ => 1728036000000)
           [legacyNoWord; legacyApple] (db appleAndRun) Hall).
Defined.

(** ** Interval texts *)

Lemma whole_days_in_range d :
  0 <= d <= 10000 -> In d (map Z.of_nat (seq 0 (Z.to_nat 10001))).
Proof.
  intros Hd. apply in_map_iff. exists (Z.to_nat d).
  split; [ lia | ]. apply in_seq. lia.
Qed.

Lemma formatInterval_table :
  map (fun d => formatInterval (num d)) (map Z.of_nat (seq 0 (Z.to_nat 10001))) =
  map intervalTextZ (map Z.of_nat (seq 0 (Z.to_nat 10001))).
Proof. vm_compute. reflexivity. Qed.

(** X21. The interval text for whole days. For every whole number of days
    from 0 to 10000, the text that [formatInterval] computes with binary64
    division and rounding is the one that integer arithmetic gives: under one
    day for 0, the days themselves up to 29, months as the days divided by 30
    and rounded half up while below 12, and years as the months divided by 12
    and rounded half up from then on. *)
Theorem X21_interval_text_whole_days (d : Z) :
  0 <= d <= 10000 -> formatInterval (num d) = intervalTextZ d.
Proof.
  intros Hd.
  apply (proj1 List.map_ext_in_iff formatInterval_table d).
  apply whole_days_in_range, Hd.
Qed.

Lemma X21_interval_text_whole_days_witness :
  0 <= 345 <= 10000 /\ formatInterval (num 345) = TxtOneYear.
Proof.
  split; [ lia | ]. apply (X21_interval_text_whole_days 345). lia.
Defined.

Lemma again_equals_hard card :
  calculateSM2 card (num 2) = calculateSM2 card (num 0).
Proof. reflexivity. Qed.

(** X22. The texts on the rating buttons. With a current card,
    [updateRatingButtons] writes the same text on Again and on Hard: under
    one day when the card has no repetitions, and one day otherwise. For a
    card without repetitions Good reads one day and Easy four days. Without
    a current card it writes nothing. *)
Theorem X22_rating_button_texts (app : App) :
  (currentCard app = None -> updateRatingButtons app = None) /\
  (forall card, currentCard app = Some card ->
     exists again good easy,
       updateRatingButtons app = Some (again, again, good, easy) /\
       (js_seq (priorRepetitions card) (num 0) = true -> again = TxtUnderOneDay) /\
       (js_seq (priorRepetitions card) (num 0) = false -> again = TxtOneDay) /\
       (ToBoolean (repetitions card) = false ->
          again = TxtUnderOneDay /\ good = TxtOneDay /\ easy = TxtDays (num 4))).
Proof.
  unfold updateRatingButtons. split; [ intros ->; reflexivity | ].
  intros card ->. rewrite again_equals_hard.
  eexists _, _, _. split; [ reflexivity | ].
  assert (Hagain : newInterval (calculateSM2 card (num 0)) =
                   if js_seq (priorRepetitions card) (num 0) then num 0 else num 1)
    by reflexivity.
  split; [ intros H; rewrite Hagain, H; reflexivity | ].
  split; [ intros H; rewrite Hagain, H; reflexivity | ].
  intros Hnew.
  destruct (new_card_intervals card Hnew) as (H1 & _ & H3 & H4).
  cbn [qualityMap] in H1, H3, H4. rewrite H1, H3, H4. repeat split.
Qed.

Lemma X22_rating_button_texts_witness :
  currentCard runOpened = Some (runCard 1727950000000) /\
  ToBoolean (repetitions (runCard 1727950000000)) = false /\
  updateRatingButtons runOpened
    = Some (TxtUnderOneDay, TxtUnderOneDay, TxtOneDay, TxtDays (num 4)) /\
  currentCard emptyApp = None /\ updateRatingButtons emptyApp = None.
Proof.
  assert (Hc : currentCard runOpened = Some (runCard 1727950000000))
    by (vm_compute; reflexivity).
  split; [ exact Hc | ]. split; [ reflexivity | ].
  destruct (X22_rating_button_texts runOpened) as [_ Hsome].
  destruct (Hsome _ Hc) as (a & g & e & Hb & _ & _ & Hnew).
  destruct (Hnew eq_refl) as (-> & -> & ->).
  split; [ exact Hb | ]. split; [ reflexivity | ].
  apply (X22_rating_button_texts emptyApp). reflexivity.
Defined.

(** ** What adding a word changes *)

Lemma active_scope_fallback app : exists sc, getActiveScope app true = Some sc.
Proof.
  unfold getActiveScope.
  destruct (_ && _)%bool; [ eauto | ].
  destruct (truthy (currentChatId app)); eauto.
Qed.

Lemma target_scope_found app scope : exists sc, targetScopeFor app scope = Some sc.
Proof.
  destruct scope as [sc|]; cbn [targetScopeFor]; [ eauto | apply active_scope_fallback ].
Qed.

Lemma spoken_browser tts :
  speechSynthesis tts = true -> speaking tts = false -> speakingLater tts = false ->
  truthy (AVALAI_API_KEY tts) = false -> truthy (API_KEY tts) = false ->
  spoken tts = Some [ToastTtsUnsupported].
Proof.
  intros H1 H2 H3 H4 H5.
  unfold spoken, playTextToSpeech, playAudio, playWithBrowserTTS.
  rewrite H1, H2, H3, H4, H5, !andb_false_r.
  destruct (audioCached tts); reflexivity.
Qed.

(** X23. What adding a word changes. [addCurrentWordToLeitner] leaves the
    session alone and never changes or removes a stored card; it raises one
    or two toasts, never the request to select a chat or document, as the
    global scope stands in when none is open. For a word that is not in the
    target scope it stores one card, under the id of the word in that scope,
    and it does so before the word is played: in a browser without speech
    synthesis the failure toast is raised in place of the toast "added",
    although the card is stored; otherwise "added" follows, after at most
    one toast of the playback. With no key for a speech provider and nothing
    being spoken the playback always raises its toast, as the call passes no
    button to the browser's own speech. *)
Theorem X23_add_changes (tts : Speech) (now : Z) (app : App)
    (word0 : option string) (scope : option Scope) :
  let app' := addCurrentWordToLeitner tts now app word0 scope in
  let w := normalizeWord word0 in
  let k := getLeitnerCardId word0 (targetScopeFor app scope) in
  leitnerQueue app' = leitnerQueue app /\ currentCard app' = currentCard app /\
  leitnerFinishedScreen app' = leitnerFinishedScreen app /\
  currentChatId app' = currentChatId app /\
  currentDocumentId app' = currentDocumentId app /\
  (forall k' c, db app !! k' = Some c -> db app' !! k' = Some c) /\
  (exists raised,
     toasts app' = raised ++ toasts app /\
     (1 <= length raised <= 2)%nat /\ ToastSelectScope ∉ raised) /\
  (w = "" -> db app' = db app /\ toasts app' = ToastEmptyWord :: toasts app) /\
  (w <> "" -> db app !! k = None ->
   (exists targetScope,
      targetScopeFor app scope = Some targetScope /\
      db app' = <[k := addedCard now word0 targetScope]> (db app)) /\
   size (db app') = S (size (db app)) /\
   (speechSynthesis tts = false -> toasts app' = ToastFailed :: toasts app) /\
   (speechSynthesis tts = true ->
      toasts app' = ToastAdded w :: toasts app \/
      toasts app' = ToastAdded w :: ToastTtsUnsupported :: toasts app) /\
   (speechSynthesis tts = true -> speaking tts = false -> speakingLater tts = false ->
    truthy (AVALAI_API_KEY tts) = false -> truthy (API_KEY tts) = false ->
    toasts app' = ToastAdded w :: ToastTtsUnsupported :: toasts app)).
Proof.
  cbv zeta.
  destruct (add_frame tts now app word0 scope) as (Hchat & Hdoc & _ & _ & Hq & Hcur & Hfin).
  repeat (split; [ assumption | ]).
  destruct (target_scope_found app scope) as [ts Hts].
  pose proof (add_db tts now app word0 scope) as Hdb.
  pose proof (add_toasts tts now app word0 scope) as Ht.
  rewrite Hts in Hdb, Ht |- *.
  assert (Hnot : forall l : list Toast,
            (forall t, t ∈ l -> t <> ToastSelectScope) -> ToastSelectScope ∉ l).
  { intros l Hl Hin. apply (Hl _ Hin). reflexivity. }
  destruct (String.eqb (normalizeWord word0) "") eqn:Hw.
  { apply String.eqb_eq in Hw. rewrite Hdb, Ht.
    split; [ intros k' c H; exact H | ].
    split.
    - exists [ToastEmptyWord]. split; [ reflexivity | ]. split; [ simpl; lia | ].
      apply Hnot. intros t Hin. apply list_elem_of_singleton in Hin as ->. discriminate.
    - split; [ intros _; split; reflexivity | ]. intros Hne. contradiction. }
  apply String.eqb_neq in Hw.
  destruct (db app !! getLeitnerCardId word0 (Some ts)) as [c|] eqn:Hc.
  { rewrite Hdb, Ht.
    split; [ intros k' c' H; exact H | ].
    split; [ | split; [ intros He; contradiction | intros _ [=] ] ].
    destruct (spoken_cases tts) as [[_ ->] | [_ [-> | ->]]].
    - exists [ToastFailed; ToastAlreadyInDeck (normalizeWord word0)].
      split; [ reflexivity | ]. split; [ simpl; lia | ].
      apply Hnot. intros t Hin.
      apply elem_of_cons in Hin as [-> | Hin]; [ discriminate | ].
      apply list_elem_of_singleton in Hin as ->. discriminate.
    - exists [ToastAlreadyInDeck (normalizeWord word0)].
      split; [ reflexivity | ]. split; [ simpl; lia | ].
      apply Hnot. intros t Hin. apply list_elem_of_singleton in Hin as ->. discriminate.
    - exists [ToastTtsUnsupported; ToastAlreadyInDeck (normalizeWord word0)].
      split; [ reflexivity | ]. split; [ simpl; lia | ].
      apply Hnot. intros t Hin.
      apply elem_of_cons in Hin as [-> | Hin]; [ discriminate | ].
      apply list_elem_of_singleton in Hin as ->. discriminate. }
  rewrite Hdb, Ht.
  split.
  { intros k' c' Hk. rewrite lookup_insert_ne; [ exact Hk | ]. intros <-. congruence. }
  split.
  { destruct (spoken_cases tts) as [[_ ->] | [_ [-> | ->]]].
    - exists [ToastFailed]. split; [ reflexivity | ]. split; [ simpl; lia | ].
      apply Hnot. intros t Hin. apply list_elem_of_singleton in Hin as ->. discriminate.
    - exists [ToastAdded (normalizeWord word0)].
      split; [ reflexivity | ]. split; [ simpl; lia | ].
      apply Hnot. intros t Hin. apply list_elem_of_singleton in Hin as ->. discriminate.
    - exists [ToastAdded (normalizeWord word0); ToastTtsUnsupported].
      split; [ reflexivity | ]. split; [ simpl; lia | ].
      apply Hnot. intros t Hin.
      apply elem_of_cons in Hin as [-> | Hin]; [ discriminate | ].
      apply list_elem_of_singleton in Hin as ->. discriminate. }
  split; [ intros He; contradiction | ]. intros _ _.
  split; [ exists ts; split; reflexivity | ].
  split; [ apply map_size_insert_None, Hc | ].
  split; [ | split ].
  - intros Hsyn. destruct (spoken_cases tts) as [[_ ->] | [Hsyn' _]]; [ reflexivity | ].
    congruence.
  - intros Hsyn. destruct (spoken_cases tts) as [[Hsyn' _] | [_ [-> | ->]]];
      [ congruence | left; reflexivity | right; reflexivity ].
  - intros H1 H2 H3 H4 H5. rewrite (spoken_browser tts H1 H2 H3 H4 H5). reflexivity.
Qed.

Lemma X23_add_changes_witness :
  (exists c, db appleAdded !! "chat:A:apple" = Some c /\
             db appleAndRun !! "chat:A:apple" = Some c) /\
  normalizeWord (Some "run") <> "" /\
  db appleAdded !! getLeitnerCardId (Some "run") (Some getGlobalScope) = None /\
  toasts appleAndRun = ToastAdded "run" :: ToastTtsUnsupported :: toasts appleAdded /\
  (let failed :=
     addCurrentWordToLeitner noSynthesis 1727950000000 appleAdded (Some "run")
       (Some getGlobalScope) in
   toasts failed = ToastFailed :: toasts appleAdded /\
   size (db failed) = S (size (db appleAdded))).
Proof.
  assert (Hw : normalizeWord (Some "run") <> "") by (vm_compute; discriminate).
  assert (Hnone : db appleAdded !! getLeitnerCardId (Some "run") (Some getGlobalScope) = None)
    by (vm_compute; reflexivity).
  destruct (X23_add_changes firstStart 1727950000000 appleAdded (Some "run")
              (Some getGlobalScope))
    as (_ & _ & _ & _ & _ & Hkeep & _ & _ & Hnew).
  destruct (Hnew Hw Hnone) as (_ & _ & _ & _ & Hbrowser).
  destruct (X23_add_changes noSynthesis 1727950000000 appleAdded (Some "run")
              (Some getGlobalScope))
    as (_ & _ & _ & _ & _ & _ & _ & _ & Hnew').
  destruct (Hnew' Hw Hnone) as (_ & Hsize & Hfailed & _).
  split; [ eexists; split; [ vm_compute; reflexivity | apply Hkeep; vm_compute; reflexivity ] | ].
  split; [ exact Hw | ]. split; [ exact Hnone | ].
  split; [ apply Hbrowser; reflexivity | ].
  cbv zeta. split; [ apply Hfailed; reflexivity | exact Hsize ].
Defined.

(** ** The classifier and the queue on written cards *)

Lemma instant_iff_day tz now d :
  setHours0 tz d = d \/ d <= now ->
  (d <=? now) = (setHours0 tz d <=? setHours0 tz now).
Proof.
  intros Hor.
  pose proof (setHours0_le tz now) as Hnow.
  pose proof (setHours0_le tz d) as Hd.
  destruct (Z.leb_spec d now) as [Hle|Hgt].
  - symmetry. apply Z.leb_le, setHours0_mono, Hle.
  - destruct Hor as [Hmid|Hle]; [ | lia ].
    symmetry. apply Z.leb_gt. rewrite Hmid. lia.
Qed.

Lemma due_state_iff c now d :
  dueDate c = IsoDate d ->
  (state (evaluateCardDueState (Some c) now) = StDue \/
   state (evaluateCardDueState (Some c) now) = StOverdue) <-> d <= now.
Proof.
  intros Hd. unfold evaluateCardDueState. rewrite Hd. cbn [newDate state].
  destruct (Z.leb_spec d now) as [Hle|Hgt]; cbn [andb].
  - split; [ intros _; exact Hle | intros _ ].
    destruct (now - d >? msPerDay); auto.
  - split; [ | lia ].
    destruct (js_seq (repetitions c) (num 0)); intros [H|H]; discriminate H.
Qed.

(** X24. The highlight and the queue agree on the cards that ratings write.
    For the card that [rateCard] stores, at every time the date test of the
    review queue lets the card pass exactly when the classifier answers due
    or overdue. The same holds for any card whose due date is a local
    midnight or is not after the current time. *)
Theorem X24_highlight_and_queue_agree (tz : Z) :
  (forall c d now,
     dueDate c = IsoDate d -> setHours0 tz d = d \/ d <= now ->
     (dueByDay tz now c = true <->
      state (evaluateCardDueState (Some c) now) = StDue \/
      state (evaluateCardDueState (Some c) now) = StOverdue)) /\
  (forall now app rating app' card,
     rateCard tz now app rating = Some app' ->
     currentCard app = Some card ->
     exists k c', id card = Some k /\ db app' !! k = Some c' /\
       forall now',
         dueByDay tz now' c' = true <->
         state (evaluateCardDueState (Some c') now') = StDue \/
         state (evaluateCardDueState (Some c') now') = StOverdue).
Proof.
  assert (Hgen : forall c d now,
     dueDate c = IsoDate d -> setHours0 tz d = d \/ d <= now ->
     (dueByDay tz now c = true <->
      state (evaluateCardDueState (Some c) now) = StDue \/
      state (evaluateCardDueState (Some c) now) = StOverdue)).
  { intros c d now Hd Hor. rewrite (due_state_iff c now d Hd).
    unfold dueByDay. rewrite Hd. cbn [newDate].
    rewrite <- (instant_iff_day tz now d Hor). apply Z.leb_le. }
  split; [ exact Hgen | ].
  intros now app rating app' card H Hc.
  destruct (rateCard_inv _ _ _ _ _ _ H Hc) as (k & d & Hk & Hd & Hdb & _).
  destruct (setDatePlus_inv _ _ _ Hd) as (n & _ & Hdn & _).
  exists k, (updatedCard card (calculateSM2 card (qualityMap rating)) d now).
  split; [ exact Hk | ]. split; [ rewrite Hdb; apply lookup_insert_eq | ].
  intros now'. apply (Hgen _ d); [ reflexivity | ].
  left. rewrite Hdn. apply setHours0_midnight.
Qed.

Lemma X24_highlight_and_queue_agree_witness :
  dueDate (runCard 1727950000000) = IsoDate 1727950000000 /\
  1727950000000 <= 1728036000000 /\
  dueByDay 0 1728036000000 (runCard 1727950000000) = true /\
  state (evaluateCardDueState (Some (runCard 1727950000000)) 1728036000000) = StDue.
Proof.
  assert (Hle : 1727950000000 <= 1728036000000) by lia.
  assert (Hday : dueByDay 0 1728036000000 (runCard 1727950000000) = true)
    by (vm_compute; reflexivity).
  split; [ reflexivity | ]. split; [ exact Hle | ]. split; [ exact Hday | ].
  destruct (X24_highlight_and_queue_agree 0) as [Hgen _].
  destruct (proj1 (Hgen (runCard 1727950000000) 1727950000000 1728036000000
                     eq_refl (or_intror Hle)) Hday) as [H | H];
    [ exact H | vm_compute in H; discriminate H ].
Defined.

(** ** Leaving and entering a session *)

(** X25. Closing and the quick review. After [closeLeitnerModal] the queue
    is empty and there is no current card, so a rating writes nothing and
    the buttons get no text. A quick review of a card makes it the current
    card of a session without queue, counted as one review card whatever
    its repetitions; the first rating that goes through stores the card
    under its id, ends the session and shows the finished screen. *)
Theorem X25_close_and_quick_review (tz now : Z) (app : App) (rating : Z) :
  rateCard tz now (closeLeitnerModal app) rating = Some (closeLeitnerModal app) /\
  updateRatingButtons (closeLeitnerModal app) = None /\
  db (closeLeitnerModal app) = db app /\
  (forall card,
     let quick := startQuickReview app card in
     currentCard quick = Some card /\ leitnerQueue quick = [] /\
     leitnerStatsNew quick = 0%nat /\ leitnerStatsDue quick = 1%nat /\
     leitnerFinishedScreen quick = false /\ db quick = db app /\
     forall app', rateCard tz now quick rating = Some app' ->
       exists k c', id card = Some k /\ db app' = <[k := c']> (db app) /\
                    leitnerQueue app' = [] /\ leitnerFinishedScreen app' = true).
Proof.
  split; [ reflexivity | ]. split; [ reflexivity | ]. split; [ reflexivity | ].
  intros card. cbv zeta.
  repeat (split; [ reflexivity | ]).
  intros app' H.
  destruct (rateCard_inv _ _ _ _ _ _ H eq_refl) as (k & d & Hk & _ & Hdb & Hq & _ & Hf & _).
  exists k, (updatedCard card
               (calculateSM2 card (qualityMap rating)) d now).
  split; [ exact Hk | ]. split; [ exact Hdb | ]. split; [ exact Hq | exact Hf ].
Qed.

Lemma X25_close_and_quick_review_witness :
  exists app' c',
    rateCard 0 1728036000000 (startQuickReview emptyApp (runCard 1727950000000)) 3
      = Some app' /\
    db app' = <["document:doc1:run" := c']> ∅ /\
    leitnerFinishedScreen app' = true.
Proof.
  assert (H : rateCard 0 1728036000000 (startQuickReview emptyApp (runCard 1727950000000)) 3
              = Some (default emptyApp
                        (rateCard 0 1728036000000
                           (startQuickReview emptyApp (runCard 1727950000000)) 3)))
    by (vm_compute; reflexivity).
  destruct (X25_close_and_quick_review 0 1728036000000 emptyApp 3) as (_ & _ & _ & Hquick).
  destruct (Hquick (runCard 1727950000000)) as (_ & _ & _ & _ & _ & _ & Hrate).
  destruct (Hrate _ H) as (k & c' & Hk & Hdb & _ & Hf).
  injection Hk as <-.
  eexists _, c'. split; [ exact H | ]. split; [ exact Hdb | exact Hf ].
Defined.
